(** * cfg: a parser for [key = value;] configuration files

    Shallow embedding of [cfg_parse.c] / [cfg_parse.h] and the properties
    of its parser, serializer and accessors.

    The C code reads the source through a [FILE*] with [fgetc], rewinds it
    with [fseek(file, -n, SEEK_CUR)] and copies tokens out with [fgets].
    The embedding keeps that shape: a stream is the file's bytes and a read
    position, every C function becomes a function that passes the stream
    explicitly and returns its [int] status next to the new stream, and
    every [while (1)] loop becomes a fixpoint on a step budget ([fuel]);
    [None] means the budget ran out before the loop left.

    Assumed throughout: [malloc] succeeds; the "C" locale; lengths and
    counters ([int], [uint64_t]) do not overflow (they are natural numbers
    here); [strtol], [strtod], [%ld] and [%lf] behave as the C standard and
    IEEE 754 say, with round-to-nearest. *)

From Stdlib Require Import ZArith Ascii String List Bool Lia.
Import ListNotations.
Open Scope Z_scope.

(** ** Characters: [int] values as returned by [fgetc] *)

Definition EOF : Z := -1.

Definition int_of_char (a : ascii) : Z := Z.of_N (N_of_ascii a).

Definition bytes (s : string) : list ascii := list_ascii_of_string s.

(** <ctype.h> in the "C" locale (the program never calls [setlocale]).
    Each predicate is false on [EOF] and on bytes above 127. *)

Definition isdigit (c : Z) : bool := (48 <=? c) && (c <=? 57).

Definition isupper (c : Z) : bool := (65 <=? c) && (c <=? 90).

Definition islower (c : Z) : bool := (97 <=? c) && (c <=? 122).

Definition isalpha (c : Z) : bool := isupper c || islower c.

Definition isalnum (c : Z) : bool := isalpha c || isdigit c.

Definition isspace (c : Z) : bool := (c =? 32) || ((9 <=? c) && (c <=? 13)).

Definition tolower (c : Z) : Z := if isupper c then c + 32 else c.

(** ** Status codes and type tags of [cfg_parse.h] *)

Definition NULL_TYPE : Z := 0.
Definition NUMBER_TYPE : Z := 1.
Definition DECIMAL_TYPE : Z := 2.
Definition STRING_TYPE : Z := 3.
Definition ARRAY_TYPE : Z := 4.
Definition PRIMITIVE_TYPE : Z := 5.

Definition FILE_NO_ACCESS : Z := -1.
Definition OUT_OF_MEMORY : Z := -2.
Definition UNEXPECTED_EOF : Z := -3.
Definition UNEXPECTED_TOKEN : Z := -4.
Definition INVALID_CONFIG_KEY : Z := -5.
Definition INVALID_ARRAY_ELEMENT : Z := -6.
Definition INVALID_INTEGER_LITERAL : Z := -7.
Definition INVALID_DECIMAL_LITERAL : Z := -8.

Definition LONG_MAX : Z := 9223372036854775807.
Definition LONG_MIN : Z := -9223372036854775808.

(** ** The stream *)

Record FILE := mkFILE { data : list ascii; pos : nat }.

Definition fopen (contents : list ascii) : FILE := mkFILE contents 0.

(** [fgetc]: the next byte, or [EOF] with the position unchanged. *)
Definition fgetc (file : FILE) : Z * FILE :=
  match nth_error (data file) (pos file) with
  | Some a => (int_of_char a, mkFILE (data file) (S (pos file)))
  | None => (EOF, file)
  end.

(** [pushback(file, n)] is [fseek(file, -(n), SEEK_CUR)]: the position moves
    back by [n] bytes; a seek before the start of the file fails and leaves
    the position where it was.  The macro is also run after [fgetc] returned
    [EOF], where it un-reads the last byte of the file. *)
Definition pushback (file : FILE) (n : nat) : FILE :=
  if (n <=? pos file)%nat then mkFILE (data file) (pos file - n) else file.

(** [fgets(buf, size, file)] reads at most [size - 1] bytes and stops after
    a newline or at end of file. *)
Fixpoint fgets_read (n : nat) (l : list ascii) : list ascii :=
  match n, l with
  | S n', a :: l' =>
      if int_of_char a =? 10 then [a] else a :: fgets_read n' l'
  | _, _ => []
  end.

Definition fgets (size : nat) (file : FILE) : list ascii * FILE :=
  let buf := fgets_read (size - 1) (skipn (pos file) (data file)) in
  (buf, mkFILE (data file) (pos file + length buf)).

(** The C string held by a buffer: its bytes up to the first NUL. *)
Fixpoint cstring (buf : list ascii) : list ascii :=
  match buf with
  | [] => []
  | a :: buf' => if int_of_char a =? 0 then [] else a :: cstring buf'
  end.

(** ** <stdlib.h>: [strtol] with base 0 *)

Definition digit_value (c : Z) : option Z :=
  if isdigit c then Some (c - 48)
  else if isalpha c then Some (tolower c - 97 + 10)
  else None.

Fixpoint strtol_digits (base : Z) (s : list ascii) (acc : Z) : Z * list ascii :=
  match s with
  | [] => (acc, [])
  | a :: s' =>
      match digit_value (int_of_char a) with
      | Some d => if d <? base then strtol_digits base s' (acc * base + d)
                  else (acc, s)
      | None => (acc, s)
      end
  end.

Definition is_base_digit (base : Z) (s : list ascii) : bool :=
  match s with
  | a :: _ => match digit_value (int_of_char a) with
              | Some d => d <? base
              | None => false
              end
  | [] => false
  end.

Fixpoint skip_spaces (s : list ascii) : list ascii :=
  match s with
  | a :: s' => if isspace (int_of_char a) then skip_spaces s' else s
  | [] => []
  end.

(** [strtol(str, &endptr, 0)]: leading white space, an optional sign, then
    [0x]/[0X] and hexadecimal digits, or a leading [0] and octal digits, or
    decimal digits.  The result saturates at [LONG_MAX] / [LONG_MIN].  The
    second component is what [endptr] points to; with no digits at all it is
    [str] itself and the value is 0. *)
Definition strtol (str : list ascii) : Z * list ascii :=
  let s := skip_spaces str in
  let '(neg, s) :=
    match s with
    | a :: s' => if int_of_char a =? 45 then (true, s')
                 else if int_of_char a =? 43 then (false, s')
                 else (false, s)
    | [] => (false, s)
    end in
  let '(found, (acc, rest)) :=
    match s with
    | a :: x :: s' =>
        if (int_of_char a =? 48) && (tolower (int_of_char x) =? 120)
           && is_base_digit 16 s'
        then (true, strtol_digits 16 s' 0)
        else if int_of_char a =? 48 then (true, strtol_digits 8 s 0)
        else (is_base_digit 10 s, strtol_digits 10 s 0)
    | _ =>
        (is_base_digit 10 s, strtol_digits 10 s 0)
    end in
  if found
  then (if neg then Z.max (- acc) LONG_MIN else Z.min acc LONG_MAX, rest)
  else (0, str).

(** ** IEEE 754 binary64 values and [strtod]

    A non-negative [double] is [m * 2^e] with [0 <= m < 2^53] and
    [-1074 <= e <= 971] (zero and subnormals have [e = -1074], normal
    numbers have [2^52 <= m]), or infinity.  Numeric literals of this
    grammar start with a digit, so no negative value and no NaN is ever
    produced. *)

Inductive double : Type :=
  | DFinite (m e : Z)
  | DInf.

Definition round_half_even (n d : Z) : Z :=
  let q := n / d in
  let r := n mod d in
  if (d <? 2 * r) || ((d =? 2 * r) && Z.odd q) then q + 1 else q.

(** The binary64 nearest to [num / den] (ties to even), for [0 <= num] and
    [0 < den]. *)
Definition binary64_of_ratio (num den : Z) : double :=
  if num =? 0 then DFinite 0 (-1074)
  else
    let k := Z.log2 num - Z.log2 den in
    let above :=
      if 0 <=? k then den * 2 ^ k <=? num else den <=? num * 2 ^ (- k) in
    let e0 := if above then k else k - 1 in
    let e := Z.max (e0 - 52) (-1074) in
    let m :=
      if 0 <=? e then round_half_even num (den * 2 ^ e)
      else round_half_even (num * 2 ^ (- e)) den in
    let '(m, e) := if m =? 2 ^ 53 then (2 ^ 52, e + 1) else (m, e) in
    if 971 <? e then DInf else DFinite m e.

Fixpoint scan_digits (base : Z) (s : list ascii) (acc count : Z)
  : Z * Z * list ascii :=
  match s with
  | [] => (acc, count, [])
  | a :: s' =>
      match digit_value (int_of_char a) with
      | Some d => if d <? base then scan_digits base s' (acc * base + d) (count + 1)
                  else (acc, count, s)
      | None => (acc, count, s)
      end
  end.

(** Digits, an optional radix point, more digits. *)
Definition scan_mantissa (base : Z) (s : list ascii) : Z * Z * Z * list ascii :=
  let '(i1, n1, r1) := scan_digits base s 0 0 in
  match r1 with
  | a :: r1' =>
      if int_of_char a =? 46
      then let '(i2, n2, r2) := scan_digits base r1' i1 0 in (i2, n1, n2, r2)
      else (i1, n1, 0, r1)
  | [] => (i1, n1, 0, r1)
  end.

(** [strtod(str, &endptr)] on a text that starts with a decimal digit: a
    hexadecimal mantissa after [0x]/[0X], or a decimal mantissa with an
    optional exponent [e]/[E] and digits.  White space, signs, "inf", "nan"
    and the binary exponent [p] are left out: [ParseGenericNumber] captures
    only digits, the letters a-f, x and one point, and [ParseValue] calls
    it on a digit.  The conversion is correctly rounded and overflows to
    infinity. *)
Definition strtod (str : list ascii) : double * list ascii :=
  let decimal :=
    let '(i, n1, n2, r) := scan_mantissa 10 str in
    if 0 <? n1 + n2 then
      let '(ex, r) :=
        match r with
        | a :: r' =>
            if (tolower (int_of_char a) =? 101) && is_base_digit 10 r'
            then let '(ex, _, r'') := scan_digits 10 r' 0 0 in (ex, r'')
            else (0, r)
        | [] => (0, r)
        end in
      (binary64_of_ratio (i * 10 ^ ex) (10 ^ n2), r)
    else (DFinite 0 (-1074), str) in
  match str with
  | a :: x :: s' =>
      if (int_of_char a =? 48) && (tolower (int_of_char x) =? 120) then
        let '(i, n1, n2, r) := scan_mantissa 16 s' in
        if 0 <? n1 + n2 then (binary64_of_ratio i (16 ^ n2), r) else decimal
      else decimal
  | _ => decimal
  end.

(** ** <stdio.h>: the conversions [%ld] and [%lf] *)

Definition digit_char (d : Z) : ascii := ascii_of_N (Z.to_N (48 + d)).

Fixpoint print_digits (fuel : nat) (n : Z) (acc : list ascii) : list ascii :=
  match fuel with
  | O => acc
  | S fuel' =>
      let acc' := digit_char (n mod 10) :: acc in
      if n <? 10 then acc' else print_digits fuel' (n / 10) acc'
  end.

(** Decimal digits of [n >= 0], no leading zero. *)
Definition print_unsigned (n : Z) : list ascii :=
  print_digits (S (Z.to_nat (Z.log2 n))) n [].

(** [%ld] *)
Definition print_ld (n : Z) : list ascii :=
  if n <? 0 then "-"%char :: print_unsigned (- n) else print_unsigned n.

(** The last [k] decimal digits of [n], zero padded. *)
Fixpoint print_fixed (k : nat) (n : Z) (acc : list ascii) : list ascii :=
  match k with
  | O => acc
  | S k' => print_fixed k' (n / 10) (digit_char (n mod 10) :: acc)
  end.

(** [%lf]: fixed notation, six digits after the point, the exact binary
    value rounded to nearest (ties to even). *)
Definition print_lf (d : double) : list ascii :=
  match d with
  | DInf => bytes "inf"
  | DFinite m e =>
      let scaled :=
        if 0 <=? e then m * 2 ^ e * 10 ^ 6
        else round_half_even (m * 10 ^ 6) (2 ^ (- e)) in
      print_unsigned (scaled / 10 ^ 6) ++ "."%char :: print_fixed 6 (scaled mod 10 ^ 6) []
  end.

(** ** The data model of [cfg_parse.h] *)

(** [PrimitiveValue]: the union and its [Type] tag. *)
Inductive PrimitiveValue : Type :=
  | Number (n : Z)
  | Decimal (d : double)
  | String (s : list ascii).

Definition PrimitiveType (pv : PrimitiveValue) : Z :=
  match pv with
  | Number _ => NUMBER_TYPE
  | Decimal _ => DECIMAL_TYPE
  | String _ => STRING_TYPE
  end.

(** [Vector]: [Data] is an array of [Value*]; [ParseVector] fills each of
    them through [ParseValue], which sets the [Primitive] member only, so an
    element is kept as its primitive. *)
Record Vector := mkVector { Length : nat; Data : list PrimitiveValue }.

(** [Value]: the struct has the two members [Primitive] and [Array], of
    which the parser sets exactly one. *)
Inductive Value : Type :=
  | Primitive (pv : PrimitiveValue)
  | Array (vec : Vector).

(** [ConfigEntry] without its [Next] link: the chain is the list of
    [Config]. *)
Record ConfigEntry := mkConfigEntry
  { Key : list ascii; Value_ : Value; Type_ : Z }.

(** [Config]: [List_] holds the filled entries of the chain in order (the
    trailing [NULL_TYPE] sentinel node is left out), [Entries] the counter
    the C code keeps next to it. *)
Record Config := mkConfig { Entries : nat; List_ : list ConfigEntry }.

(** A C function that returns a negative status on failure and 1 on
    success with a filled out-parameter. *)
Inductive result (A : Type) : Type :=
  | Ok (a : A)
  | Err (status : Z).
Arguments Ok {A} a.
Arguments Err {A} status.

Definition status_of {A} (r : result A) : Z :=
  match r with Ok _ => 1 | Err s => s end.

Definition map_result {A B} (f : A -> B) (r : result A) : result B :=
  match r with Ok a => Ok (f a) | Err s => Err s end.

(** Running out of fuel propagates. *)
Notation "'let*' p ':=' e 'in' k" :=
  (match e with Some p => k | None => None end)
  (at level 10, p pattern, e at level 200, k at level 200, only parsing).

(** ** The parser of [cfg_parse.c] *)

Fixpoint ParseComment (fuel : nat) (file : FILE) : option FILE :=
  match fuel with
  | O => None
  | S fuel' =>
      let (c, file) := fgetc file in
      if (c =? 10) || (c =? EOF) then Some file
      else ParseComment fuel' file
  end.

Definition IsSpecialSymbol (c : Z) : bool :=
  (c =? 36) || (c =? 46) || (c =? 95).

Definition expect (file : FILE) (c : Z) : Z * FILE :=
  let (ch, file) := fgetc file in
  if negb (c =? ch) then (-1, file) else (1, file).

Definition consumeLetter (file : FILE) : Z * FILE :=
  let (c, file) := fgetc file in
  if negb (isalpha c) then (-1, file) else (1, file).

Fixpoint consumeSpace (fuel : nat) (file : FILE) : option FILE :=
  match fuel with
  | O => None
  | S fuel' =>
      let (c, file) := fgetc file in
      if negb (isspace c) then Some (pushback file 1)
      else consumeSpace fuel' file
  end.

Fixpoint ParseString_loop (fuel : nat) (file : FILE) (len : nat)
  : option (FILE * nat) :=
  match fuel with
  | O => None
  | S fuel' =>
      let (c, file) := fgetc file in
      if negb (isalnum c) && negb (IsSpecialSymbol c)
      then Some (pushback file 1, len)
      else ParseString_loop fuel' file (S len)
  end.

(** The result is the [char*]: [None] is [NULL]. *)
Definition ParseString (fuel : nat) (file : FILE)
  : option (FILE * option (list ascii)) :=
  let (r, file) := consumeLetter file in
  if r <? 0 then Some (file, None)
  else
    let* (file, len) := ParseString_loop fuel file 1 in
    let file := pushback file len in
    let (string, file) := fgets (len + 1) file in
    Some (file, Some (cstring string)).

Fixpoint ParseQuotedString_loop (fuel : nat) (file : FILE) (len : nat)
  : option (FILE * result nat) :=
  match fuel with
  | O => None
  | S fuel' =>
      let (ch, file) := fgetc file in
      if ch =? EOF then Some (file, Err UNEXPECTED_EOF)
      else if ch =? 39 then Some (file, Ok len)
      else ParseQuotedString_loop fuel' file (S len)
  end.

(** The out-parameter is [value->String]. *)
Definition ParseQuotedString (fuel : nat) (file : FILE)
  : option (FILE * result (list ascii)) :=
  let* (file, r) := ParseQuotedString_loop fuel file 0 in
  match r with
  | Err status => Some (file, Err status)
  | Ok len =>
      let file := pushback file (len + 1) in
      let (string, file) := fgets (len + 1) file in
      let (_, file) := fgetc file in
      Some (file, Ok (cstring string))
  end.

Definition IsHexDigit (c : Z) : bool :=
  let l := tolower c in (97 <=? l) && (l <=? 102).

(** The loop leaves with the length and [is_float], or returns
    [UNEXPECTED_TOKEN] at end of file. *)
Fixpoint ParseGenericNumber_loop (fuel : nat) (file : FILE) (len : nat)
  (first_dot is_float : bool) : option (FILE * result (nat * bool)) :=
  match fuel with
  | O => None
  | S fuel' =>
      let (ch, file) := fgetc file in
      if ch =? EOF then Some (file, Err UNEXPECTED_TOKEN)
      else if isdigit ch || IsHexDigit ch || (ch =? 120) || (ch =? 88)
      then ParseGenericNumber_loop fuel' file (S len) first_dot is_float
      else if (ch =? 46) && first_dot
      then ParseGenericNumber_loop fuel' file (S len) false true
      else Some (pushback file 1, Ok (len, is_float))
  end.

Definition is_nil {A} (l : list A) : bool :=
  match l with [] => true | _ => false end.

Definition ParseGenericNumber (fuel : nat) (file : FILE)
  : option (FILE * result PrimitiveValue) :=
  let* (file, r) := ParseGenericNumber_loop fuel file 0 true false in
  match r with
  | Err status => Some (file, Err status)
  | Ok (len, is_float) =>
      let file := pushback file len in
      let (buf, file) := fgets (len + 1) file in
      let str := cstring buf in
      if is_float then
        let (d, endptr) := strtod str in
        if negb (is_nil endptr) then Some (file, Err INVALID_DECIMAL_LITERAL)
        else Some (file, Ok (Decimal d))
      else
        let (n, endptr) := strtol str in
        if negb (is_nil endptr) then Some (file, Err INVALID_INTEGER_LITERAL)
        else Some (file, Ok (Number n))
  end.

Definition ParseValue (fuel : nat) (file : FILE)
  : option (FILE * result PrimitiveValue) :=
  let (ch, file) := fgetc file in
  if ch =? EOF then Some (file, Err UNEXPECTED_EOF)
  else if ch =? 39 then
    let* (file, r) := ParseQuotedString fuel file in
    Some (file, map_result String r)
  else if isdigit ch then
    ParseGenericNumber fuel (pushback file 1)
  else Some (file, Err UNEXPECTED_TOKEN).

Fixpoint ParseVector_loop (fuel : nat) (file : FILE) (vec : Vector)
  (more : bool) : option (FILE * result Vector) :=
  match fuel with
  | O => None
  | S fuel' =>
      let* file := consumeSpace fuel' file in
      let (ch, file) := fgetc file in
      if ch =? EOF then Some (file, Err UNEXPECTED_EOF)
      else if ch =? 93 then Some (file, Ok vec)
      else if ch =? 44 then ParseVector_loop fuel' file vec true
      else if negb more then Some (file, Err UNEXPECTED_TOKEN)
      else
        let vec := mkVector (S (Length vec)) (Data vec) in
        let file := pushback file 1 in
        let* (file, r) := ParseValue fuel' file in
        match r with
        | Err _ => Some (file, Err INVALID_ARRAY_ELEMENT)
        | Ok pv =>
            ParseVector_loop fuel' file
              (mkVector (Length vec) (Data vec ++ [pv])) false
        end
  end.

Definition ParseVector (fuel : nat) (file : FILE)
  : option (FILE * result Vector) :=
  ParseVector_loop fuel file (mkVector 0 []) true.

Definition ParseConfigLine (fuel : nat) (file : FILE)
  : option (FILE * result ConfigEntry) :=
  let* (file, key) := ParseString fuel file in
  match key with
  | None => Some (file, Err INVALID_CONFIG_KEY)
  | Some key =>
      let* file := consumeSpace fuel file in
      let (r, file) := expect file 61 in
      if r <? 0 then Some (file, Err UNEXPECTED_TOKEN)
      else
        let* file := consumeSpace fuel file in
        let (ch, file) := fgetc file in
        if ch =? EOF then Some (file, Err UNEXPECTED_EOF)
        else
          let* (file, status) :=
            if ch =? 91 then
              let* (file, r) := ParseVector fuel file in
              Some (file,
                    map_result (fun vec => mkConfigEntry key (Array vec) ARRAY_TYPE) r)
            else
              let* (file, r) := ParseValue fuel (pushback file 1) in
              Some (file,
                    map_result
                      (fun pv => mkConfigEntry key (Primitive pv) PRIMITIVE_TYPE) r)
          in
          let* file := consumeSpace fuel file in
          let (r, file) := expect file 59 in
          if r <? 0 then Some (file, Err UNEXPECTED_TOKEN)
          else Some (file, status)
  end.

(** [Ok (Some e)]: a config line was parsed into the entry and its [Next]
    node was allocated; [Ok None]: a blank line or a comment. *)
Fixpoint ParseCfg (fuel : nat) (file : FILE)
  : option (FILE * result (option ConfigEntry)) :=
  match fuel with
  | O => None
  | S fuel' =>
      let (c, file) := fgetc file in
      if c =? EOF then Some (file, Err UNEXPECTED_EOF)
      else if c =? 10 then Some (file, Ok None)
      else if isspace c then ParseCfg fuel' file
      else if c =? 35 then
        let* file := ParseComment fuel' file in Some (file, Ok None)
      else if isalpha c then
        let* (file, status) := ParseConfigLine fuel' (pushback file 1) in
        Some (file, map_result Some status)
      else Some (file, Err UNEXPECTED_TOKEN)
  end.

(** The loop of [ParseConfig].  [Tail->Next] is set exactly when [ParseCfg]
    parsed a config line; the entry is then linked and counted. *)
Fixpoint ParseConfig_loop (fuel : nat) (file : FILE) (config : Config)
  : option (result Config) :=
  match fuel with
  | O => None
  | S fuel' =>
      let (c, file) := fgetc file in
      if c =? EOF then Some (Ok config)
      else if isspace c then ParseConfig_loop fuel' file config
      else
        let* (file, status) := ParseCfg fuel' (pushback file 1) in
        match status with
        | Err s => Some (Err s)
        | Ok None => ParseConfig_loop fuel' file config
        | Ok (Some e) =>
            ParseConfig_loop fuel' file
              (mkConfig (S (Entries config)) (List_ config ++ [e]))
        end
  end.

(** [ParseConfig(name, result)]: [contents] is what [fopen(name, "r")] finds,
    [None] when the file cannot be opened.  Allocation is assumed to
    succeed. *)
Definition ParseConfig (fuel : nat) (contents : option (list ascii))
  : option (result Config) :=
  match contents with
  | None => Some (Err FILE_NO_ACCESS)
  | Some src => ParseConfig_loop fuel (fopen src) (mkConfig 0 [])
  end.

(** ** The serializer *)

Definition PrintPrimitive (pv : PrimitiveValue) : list ascii :=
  match pv with
  | Number n => print_ld n
  | Decimal d => print_lf d
  | String s => "'"%char :: s ++ ["'"%char]
  end.

Fixpoint PrintVector_loop (data : list PrimitiveValue) : list ascii :=
  match data with
  | [] => []
  | [v] => PrintPrimitive v
  | v :: data' => PrintPrimitive v ++ ","%char :: PrintVector_loop data'
  end.

Definition PrintVector (vec : Vector) : list ascii :=
  "["%char :: PrintVector_loop (firstn (Length vec) (Data vec)) ++ ["]"%char].

(** An entry whose [Type_] does not match the member of its value that is
    set makes the C code read an unset pointer; nothing is printed for the
    value then.  Parsed documents never have such an entry. *)
Definition DumpEntry (ce : ConfigEntry) : list ascii :=
  Key ce ++ bytes " = " ++
  (if Type_ ce =? PRIMITIVE_TYPE
   then match Value_ ce with Primitive pv => PrintPrimitive pv | Array _ => [] end
   else match Value_ ce with Array vec => PrintVector vec | Primitive _ => [] end)
  ++ [";"%char; ascii_of_nat 10].

Fixpoint DumpConfig_loop (n : nat) (ce : list ConfigEntry) : list ascii :=
  match n, ce with
  | S n', e :: next => DumpEntry e ++ DumpConfig_loop n' next
  | _, _ => []
  end.

Definition DumpConfig (config : Config) : list ascii :=
  DumpConfig_loop (Entries config) (List_ config).

(** ** The accessors *)

Definition strcmp_eq (a b : list ascii) : bool :=
  if list_eq_dec ascii_dec a b then true else false.

(** [None] is the [NULL] result. *)
Fixpoint FindValue_loop (n : nat) (ce : list ConfigEntry) (ty : Z)
  (key : list ascii) : option Value :=
  match n, ce with
  | S n', e :: next =>
      if strcmp_eq (Key e) key && (Type_ e =? ty) then Some (Value_ e)
      else FindValue_loop n' next ty key
  | _, _ => None
  end.

Definition FindValue (config : Config) (ty : Z) (key : list ascii)
  : option Value :=
  FindValue_loop (Entries config) (List_ config) ty key.

Definition GetElement (v : Vector) (idx : nat) : option PrimitiveValue :=
  if (Length v <=? idx)%nat then None else nth_error (Data v) idx.

Definition ErrToString (status : Z) : string :=
  if status =? FILE_NO_ACCESS then "Config file inaccessible"
  else if status =? OUT_OF_MEMORY then "Out of memory"
  else if status =? UNEXPECTED_EOF then "Unexpected End Of File while parsing"
  else if status =? UNEXPECTED_TOKEN then "Unexpected token while parsing"
  else if status =? INVALID_CONFIG_KEY then "Configuration key must be a string"
  else if status =? INVALID_ARRAY_ELEMENT
       then "Array elements must follow this syntax: [ele1 , ele2, ...]"
  else if status =? INVALID_INTEGER_LITERAL then "Invalid integer literal"
  else if status =? INVALID_DECIMAL_LITERAL then "Invalid floating point literal"
  else "Unknown error.".

Definition LF : ascii := ascii_of_nat 10.

(** ** Character classes of the grammar *)

Definition space_char (a : ascii) : bool := isspace (int_of_char a).

Definition key_char (a : ascii) : bool :=
  isalnum (int_of_char a) || IsSpecialSymbol (int_of_char a).

Definition number_char (a : ascii) : bool :=
  let c := int_of_char a in
  isdigit c || IsHexDigit c || (c =? 120) || (c =? 88).

Definition is_char (c : Z) (a : ascii) : bool := int_of_char a =? c.

(** A config key: a letter, then letters, digits, [$], [.] and [_]. *)
Definition is_key (k : list ascii) : bool :=
  match k with
  | [] => false
  | a :: k' => isalpha (int_of_char a) && forallb key_char k'
  end.

(** A byte that ends a value: [,], [;] or the bracket that closes an
    array. *)
Definition delimiter (c : ascii) : bool :=
  is_char 44 c || is_char 59 c || is_char 93 c.


(** ** Integer literals and their values *)

Definition digit_of (a : ascii) : Z :=
  match digit_value (int_of_char a) with Some d => d | None => 0 end.

(** The positional value of a digit string. *)
Definition value_in_base (base : Z) (ds : list ascii) : Z :=
  fold_left (fun acc a => acc * base + digit_of a) ds 0.

Definition base_digit (base : Z) (a : ascii) : bool :=
  match digit_value (int_of_char a) with
  | Some d => d <? base
  | None => false
  end.

(** The literals [strtol] reads completely with base 0, next to the integer
    they denote: decimal without a leading zero, [0x]/[0X] and at least one
    hexadecimal digit, or [0] and octal digits. *)
Inductive int_literal : list ascii -> Z -> Prop :=
  | lit_decimal a ds :
      isdigit (int_of_char a) = true -> is_char 48 a = false ->
      forallb (base_digit 10) ds = true ->
      int_literal (a :: ds) (value_in_base 10 (a :: ds))
  | lit_hex z x h hs :
      is_char 48 z = true -> tolower (int_of_char x) = 120 ->
      forallb (base_digit 16) (h :: hs) = true ->
      int_literal (z :: x :: h :: hs) (value_in_base 16 (h :: hs))
  | lit_octal z os :
      is_char 48 z = true ->
      forallb (base_digit 8) os = true ->
      int_literal (z :: os) (value_in_base 8 os).

(** ** Runs of the program

    [ParseConfig] on [src] returns [r]: some budget is enough, and then every
    larger one gives the same result. *)
Definition parses (src : list ascii) (r : result Config) : Prop :=
  exists fuel, ParseConfig fuel (Some src) = Some r.

(** [ParseConfig] on [src] never returns. *)
Definition diverges (src : list ascii) : Prop :=
  forall fuel, ParseConfig fuel (Some src) = None.

(** ** Turns of the document builder *)

(** [turns f es f']: the loop of [ParseConfig], at its top on stream [f],
    comes back to its top on stream [f'] after it has parsed the config
    lines [es], in this order, and skipped white space, blank lines and
    comments around them. *)
Inductive turns : FILE -> list ConfigEntry -> FILE -> Prop :=
  | turns_done f : turns f [] f
  | turns_space f c f1 es f' :
      fgetc f = (c, f1) -> isspace c = true ->
      turns f1 es f' -> turns f es f'
  | turns_blank f c f1 fuel f2 es f' :
      fgetc f = (c, f1) -> (c =? EOF) = false -> isspace c = false ->
      ParseCfg fuel (pushback f1 1) = Some (f2, Ok None) ->
      turns f2 es f' -> turns f es f'
  | turns_entry f c f1 fuel f2 e es f' :
      fgetc f = (c, f1) -> (c =? EOF) = false -> isspace c = false ->
      ParseCfg fuel (pushback f1 1) = Some (f2, Ok (Some e)) ->
      turns f2 es f' -> turns f (e :: es) f'.

(** [leaves f o]: from its top on stream [f] the loop is left, at end of
    input ([None]) or because [ParseCfg] fails with a status ([Some s]). *)
Inductive leaves : FILE -> option Z -> Prop :=
  | leaves_eof f : fst (fgetc f) = EOF -> leaves f None
  | leaves_fail f c f1 fuel f2 s :
      fgetc f = (c, f1) -> (c =? EOF) = false -> isspace c = false ->
      ParseCfg fuel (pushback f1 1) = Some (f2, Err s) ->
      leaves f (Some s).

(** What the caller gets: the document with its count, or the status
    alone. *)
Definition outcome (es : list ConfigEntry) (o : option Z) : result Config :=
  match o with
  | None => Ok (mkConfig (length es) es)
  | Some s => Err s
  end.

Definition extend (config : Config) (es : list ConfigEntry) : Config :=
  mkConfig (Entries config + length es) (List_ config ++ es).

(** ** What [find] is asked for *)

Definition entry_matches (ty : Z) (key : list ascii) (e : ConfigEntry) : Prop :=
  Key e = key /\ Type_ e = ty.

(** Entry number [i] is the first of the counted entries with this key and
    kind. *)
Definition first_match (config : Config) (ty : Z) (key : list ascii)
  (i : nat) (e : ConfigEntry) : Prop :=
  (i < Entries config)%nat
  /\ nth_error (List_ config) i = Some e
  /\ entry_matches ty key e
  /\ forall j e', (j < i)%nat -> nth_error (List_ config) j = Some e' ->
                  ~ entry_matches ty key e'.

Definition no_match (config : Config) (ty : Z) (key : list ascii) : Prop :=
  forall i e, (i < Entries config)%nat -> nth_error (List_ config) i = Some e ->
              ~ entry_matches ty key e.

(** ** Integer statements *)

Definition integer_statement (k ws1 ws2 N ws3 : list ascii) : list ascii :=
  k ++ ws1 ++ "="%char :: ws2 ++ N ++ ws3 ++ [";"%char].

Definition integer_entry (k : list ascii) (n : Z) : ConfigEntry :=
  mkConfigEntry k (Primitive (Number n)) PRIMITIVE_TYPE.

(** ** Documents that survive serialization *)

(** A double that [%lf] prints without loss: reading its six-digit text
    back with [strtod] gives the same double. *)
Definition lf_stable (d : double) : Prop := strtod (print_lf d) = (d, []).

Definition stable_primitive (pv : PrimitiveValue) : Prop :=
  match pv with
  | Decimal d => lf_stable d
  | _ => True
  end.

Definition stable_entry (e : ConfigEntry) : Prop :=
  match Value_ e with
  | Primitive pv => stable_primitive pv
  | Array vec => Forall stable_primitive (Data vec)
  end.

(** Every float of the document is printed without loss. *)
Definition floats_stable (config : Config) : Prop :=
  Forall stable_entry (List_ config).

(** What the parser guarantees about the strings it stores: no quote, no
    NUL, and a newline at most as the last byte. *)
Definition wf_string (s : list ascii) : Prop :=
  forallb (fun a => negb (is_char 39 a)) s = true
  /\ forallb (fun a => negb (is_char 0 a)) s = true
  /\ forallb (fun a => negb (is_char 10 a)) (removelast s) = true.

Definition wf_primitive (pv : PrimitiveValue) : Prop :=
  match pv with
  | Number n => 0 <= n <= LONG_MAX
  | Decimal _ => True
  | String s => wf_string s
  end.

Definition wf_entry (e : ConfigEntry) : Prop :=
  is_key (Key e) = true
  /\ match Value_ e with
     | Primitive pv => Type_ e = PRIMITIVE_TYPE /\ wf_primitive pv
     | Array vec =>
         Type_ e = ARRAY_TYPE /\ Length vec = length (Data vec)
         /\ Forall wf_primitive (Data vec)
     end.

(** ** Sample inputs *)

Definition src_float_two_points : list ascii := bytes "k = 1.2.3;".

Definition entry_k (v : Value) (ty : Z) : ConfigEntry :=
  mkConfigEntry (bytes "k") v ty.

Definition src_two_statements : list ascii := bytes "a = 1; k = 0x2A ;".

Definition src_duplicate_key : list ascii := bytes "k = 1; k = 2;".

Definition src_open_string : list ascii := bytes "k = 'abc".

Definition src_open_number : list ascii := bytes "k = [12".

Definition src_small_float : list ascii := bytes "k = 0.0000001;".

Definition src_open_array : list ascii := bytes "k = [1,".

(** ** Statuses of a failed parse *)

(** The statuses with which the parse of an opened file can fail. *)
Definition parse_failures : list Z :=
  [UNEXPECTED_EOF; UNEXPECTED_TOKEN; INVALID_ARRAY_ELEMENT;
   INVALID_INTEGER_LITERAL; INVALID_DECIMAL_LITERAL].

(** ** Text that the builder skips *)

(** White space and complete comment lines: a [#], bytes other than a
    newline, and the newline. *)
Inductive skipped : list ascii -> Prop :=
  | skipped_nil : skipped []
  | skipped_space a l : space_char a = true -> skipped l -> skipped (a :: l)
  | skipped_comment text l :
      forallb (fun a => negb (is_char 10 a)) text = true ->
      skipped l -> skipped ("#"%char :: text ++ LF :: l).

Definition src_comment_line : list ascii :=
  " "%char :: "#"%char :: bytes "note" ++ [LF].

(** ** Primitive values as the statement parser reads them *)

(** [reads_as V pv]: a text [V] of a primitive value and the value that
    [ParseValue] stores for it: an integer literal, saturated at [LONG_MAX]
    as [strtol] does; digits with one point that [strtod] converts
    completely; a quoted string. *)
Inductive reads_as : list ascii -> PrimitiveValue -> Prop :=
  | reads_integer N n :
      int_literal N n -> reads_as N (Number (Z.min n LONG_MAX))
  | reads_decimal a ip fp x :
      isdigit (int_of_char a) = true ->
      forallb number_char ip = true -> forallb number_char fp = true ->
      strtod ((a :: ip) ++ "."%char :: fp) = (x, []) ->
      reads_as ((a :: ip) ++ "."%char :: fp) (Decimal x)
  | reads_string s :
      wf_string s -> reads_as ("'"%char :: s ++ ["'"%char]) (String s).

(** A byte at which the scan of a number stops. *)
Definition ends_number (c : ascii) : bool :=
  negb (number_char c) && negb (is_char 46 c).

(** What has to follow the text of a value for [ParseValue] to stop at its
    end: nothing is asked after a string, a byte that ends the scan after
    a number. *)
Definition value_stops (pv : PrimitiveValue) (rest : list ascii) : Prop :=
  match pv with
  | String _ => True
  | _ => exists c r, rest = c :: r /\ ends_number c = true
  end.

(** [key = value] without what follows the value. *)
Definition statement_head (k ws1 ws2 V : list ascii) : list ascii :=
  k ++ ws1 ++ "="%char :: ws2 ++ V.

Definition primitive_entry (k : list ascii) (pv : PrimitiveValue) : ConfigEntry :=
  mkConfigEntry k (Primitive pv) PRIMITIVE_TYPE.

Definition src_bad_integer : list ascii := bytes "k = 12ab;".


Definition src_huge_integer : list ascii := bytes "n = 9223372036854775808;".


(** ** What follows white space *)

(** The text from its first byte that is no white space. *)
Fixpoint after_spaces (l : list ascii) : list ascii :=
  match l with
  | a :: l' => if space_char a then after_spaces l' else l
  | [] => []
  end.

(** The first byte of a text satisfies [P]; the empty text does not ask
    for anything. *)
Definition head_is (P : ascii -> bool) (l : list ascii) : bool :=
  match l with
  | a :: _ => P a
  | [] => true
  end.

(** A byte with which no value starts: no digit, no quote, no bracket. *)
Definition starts_no_value (c : ascii) : bool :=
  negb (isdigit (int_of_char c)) && negb (is_char 39 c) && negb (is_char 91 c).

Definition src_no_equals : list ascii := bytes "key 1;".

Definition src_negative : list ascii := bytes "k = -1;".

Definition src_two_line_string : list ascii :=
  bytes "k = 'a" ++ LF :: bytes "b; c = 'x';".

(** ** The text of an array *)





Definition src_open_string_semicolon : list ascii := bytes "k = 'abc;".

(** ** Streams over a file *)

(** The stream [f] reads the file [d] and its position is inside the file
    or at its end. *)
Definition within (d : list ascii) (f : FILE) : Prop :=
  data f = d /\ (pos f <= length d)%nat.

(** ** The program of [test.c] *)

(** [main]: what it writes to standard output and its exit status.
    [argv0] is the program name and [args] are the arguments after it, so
    [argc] is [1 + length args]; [fs] gives the contents of the file with
    a name, [None] when [fopen] fails.  [ParseConfig] returns 1 or a
    negative status, so the document is printed exactly for [Ok].
    [FreeConfig] releases the document and writes nothing. *)
Definition main (fuel : nat) (fs : list ascii -> option (list ascii))
  (argv0 : list ascii) (args : list (list ascii)) : option (list ascii * Z) :=
  match args with
  | [name] =>
      let* r := ParseConfig fuel (fs name) in
      let status := status_of r in
      if status <? 0 then Some (bytes (ErrToString status), 1)
      else Some (match r with Ok config => DumpConfig config | Err _ => [] end, 0)
  | _ => Some (bytes "Usage: " ++ argv0 ++ bytes " [CONFIGURATION_FILE]" ++ [LF], 1)
  end.

(** The messages that [main] prints for a file that it cannot parse. *)
Definition failure_messages : list string :=
  map ErrToString (FILE_NO_ACCESS :: parse_failures).

(** A file system that holds one file. *)
Definition one_file (name contents : list ascii) (n : list ascii)
  : option (list ascii) :=
  if strcmp_eq n name then Some contents else None.

(** ** Numbers that the conversion does not read completely *)

(** [number_failure N s]: the bytes [N] are what the scan of a number
    captures, an integer (no point) or a decimal (one point), and [strtol]
    resp. [strtod] stops before their end; [s] is the status of
    [ParseGenericNumber] then. *)
Inductive number_failure : list ascii -> Z -> Prop :=
  | bad_integer a t :
      isdigit (int_of_char a) = true -> forallb number_char t = true ->
      snd (strtol (a :: t)) <> [] ->
      number_failure (a :: t) INVALID_INTEGER_LITERAL
  | bad_decimal a ip fp :
      isdigit (int_of_char a) = true ->
      forallb number_char ip = true -> forallb number_char fp = true ->
      snd (strtod ((a :: ip) ++ "."%char :: fp)) <> [] ->
      number_failure ((a :: ip) ++ "."%char :: fp) INVALID_DECIMAL_LITERAL.

Definition src_leading_zero : list ascii := bytes "k = 09;".




(** * Properties *)

Arguments fgetc : simpl never.
Arguments pushback : simpl never.
Arguments fgets : simpl never.
Arguments strtol : simpl never.
Arguments strtod : simpl never.

Ltac splits := repeat match goal with |- _ /\ _ => split end.

(** ** Fuel: a larger budget never changes a result *)

Lemma ParseComment_mono fuel fuel' file r :
  (fuel <= fuel')%nat ->
  ParseComment fuel file = Some r -> ParseComment fuel' file = Some r.
Proof.
  revert fuel' file; induction fuel as [|n IH]; intros [|m] file Hle H;
    try discriminate; try lia.
  simpl in *. destruct (fgetc file) as [c f1].
  destruct ((c =? 10) || (c =? EOF)); auto. apply IH; [lia | exact H].
Qed.

Lemma consumeSpace_mono fuel fuel' file r :
  (fuel <= fuel')%nat ->
  consumeSpace fuel file = Some r -> consumeSpace fuel' file = Some r.
Proof.
  revert fuel' file; induction fuel as [|n IH]; intros [|m] file Hle H;
    try discriminate; try lia.
  simpl in *. destruct (fgetc file) as [c f1].
  destruct (negb (isspace c)); auto. apply IH; [lia | exact H].
Qed.

Lemma ParseString_loop_mono fuel fuel' file len r :
  (fuel <= fuel')%nat ->
  ParseString_loop fuel file len = Some r ->
  ParseString_loop fuel' file len = Some r.
Proof.
  revert fuel' file len; induction fuel as [|n IH]; intros [|m] file len Hle H;
    try discriminate; try lia.
  simpl in *. destruct (fgetc file) as [c f1].
  destruct (negb (isalnum c) && negb (IsSpecialSymbol c)); auto.
  apply IH; [lia | exact H].
Qed.

Lemma ParseString_mono fuel fuel' file r :
  (fuel <= fuel')%nat ->
  ParseString fuel file = Some r -> ParseString fuel' file = Some r.
Proof.
  intros Hle. unfold ParseString.
  destruct (consumeLetter file) as [c f1]. destruct (c <? 0); auto.
  destruct (ParseString_loop fuel f1 1) as [[f2 len]|] eqn:E; [|discriminate].
  rewrite (ParseString_loop_mono _ _ _ _ _ Hle E). auto.
Qed.

Lemma ParseQuotedString_loop_mono fuel fuel' file len r :
  (fuel <= fuel')%nat ->
  ParseQuotedString_loop fuel file len = Some r ->
  ParseQuotedString_loop fuel' file len = Some r.
Proof.
  revert fuel' file len; induction fuel as [|n IH]; intros [|m] file len Hle H;
    try discriminate; try lia.
  simpl in *. destruct (fgetc file) as [c f1].
  destruct (c =? EOF); auto. destruct (c =? 39); auto.
  apply IH; [lia | exact H].
Qed.

Lemma ParseQuotedString_mono fuel fuel' file r :
  (fuel <= fuel')%nat ->
  ParseQuotedString fuel file = Some r -> ParseQuotedString fuel' file = Some r.
Proof.
  intros Hle. unfold ParseQuotedString.
  destruct (ParseQuotedString_loop fuel file 0) as [[f2 q]|] eqn:E; [|discriminate].
  rewrite (ParseQuotedString_loop_mono _ _ _ _ _ Hle E). auto.
Qed.

Lemma ParseGenericNumber_loop_mono fuel fuel' file len fd fl r :
  (fuel <= fuel')%nat ->
  ParseGenericNumber_loop fuel file len fd fl = Some r ->
  ParseGenericNumber_loop fuel' file len fd fl = Some r.
Proof.
  revert fuel' file len fd fl; induction fuel as [|n IH];
    intros [|m] file len fd fl Hle H; try discriminate; try lia.
  simpl in *. destruct (fgetc file) as [c f1].
  destruct (c =? EOF); auto.
  destruct (isdigit c || IsHexDigit c || (c =? 120) || (c =? 88)).
  - apply IH; [lia | exact H].
  - destruct ((c =? 46) && fd); auto. apply IH; [lia | exact H].
Qed.

Lemma ParseGenericNumber_mono fuel fuel' file r :
  (fuel <= fuel')%nat ->
  ParseGenericNumber fuel file = Some r -> ParseGenericNumber fuel' file = Some r.
Proof.
  intros Hle. unfold ParseGenericNumber.
  destruct (ParseGenericNumber_loop fuel file 0 true false) as [[f2 q]|] eqn:E;
    [|discriminate].
  rewrite (ParseGenericNumber_loop_mono _ _ _ _ _ _ _ Hle E). auto.
Qed.

Lemma ParseValue_mono fuel fuel' file r :
  (fuel <= fuel')%nat ->
  ParseValue fuel file = Some r -> ParseValue fuel' file = Some r.
Proof.
  intros Hle. unfold ParseValue.
  destruct (fgetc file) as [c f1]. destruct (c =? EOF); auto.
  destruct (c =? 39).
  - destruct (ParseQuotedString fuel f1) as [[f2 q]|] eqn:E; [|discriminate].
    rewrite (ParseQuotedString_mono _ _ _ _ Hle E). auto.
  - destruct (isdigit c); auto. apply ParseGenericNumber_mono; exact Hle.
Qed.

Lemma ParseVector_loop_mono fuel fuel' file vec more r :
  (fuel <= fuel')%nat ->
  ParseVector_loop fuel file vec more = Some r ->
  ParseVector_loop fuel' file vec more = Some r.
Proof.
  revert fuel' file vec more; induction fuel as [|n IH];
    intros [|m] file vec more Hle H; try discriminate; try lia.
  assert (Hnm : (n <= m)%nat) by lia.
  simpl in *.
  destruct (consumeSpace n file) as [f1|] eqn:E1; [|discriminate].
  rewrite (consumeSpace_mono _ _ _ _ Hnm E1).
  destruct (fgetc f1) as [c f2].
  destruct (c =? EOF); auto. destruct (c =? 93); auto.
  destruct (c =? 44); [apply IH; [lia | exact H] |].
  destruct (negb more); auto.
  destruct (ParseValue n (pushback f2 1)) as [[f3 q]|] eqn:E2; [|discriminate].
  rewrite (ParseValue_mono _ _ _ _ Hnm E2).
  destruct q; auto.
Qed.

Lemma ParseVector_mono fuel fuel' file r :
  (fuel <= fuel')%nat ->
  ParseVector fuel file = Some r -> ParseVector fuel' file = Some r.
Proof. apply ParseVector_loop_mono. Qed.

Lemma ParseConfigLine_mono fuel fuel' file r :
  (fuel <= fuel')%nat ->
  ParseConfigLine fuel file = Some r -> ParseConfigLine fuel' file = Some r.
Proof.
  intros Hle. unfold ParseConfigLine.
  destruct (ParseString fuel file) as [[f1 key]|] eqn:E1; [|discriminate].
  rewrite (ParseString_mono _ _ _ _ Hle E1).
  destruct key as [key|]; auto.
  destruct (consumeSpace fuel f1) as [f2|] eqn:E2; [|discriminate].
  rewrite (consumeSpace_mono _ _ _ _ Hle E2).
  destruct (expect f2 61) as [r1 f3]. destruct (r1 <? 0); auto.
  destruct (consumeSpace fuel f3) as [f4|] eqn:E3; [|discriminate].
  rewrite (consumeSpace_mono _ _ _ _ Hle E3).
  destruct (fgetc f4) as [ch f5]. destruct (ch =? EOF); auto.
  destruct (ch =? 91).
  - destruct (ParseVector fuel f5) as [[f6 q]|] eqn:E4; [|discriminate].
    rewrite (ParseVector_mono _ _ _ _ Hle E4).
    destruct (consumeSpace fuel f6) as [f7|] eqn:E5; [|discriminate].
    rewrite (consumeSpace_mono _ _ _ _ Hle E5). auto.
  - destruct (ParseValue fuel (pushback f5 1)) as [[f6 q]|] eqn:E4; [|discriminate].
    rewrite (ParseValue_mono _ _ _ _ Hle E4).
    destruct (consumeSpace fuel f6) as [f7|] eqn:E5; [|discriminate].
    rewrite (consumeSpace_mono _ _ _ _ Hle E5). auto.
Qed.

Lemma ParseCfg_mono fuel fuel' file r :
  (fuel <= fuel')%nat ->
  ParseCfg fuel file = Some r -> ParseCfg fuel' file = Some r.
Proof.
  revert fuel' file; induction fuel as [|n IH]; intros [|m] file Hle H;
    try discriminate; try lia.
  assert (Hnm : (n <= m)%nat) by lia.
  simpl in *. destruct (fgetc file) as [c f1].
  destruct (c =? EOF); auto. destruct (c =? 10); auto.
  destruct (isspace c); [apply IH; [lia | exact H] |].
  destruct (c =? 35).
  - destruct (ParseComment n f1) as [f2|] eqn:E; [|discriminate].
    rewrite (ParseComment_mono _ _ _ _ Hnm E). auto.
  - destruct (isalpha c); auto.
    destruct (ParseConfigLine n (pushback f1 1)) as [[f2 q]|] eqn:E; [|discriminate].
    rewrite (ParseConfigLine_mono _ _ _ _ Hnm E). auto.
Qed.

Lemma ParseConfig_loop_mono fuel fuel' file config r :
  (fuel <= fuel')%nat ->
  ParseConfig_loop fuel file config = Some r ->
  ParseConfig_loop fuel' file config = Some r.
Proof.
  revert fuel' file config; induction fuel as [|n IH];
    intros [|m] file config Hle H; try discriminate; try lia.
  assert (Hnm : (n <= m)%nat) by lia.
  simpl in *. destruct (fgetc file) as [c f1].
  destruct (c =? EOF); auto.
  destruct (isspace c); [apply IH; [lia | exact H] |].
  destruct (ParseCfg n (pushback f1 1)) as [[f2 q]|] eqn:E; [|discriminate].
  rewrite (ParseCfg_mono _ _ _ _ Hnm E).
  destruct q as [[e|]|]; auto; apply IH; auto; lia.
Qed.

Lemma ParseConfig_mono fuel fuel' contents r :
  (fuel <= fuel')%nat ->
  ParseConfig fuel contents = Some r -> ParseConfig fuel' contents = Some r.
Proof.
  destruct contents; simpl; auto. apply ParseConfig_loop_mono.
Qed.

Lemma parses_functional src r1 r2 : parses src r1 -> parses src r2 -> r1 = r2.
Proof.
  intros [n1 H1] [n2 H2].
  apply (ParseConfig_mono _ (Nat.max n1 n2)) in H1; [|lia].
  apply (ParseConfig_mono _ (Nat.max n1 n2)) in H2; [|lia].
  congruence.
Qed.

Lemma parses_fuel src r :
  parses src r ->
  exists fuel0, forall fuel, (fuel0 <= fuel)%nat -> ParseConfig fuel (Some src) = Some r.
Proof.
  intros [n H]. exists n. intros fuel Hle. eapply ParseConfig_mono; eauto.
Qed.

(** ** Concrete runs *)

(** C3: [k = [];] parses to an array of length 0, and [k = [1,2,];] parses
    to the same document as [k = [1,2];], an array of length 2. *)
Theorem C3_empty_array_and_trailing_comma :
  parses (bytes "k = [];")
    (Ok (mkConfig 1 [entry_k (Array (mkVector 0 [])) ARRAY_TYPE]))
  /\ parses (bytes "k = [1,2,];")
       (Ok (mkConfig 1 [entry_k (Array (mkVector 2 [Number 1; Number 2])) ARRAY_TYPE]))
  /\ parses (bytes "k = [1,2];")
       (Ok (mkConfig 1 [entry_k (Array (mkVector 2 [Number 1; Number 2])) ARRAY_TYPE])).
Proof.
  repeat match goal with |- _ /\ _ => split end;
    exists 20%nat; vm_compute; reflexivity.
Qed.

(** ** The stream: reading at a position *)

Lemma int_of_char_range a : 0 <= int_of_char a < 256.
Proof.
  unfold int_of_char. destruct a as [[] [] [] [] [] [] [] []]; vm_compute; split; congruence.
Qed.

Lemma int_of_char_not_EOF a : (int_of_char a =? EOF) = false.
Proof. pose proof (int_of_char_range a). unfold EOF. lia. Qed.

Lemma skipn_app_length {A} (d : list A) p l1 l2 :
  skipn p d = l1 ++ l2 -> skipn (p + length l1) d = l2.
Proof.
  intros H. rewrite Nat.add_comm, <- skipn_skipn, H.
  rewrite skipn_app, skipn_all, Nat.sub_diag. reflexivity.
Qed.

Lemma skipn_cons_S {A} (d : list A) p a r :
  skipn p d = a :: r -> skipn (S p) d = r.
Proof.
  intros H. change (S p) with (1 + p)%nat. rewrite <- skipn_skipn, H. reflexivity.
Qed.

Lemma fgetc_cons d p a r :
  skipn p d = a :: r -> fgetc (mkFILE d p) = (int_of_char a, mkFILE d (S p)).
Proof.
  intros H. unfold fgetc. simpl. rewrite <- hd_error_skipn, H. reflexivity.
Qed.

Lemma fgetc_nil d p :
  skipn p d = [] -> fgetc (mkFILE d p) = (EOF, mkFILE d p).
Proof.
  intros H. unfold fgetc. simpl. rewrite <- hd_error_skipn, H. reflexivity.
Qed.

Lemma pushback_S d p : pushback (mkFILE d (S p)) 1 = mkFILE d p.
Proof. unfold pushback. simpl. rewrite Nat.sub_0_r. reflexivity. Qed.

Lemma pushback_add d p n : pushback (mkFILE d (p + n)) n = mkFILE d p.
Proof.
  unfold pushback. simpl.
  replace (n <=? p + n)%nat with true by (symmetry; apply Nat.leb_le; lia).
  f_equal. lia.
Qed.

Lemma forallb_cons_inv {A} (f : A -> bool) a l :
  forallb f (a :: l) = true -> f a = true /\ forallb f l = true.
Proof. simpl. intros H. apply andb_true_iff in H. exact H. Qed.

(** [fgets] copies a token that holds no newline before its last byte. *)
Lemma fgets_read_app tok rest :
  forallb (fun a => negb (is_char 10 a)) (removelast tok) = true ->
  fgets_read (length tok) (tok ++ rest) = tok.
Proof.
  induction tok as [|a tok IH]; intros H; [reflexivity|].
  destruct tok as [|b tok].
  - simpl. destruct (int_of_char a =? 10); reflexivity.
  - change (removelast (a :: b :: tok)) with (a :: removelast (b :: tok)) in H.
    apply forallb_cons_inv in H. destruct H as [Ha H].
    unfold is_char in Ha. apply negb_true_iff in Ha.
    change (fgets_read (length (a :: b :: tok)) ((a :: b :: tok) ++ rest))
      with (if int_of_char a =? 10 then [a]
            else a :: fgets_read (length (b :: tok)) ((b :: tok) ++ rest)).
    rewrite Ha. f_equal. apply IH. exact H.
Qed.

Lemma fgets_token d p tok rest :
  skipn p d = tok ++ rest ->
  forallb (fun a => negb (is_char 10 a)) (removelast tok) = true ->
  fgets (length tok + 1) (mkFILE d p) = (tok, mkFILE d (p + length tok)).
Proof.
  intros H Hnl. unfold fgets. simpl.
  replace (length tok + 1 - 1)%nat with (length tok) by lia.
  rewrite H, fgets_read_app by exact Hnl. reflexivity.
Qed.

Lemma forallb_removelast {A} (f : A -> bool) l :
  forallb f l = true -> forallb f (removelast l) = true.
Proof.
  induction l as [|a l IH]; [reflexivity|].
  intros H. apply forallb_cons_inv in H. destruct H as [Ha H].
  destruct l as [|b l]; [reflexivity|].
  change (removelast (a :: b :: l)) with (a :: removelast (b :: l)).
  simpl forallb at 1. rewrite Ha. apply IH. exact H.
Qed.

Lemma cstring_no_nul s :
  forallb (fun a => negb (is_char 0 a)) s = true -> cstring s = s.
Proof.
  induction s as [|a s IH]; [reflexivity|].
  intros H. apply forallb_cons_inv in H. destruct H as [Ha H].
  unfold is_char in Ha. apply negb_true_iff in Ha.
  simpl. rewrite Ha. f_equal. apply IH. exact H.
Qed.

Lemma forallb_impl {A} (f g : A -> bool) l :
  (forall a, f a = true -> g a = true) ->
  forallb f l = true -> forallb g l = true.
Proof.
  intros Hfg. induction l as [|a l IH]; [reflexivity|].
  intros H. apply forallb_cons_inv in H. destruct H as [Ha H].
  simpl. rewrite (Hfg _ Ha). apply IH. exact H.
Qed.

(** ** Forward runs of the scanning loops *)

Lemma consumeSpace_run d ws : forall p rest fuel,
  skipn p d = ws ++ rest ->
  forallb space_char ws = true ->
  (exists c r, rest = c :: r /\ space_char c = false) ->
  (length ws < fuel)%nat ->
  consumeSpace fuel (mkFILE d p) = Some (mkFILE d (p + length ws)).
Proof.
  induction ws as [|a ws IH]; intros p rest fuel H Hws (c & r & -> & Hc) Hfuel.
  - destruct fuel as [|fuel]; [simpl in Hfuel; lia|].
    simpl in H. simpl. rewrite (fgetc_cons _ _ _ _ H).
    unfold space_char in Hc. rewrite Hc. simpl.
    rewrite pushback_S, Nat.add_0_r. reflexivity.
  - destruct fuel as [|fuel]; [simpl in Hfuel; lia|].
    apply forallb_cons_inv in Hws. destruct Hws as [Ha Hws].
    simpl in H. cbn [consumeSpace]. rewrite (fgetc_cons _ _ _ _ H).
    unfold space_char in Ha. rewrite Ha. simpl negb. cbv iota.
    rewrite (IH (S p) (c :: r) fuel).
    + f_equal. f_equal. simpl. lia.
    + eapply skipn_cons_S. exact H.
    + exact Hws.
    + eauto.
    + simpl in Hfuel. lia.
Qed.

Lemma consumeSpace_stay d p a r fuel :
  skipn p d = a :: r -> space_char a = false -> (0 < fuel)%nat ->
  consumeSpace fuel (mkFILE d p) = Some (mkFILE d p).
Proof.
  intros H Ha Hfuel.
  rewrite (consumeSpace_run d [] p (a :: r) fuel H eq_refl); [|eauto|exact Hfuel].
  simpl. rewrite Nat.add_0_r. reflexivity.
Qed.

Lemma key_char_not_newline a : key_char a = true -> negb (is_char 10 a) = true.
Proof.
  unfold key_char, is_char, isalnum, isalpha, isupper, islower, isdigit, IsSpecialSymbol.
  intros H. destruct (int_of_char a =? 10) eqn:E; [|reflexivity].
  apply Z.eqb_eq in E. rewrite E in H. discriminate.
Qed.

Lemma key_char_not_nul a : key_char a = true -> negb (is_char 0 a) = true.
Proof.
  unfold key_char, is_char, isalnum, isalpha, isupper, islower, isdigit, IsSpecialSymbol.
  intros H. destruct (int_of_char a =? 0) eqn:E; [|reflexivity].
  apply Z.eqb_eq in E. rewrite E in H. discriminate.
Qed.

Lemma isalpha_key_char a : isalpha (int_of_char a) = true -> key_char a = true.
Proof. unfold key_char, isalnum. intros ->. reflexivity. Qed.

Lemma space_not_key_char a : space_char a = true -> key_char a = false.
Proof.
  unfold space_char, key_char, isspace, isalnum, isalpha, isupper, islower,
    isdigit, IsSpecialSymbol. lia.
Qed.

Lemma head_of_ws_app (P : ascii -> bool) ws x rest :
  forallb space_char ws = true ->
  (forall a, space_char a = true -> P a = false) ->
  P x = false ->
  exists c r, ws ++ x :: rest = c :: r /\ P c = false.
Proof.
  intros Hws HP Hx. destruct ws as [|a ws].
  - exists x, rest. auto.
  - apply forallb_cons_inv in Hws. destruct Hws as [Ha _].
    exists a, (ws ++ x :: rest). auto.
Qed.

Lemma ParseString_loop_run d k : forall p rest fuel len,
  skipn p d = k ++ rest ->
  forallb key_char k = true ->
  (exists c r, rest = c :: r /\ key_char c = false) ->
  (length k < fuel)%nat ->
  ParseString_loop fuel (mkFILE d p) len
  = Some (mkFILE d (p + length k), (len + length k)%nat).
Proof.
  induction k as [|a k IH]; intros p rest fuel len H Hk (c & r & -> & Hc) Hfuel;
    (destruct fuel as [|fuel]; [simpl in Hfuel; lia|]).
  - simpl in H. simpl. rewrite (fgetc_cons _ _ _ _ H).
    unfold key_char in Hc. apply orb_false_iff in Hc. destruct Hc as [-> ->].
    simpl. rewrite pushback_S, !Nat.add_0_r. reflexivity.
  - apply forallb_cons_inv in Hk. destruct Hk as [Ha Hk].
    simpl in H. cbn [ParseString_loop]. rewrite (fgetc_cons _ _ _ _ H).
    unfold key_char in Ha. apply orb_true_iff in Ha.
    replace (negb (isalnum (int_of_char a)) && negb (IsSpecialSymbol (int_of_char a)))
      with false by (destruct Ha as [-> | ->]; simpl; rewrite ?andb_false_r; reflexivity).
    rewrite (IH (S p) (c :: r) fuel (S len)).
    + f_equal. f_equal; [f_equal|]; simpl; lia.
    + eapply skipn_cons_S. exact H.
    + exact Hk.
    + eauto.
    + simpl in Hfuel. lia.
Qed.

Lemma is_key_chars k : is_key k = true -> forallb key_char k = true.
Proof.
  destruct k as [|a k]; [discriminate|]. simpl. intros H.
  apply andb_true_iff in H. destruct H as [Ha Hk].
  rewrite (isalpha_key_char _ Ha). exact Hk.
Qed.

Lemma ParseString_run d p k rest fuel :
  skipn p d = k ++ rest ->
  is_key k = true ->
  (exists c r, rest = c :: r /\ key_char c = false) ->
  (length k <= fuel)%nat ->
  ParseString fuel (mkFILE d p) = Some (mkFILE d (p + length k), Some k).
Proof.
  intros H Hkey Hrest Hfuel.
  pose proof (is_key_chars _ Hkey) as Hchars.
  destruct k as [|a k]; [discriminate|].
  simpl in Hkey. apply andb_true_iff in Hkey. destruct Hkey as [Ha Hk].
  unfold ParseString, consumeLetter.
  simpl in H. rewrite (fgetc_cons _ _ _ _ H), Ha. cbn.
  assert (H' : skipn (S p) d = k ++ rest) by (eapply skipn_cons_S; exact H).
  assert (Hf : (length k < fuel)%nat) by (simpl in Hfuel; lia).
  rewrite (ParseString_loop_run d k (S p) rest fuel 1 H' Hk Hrest Hf).
  replace (S p + length k)%nat with (p + (1 + length k))%nat by lia.
  rewrite pushback_add.
  change (1 + length k)%nat with (length (a :: k)).
  rewrite (fgets_token d p (a :: k) rest H).
  - rewrite cstring_no_nul; [reflexivity|].
    eapply forallb_impl; [|exact Hchars]. apply key_char_not_nul.
  - apply forallb_removelast.
    eapply forallb_impl; [|exact Hchars]. apply key_char_not_newline.
Qed.

(** The scan of a numeric literal *)

Lemma ParseGenericNumber_loop_chars d N : forall p rest fuel len fd fl,
  skipn p d = N ++ rest ->
  forallb number_char N = true ->
  ParseGenericNumber_loop (length N + fuel) (mkFILE d p) len fd fl
  = ParseGenericNumber_loop fuel (mkFILE d (p + length N)) (len + length N) fd fl.
Proof.
  induction N as [|a N IH]; intros p rest fuel len fd fl H HN.
  - simpl. rewrite !Nat.add_0_r. reflexivity.
  - apply forallb_cons_inv in HN. destruct HN as [Ha HN].
    simpl in H. simpl length. cbn [Nat.add ParseGenericNumber_loop].
    rewrite (fgetc_cons _ _ _ _ H), int_of_char_not_EOF.
    unfold number_char in Ha. rewrite Ha.
    rewrite (IH (S p) rest fuel (S len) fd fl).
    + f_equal; [f_equal|]; lia.
    + eapply skipn_cons_S. exact H.
    + exact HN.
Qed.

Lemma ParseGenericNumber_loop_point d p a rest fuel len fl :
  skipn p d = a :: rest ->
  is_char 46 a = true ->
  ParseGenericNumber_loop (S fuel) (mkFILE d p) len true fl
  = ParseGenericNumber_loop fuel (mkFILE d (S p)) (S len) false true.
Proof.
  intros H Ha. cbn [ParseGenericNumber_loop].
  rewrite (fgetc_cons _ _ _ _ H), int_of_char_not_EOF.
  unfold is_char in Ha. apply Z.eqb_eq in Ha. rewrite Ha. reflexivity.
Qed.

Lemma ParseGenericNumber_loop_stop d p a rest fuel len fd fl :
  skipn p d = a :: rest ->
  number_char a = false ->
  is_char 46 a && fd = false ->
  ParseGenericNumber_loop (S fuel) (mkFILE d p) len fd fl
  = Some (mkFILE d p, Ok (len, fl)).
Proof.
  intros H Ha Hdot. cbn [ParseGenericNumber_loop].
  rewrite (fgetc_cons _ _ _ _ H), int_of_char_not_EOF.
  unfold number_char in Ha. rewrite Ha.
  unfold is_char in Hdot. rewrite Hdot, pushback_S. reflexivity.
Qed.

(** C2: in [k = 1.2.3;] the scan of the number stops at the second point
    with the three bytes [1.2] captured in decimal mode; [strtod] converts
    them completely to the binary64 nearest to 12/10; the stream is left on
    the second point, which is what the check for [;] reads, and the parse
    returns [UNEXPECTED_TOKEN].  The statement parser gets there step by
    step: [ParseString] reads the key [k], white space and [=] are passed,
    [ParseValue] is entered at offset 4 and left at offset 7 with the
    value, and the check for [;] consumes the second point, so that
    [ParseConfigLine], and [ParseCfg] which calls it, return
    [UNEXPECTED_TOKEN] at offset 8, whatever follows the second point.
    With [;] right after [1.2] the same statement is parsed into the entry
    with that value.  In general a point met after a point has been taken
    ends the scan and is left in the stream. *)
Theorem C2_second_point_ends_literal :
  let at_value := mkFILE src_float_two_points 4 in
  let after_value := mkFILE src_float_two_points 7 in
  ParseGenericNumber_loop 10 at_value 0 true false
    = Some (after_value, Ok (3%nat, true))
  /\ fgets 4 (pushback after_value 3) = (bytes "1.2", after_value)
  /\ strtod (bytes "1.2") = (binary64_of_ratio 12 10, [])
  /\ binary64_of_ratio 12 10 = DFinite 5404319552844595 (-52)
  /\ ParseValue 10 at_value
     = Some (after_value, Ok (Decimal (DFinite 5404319552844595 (-52))))
  /\ expect after_value 59 = (-1, mkFILE src_float_two_points 8)
  /\ fst (fgetc after_value) = int_of_char "."%char
  /\ parses src_float_two_points (Err UNEXPECTED_TOKEN)
  /\ ParseString 10 (fopen src_float_two_points)
     = Some (mkFILE src_float_two_points 1, Some (bytes "k"))
  /\ consumeSpace 10 (mkFILE src_float_two_points 1)
     = Some (mkFILE src_float_two_points 2)
  /\ expect (mkFILE src_float_two_points 2) 61 = (1, mkFILE src_float_two_points 3)
  /\ consumeSpace 10 (mkFILE src_float_two_points 3) = Some at_value
  /\ consumeSpace 10 after_value = Some after_value
  /\ (forall n,
        ParseConfigLine (4 + n) (fopen src_float_two_points)
        = Some (mkFILE src_float_two_points 8, Err UNEXPECTED_TOKEN))
  /\ (forall n,
        ParseCfg (5 + n) (fopen src_float_two_points)
        = Some (mkFILE src_float_two_points 8, Err UNEXPECTED_TOKEN))
  /\ (forall r, parses src_float_two_points r -> r = Err UNEXPECTED_TOKEN)
  /\ (forall rest n,
        ParseConfigLine (4 + n) (fopen (bytes "k = 1.2." ++ rest))
        = Some (mkFILE (bytes "k = 1.2." ++ rest) 8, Err UNEXPECTED_TOKEN))
  /\ (forall rest, parses (bytes "k = 1.2." ++ rest) (Err UNEXPECTED_TOKEN))
  /\ (forall n,
        ParseConfigLine (4 + n) (fopen (bytes "k = 1.2;"))
        = Some (mkFILE (bytes "k = 1.2;") 8,
                Ok (entry_k (Primitive (Decimal (DFinite 5404319552844595 (-52))))
                            PRIMITIVE_TYPE)))
  /\ parses (bytes "k = 1.2;")
       (Ok (mkConfig 1 [entry_k (Primitive (Decimal (DFinite 5404319552844595 (-52))))
                                PRIMITIVE_TYPE]))
  /\ (forall pre rest fuel len is_float,
        ParseGenericNumber_loop (S fuel)
          (mkFILE (pre ++ "."%char :: rest) (length pre)) len false is_float
        = Some (mkFILE (pre ++ "."%char :: rest) (length pre), Ok (len, is_float))).
Proof.
  cbv zeta.
  assert (Hfails : parses src_float_two_points (Err UNEXPECTED_TOKEN))
    by (exists 20%nat; vm_compute; reflexivity).
  splits;
    try match goal with
        | |- _ = _ => vm_compute; reflexivity
        end.
  - exact Hfails.
  - intros n. apply (ParseConfigLine_mono 4); [lia|]. vm_compute. reflexivity.
  - intros n. apply (ParseCfg_mono 5); [lia|]. vm_compute. reflexivity.
  - intros r Hr. exact (parses_functional _ _ _ Hr Hfails).
  - intros rest n. apply (ParseConfigLine_mono 4); [lia|]. vm_compute. reflexivity.
  - intros rest. exists 6%nat. vm_compute. reflexivity.
  - intros n. apply (ParseConfigLine_mono 4); [lia|]. vm_compute. reflexivity.
  - exists 6%nat. vm_compute. reflexivity.
  - intros pre rest fuel len is_float.
    apply (ParseGenericNumber_loop_stop _ _ "."%char rest).
    + rewrite skipn_app, skipn_all, Nat.sub_diag. reflexivity.
    + reflexivity.
    + reflexivity.
Qed.

Lemma C2_second_point_ends_literal_witness :
  parses src_float_two_points (Err UNEXPECTED_TOKEN)
  /\ (Err UNEXPECTED_TOKEN : result Config) = Err UNEXPECTED_TOKEN.
Proof.
  assert (Hp : parses src_float_two_points (Err UNEXPECTED_TOKEN))
    by (exists 20%nat; vm_compute; reflexivity).
  split; [exact Hp|].
  pose proof C2_second_point_ends_literal as H. cbv zeta in H.
  destruct H as (_ & _ & _ & _ & _ & _ & _ & _ & _ & _ & _ & _ & _ & _ & _ & Hu & _).
  exact (Hu _ Hp).
Defined.

Lemma number_char_not_newline a : number_char a = true -> negb (is_char 10 a) = true.
Proof.
  unfold number_char, is_char, isdigit, IsHexDigit, tolower, isupper.
  intros H. destruct (int_of_char a =? 10) eqn:E; [|reflexivity].
  apply Z.eqb_eq in E. rewrite E in H. discriminate.
Qed.

Lemma number_char_not_nul a : number_char a = true -> negb (is_char 0 a) = true.
Proof.
  unfold number_char, is_char, isdigit, IsHexDigit, tolower, isupper.
  intros H. destruct (int_of_char a =? 0) eqn:E; [|reflexivity].
  apply Z.eqb_eq in E. rewrite E in H. discriminate.
Qed.

(** An integer literal followed by a byte that ends the scan: the literal
    is captured whole and handed to [strtol]. *)
Lemma ParseGenericNumber_run_integer d p N rest fuel :
  skipn p d = N ++ rest ->
  forallb number_char N = true ->
  (exists c r, rest = c :: r /\ number_char c = false /\ is_char 46 c = false) ->
  (length N < fuel)%nat ->
  ParseGenericNumber fuel (mkFILE d p)
  = Some (mkFILE d (p + length N),
          let (n, endptr) := strtol N in
          if negb (is_nil endptr) then Err INVALID_INTEGER_LITERAL
          else Ok (Number n)).
Proof.
  intros H HN (c & r & -> & Hc & Hdot) Hfuel.
  unfold ParseGenericNumber.
  replace fuel with (length N + S (fuel - length N - 1))%nat by lia.
  rewrite (ParseGenericNumber_loop_chars d N p (c :: r)); auto.
  rewrite (ParseGenericNumber_loop_stop d (p + length N) c r).
  - simpl Nat.add at 2. rewrite pushback_add.
    rewrite (fgets_token d p N (c :: r) H).
    + rewrite cstring_no_nul.
      * destruct (strtol N) as [n endptr]. destruct (negb (is_nil endptr)); reflexivity.
      * eapply forallb_impl; [|exact HN]. apply number_char_not_nul.
    + apply forallb_removelast.
      eapply forallb_impl; [|exact HN]. apply number_char_not_newline.
  - apply skipn_app_length. exact H.
  - exact Hc.
  - rewrite Hdot. reflexivity.
Qed.

(** ** [strtol] on integer literals *)

Lemma strtol_digits_all base ds : forall acc,
  forallb (base_digit base) ds = true ->
  strtol_digits base ds acc
  = (fold_left (fun acc a => acc * base + digit_of a) ds acc, []).
Proof.
  induction ds as [|a ds IH]; intros acc H; [reflexivity|].
  apply forallb_cons_inv in H. destruct H as [Ha H].
  unfold base_digit in Ha. simpl. unfold digit_of.
  destruct (digit_value (int_of_char a)) as [v|]; [|discriminate].
  rewrite Ha. apply IH. exact H.
Qed.

Lemma fold_digits_nonneg base ds : forall acc,
  0 <= base -> 0 <= acc ->
  forallb (base_digit base) ds = true ->
  0 <= fold_left (fun acc a => acc * base + digit_of a) ds acc.
Proof.
  induction ds as [|a ds IH]; intros acc Hb Hacc H; [exact Hacc|].
  apply forallb_cons_inv in H. destruct H as [Ha H].
  simpl. apply IH; auto.
  assert (0 <= digit_of a).
  { unfold digit_of, digit_value, tolower, isalpha, isupper, islower, isdigit.
    pose proof (int_of_char_range a).
    destruct ((48 <=? int_of_char a) && (int_of_char a <=? 57)) eqn:E1; [lia|].
    destruct ((65 <=? int_of_char a) && (int_of_char a <=? 90)) eqn:E2; simpl; [lia|].
    destruct ((97 <=? int_of_char a) && (int_of_char a <=? 122)) eqn:E3; lia. }
  nia.
Qed.

Lemma base_digit_16 a :
  base_digit 16 a = true ->
  isdigit (int_of_char a) = true \/ IsHexDigit (int_of_char a) = true.
Proof.
  unfold base_digit, digit_value, IsHexDigit, tolower, isalpha, isupper, islower,
    isdigit.
  pose proof (int_of_char_range a).
  destruct ((48 <=? int_of_char a) && (int_of_char a <=? 57)) eqn:E1; [auto|].
  destruct ((65 <=? int_of_char a) && (int_of_char a <=? 90)) eqn:E2; simpl.
  - intros Hd. right. lia.
  - destruct ((97 <=? int_of_char a) && (int_of_char a <=? 122)) eqn:E3;
      [|discriminate].
    intros Hd. right. lia.
Qed.

Lemma base_digit_le b b' a :
  b <= b' -> base_digit b a = true -> base_digit b' a = true.
Proof.
  unfold base_digit. destruct (digit_value (int_of_char a)); [|auto]. lia.
Qed.

Lemma base_digit_number_char b a :
  b <= 16 -> base_digit b a = true -> number_char a = true.
Proof.
  intros Hb H. apply (base_digit_le b 16) in H; [|exact Hb].
  apply base_digit_16 in H. unfold number_char.
  destruct H as [-> | ->]; simpl; rewrite ?orb_true_r; reflexivity.
Qed.

Lemma isdigit_base_digit a : isdigit (int_of_char a) = true -> base_digit 10 a = true.
Proof.
  unfold base_digit, digit_value. intros H. rewrite H. unfold isdigit in H. lia.
Qed.

Lemma base_digit_10_isdigit a : base_digit 10 a = true -> isdigit (int_of_char a) = true.
Proof.
  unfold base_digit, digit_value, tolower, isalpha, isupper, islower, isdigit.
  pose proof (int_of_char_range a).
  destruct ((48 <=? int_of_char a) && (int_of_char a <=? 57)) eqn:E1; [auto|].
  destruct ((65 <=? int_of_char a) && (int_of_char a <=? 90)) eqn:E2; simpl;
    [intros; lia|].
  destruct ((97 <=? int_of_char a) && (int_of_char a <=? 122)) eqn:E3;
    [intros; lia | discriminate].
Qed.

Lemma base_digit_not_x b a :
  b <= 16 -> base_digit b a = true -> (tolower (int_of_char a) =? 120) = false.
Proof.
  intros Hb H. apply (base_digit_le b 16) in H; [|exact Hb].
  apply base_digit_16 in H.
  unfold isdigit, IsHexDigit, tolower, isupper in *.
  destruct ((65 <=? int_of_char a) && (int_of_char a <=? 90)) eqn:E; lia.
Qed.

Lemma isdigit_not_space_or_sign c :
  isdigit c = true -> isspace c = false /\ (c =? 45) = false /\ (c =? 43) = false.
Proof. unfold isdigit, isspace. lia. Qed.

Lemma is_base_digit_cons base a s : is_base_digit base (a :: s) = base_digit base a.
Proof. reflexivity. Qed.

Lemma strtol_literal N n :
  int_literal N n -> strtol N = (Z.min n LONG_MAX, []).
Proof.
  intros HN. destruct HN as [a ds Ha Hz Hds | z x h hs Hz Hx Hhs | z os Hz Hos].
  - destruct (isdigit_not_space_or_sign _ Ha) as (Hsp & Hm & Hp).
    pose proof (isdigit_base_digit _ Ha) as Hb.
    assert (Hall : forallb (base_digit 10) (a :: ds) = true)
      by (simpl; rewrite Hb; exact Hds).
    unfold is_char in Hz. unfold strtol. simpl skip_spaces. rewrite Hsp, Hm, Hp.
    destruct ds as [|x s'].
    + rewrite is_base_digit_cons, Hb, (strtol_digits_all 10 [a] 0 Hall). reflexivity.
    + rewrite Hz. simpl andb. cbv iota.
      rewrite is_base_digit_cons, Hb, (strtol_digits_all 10 _ 0 Hall). reflexivity.
  - unfold is_char in Hz. apply Z.eqb_eq in Hz.
    assert (Hd : isdigit (int_of_char z) = true) by (rewrite Hz; reflexivity).
    destruct (isdigit_not_space_or_sign _ Hd) as (Hsp & Hm & Hp).
    unfold strtol. simpl skip_spaces. rewrite Hsp, Hm, Hp.
    pose proof Hhs as Hh. apply forallb_cons_inv in Hh. destruct Hh as [Hh _].
    rewrite Hz, Hx, is_base_digit_cons, Hh. simpl andb. cbv iota.
    rewrite (strtol_digits_all 16 _ 0 Hhs). reflexivity.
  - unfold is_char in Hz. apply Z.eqb_eq in Hz.
    assert (Hd : isdigit (int_of_char z) = true) by (rewrite Hz; reflexivity).
    destruct (isdigit_not_space_or_sign _ Hd) as (Hsp & Hm & Hp).
    assert (Hb : base_digit 8 z = true).
    { unfold base_digit, digit_value. rewrite Hd, Hz. reflexivity. }
    assert (Hall : forallb (base_digit 8) (z :: os) = true)
      by (simpl; rewrite Hb; exact Hos).
    assert (Hv : fold_left (fun acc a => acc * 8 + digit_of a) (z :: os) 0
                 = value_in_base 8 os).
    { simpl. unfold digit_of at 2, digit_value. rewrite Hd, Hz. reflexivity. }
    unfold strtol. simpl skip_spaces. rewrite Hsp, Hm, Hp.
    destruct os as [|x s'].
    + rewrite is_base_digit_cons, (base_digit_le 8 10 z) by (auto; lia).
      simpl. unfold digit_of, digit_value. rewrite Hd, Hz. reflexivity.
    + pose proof Hos as Hxo. apply forallb_cons_inv in Hxo. destruct Hxo as [Hxo _].
      rewrite (base_digit_not_x 8 x) by (auto; lia).
      rewrite Hz. simpl andb. cbv iota.
      rewrite (strtol_digits_all 8 _ 0 Hall), Hv. reflexivity.
Qed.

Lemma int_literal_nonneg N n : int_literal N n -> 0 <= n.
Proof.
  intros [a ds Ha Hz Hds | z x h hs Hz Hx Hhs | z os Hz Hos]; unfold value_in_base;
    apply fold_digits_nonneg; try lia; auto.
  simpl. rewrite (isdigit_base_digit _ Ha). exact Hds.
Qed.

Lemma int_literal_chars N n :
  int_literal N n ->
  forallb number_char N = true
  /\ exists a N', N = a :: N' /\ isdigit (int_of_char a) = true.
Proof.
  intros [a ds Ha Hz Hds | z x h hs Hz Hx Hhs | z os Hz Hos].
  - split; [|eauto].
    simpl. unfold number_char at 1. rewrite Ha. simpl.
    eapply forallb_impl; [|exact Hds]. intros c. apply base_digit_number_char. lia.
  - unfold is_char in Hz. apply Z.eqb_eq in Hz.
    assert (Hd : isdigit (int_of_char z) = true) by (rewrite Hz; reflexivity).
    split; [|eauto].
    change (forallb number_char (z :: x :: h :: hs))
      with (number_char z && (number_char x && forallb number_char (h :: hs))).
    unfold number_char at 1. rewrite Hd. simpl orb. simpl andb.
    apply andb_true_iff. split.
    + unfold number_char, IsHexDigit. unfold tolower, isupper in *.
      destruct ((65 <=? int_of_char x) && (int_of_char x <=? 90)) eqn:E; lia.
    + change (forallb number_char (h :: hs) = true).
      eapply forallb_impl; [|exact Hhs]. intros c. apply base_digit_number_char. lia.
  - unfold is_char in Hz. apply Z.eqb_eq in Hz.
    assert (Hd : isdigit (int_of_char z) = true) by (rewrite Hz; reflexivity).
    split; [|eauto].
    simpl. unfold number_char at 1. rewrite Hd. simpl.
    eapply forallb_impl; [|exact Hos]. intros c. apply base_digit_number_char. lia.
Qed.

(** ** The loop of [ParseConfig] and its turns *)

Lemma isspace_not_EOF c : isspace c = true -> (c =? EOF) = false.
Proof. unfold isspace, EOF. lia. Qed.

Lemma extend_nil config : extend config [] = config.
Proof.
  destruct config as [n l]. unfold extend. simpl.
  rewrite Nat.add_0_r, app_nil_r. reflexivity.
Qed.

Lemma extend_cons config e es :
  extend (mkConfig (S (Entries config)) (List_ config ++ [e])) es
  = extend config (e :: es).
Proof.
  unfold extend. simpl. rewrite <- app_assoc. f_equal. lia.
Qed.

Lemma extend_app config es es' :
  extend (extend config es) es' = extend config (es ++ es').
Proof.
  unfold extend. simpl. rewrite length_app, <- app_assoc. f_equal. lia.
Qed.

Lemma turns_app f es f1 es' f2 :
  turns f es f1 -> turns f1 es' f2 -> turns f (es ++ es') f2.
Proof.
  intros H. induction H; intros H'; simpl; eauto using turns.
Qed.

(** From the top of the loop to its result, along given turns. *)
Lemma loop_along_turns f es f' :
  turns f es f' ->
  forall config r,
    (exists fuel, ParseConfig_loop fuel f' (extend config es) = Some r) ->
    exists fuel, ParseConfig_loop fuel f config = Some r.
Proof.
  induction 1 as [f | f c f1 es f' Hc Hsp _ IH
                    | f c f1 fuel0 f2 es f' Hc He Hsp Hcfg _ IH
                    | f c f1 fuel0 f2 e es f' Hc He Hsp Hcfg _ IH];
    intros config r Hr.
  - rewrite extend_nil in Hr. exact Hr.
  - destruct (IH config r Hr) as [n Hn]. exists (S n).
    simpl. rewrite Hc, (isspace_not_EOF _ Hsp), Hsp. exact Hn.
  - destruct (IH config r Hr) as [n Hn]. exists (S (Nat.max n fuel0)).
    simpl. rewrite Hc, He, Hsp.
    rewrite (ParseCfg_mono fuel0 (Nat.max n fuel0) _ _ (Nat.le_max_r _ _) Hcfg).
    apply (ParseConfig_loop_mono n); [lia | exact Hn].
  - rewrite <- extend_cons in Hr.
    destruct (IH _ r Hr) as [n Hn]. exists (S (Nat.max n fuel0)).
    simpl. rewrite Hc, He, Hsp.
    rewrite (ParseCfg_mono fuel0 (Nat.max n fuel0) _ _ (Nat.le_max_r _ _) Hcfg).
    apply (ParseConfig_loop_mono n); [lia | exact Hn].
Qed.

Lemma loop_leaves f o :
  leaves f o ->
  forall config, exists fuel,
    ParseConfig_loop fuel f config
    = Some (match o with None => Ok config | Some s => Err s end).
Proof.
  intros [f0 Hc | f0 c f1 fuel0 f2 s Hc He Hsp Hcfg] config.
  - exists 1%nat. simpl. destruct (fgetc f0) as [c f1]. simpl in Hc.
    rewrite Hc. reflexivity.
  - exists (S fuel0). simpl. rewrite Hc, He, Hsp, Hcfg. reflexivity.
Qed.

(** Every result of the loop comes from turns and a way to leave. *)
Lemma loop_inversion fuel : forall f config r,
  ParseConfig_loop fuel f config = Some r ->
  exists es f' o,
    turns f es f' /\ leaves f' o
    /\ r = match o with None => Ok (extend config es) | Some s => Err s end.
Proof.
  induction fuel as [|n IH]; intros f config r H; [discriminate|].
  simpl in H. destruct (fgetc f) as [c f1] eqn:Hc.
  destruct (c =? EOF) eqn:He.
  - exists [], f, None. repeat split.
    + constructor.
    + constructor. rewrite Hc. simpl. apply Z.eqb_eq. exact He.
    + rewrite extend_nil. congruence.
  - destruct (isspace c) eqn:Hsp.
    + destruct (IH _ _ _ H) as (es & f' & o & Ht & Hl & Hr).
      exists es, f', o. repeat split; auto. eapply turns_space; eauto.
    + destruct (ParseCfg n (pushback f1 1)) as [[f2 [[e|]|s]]|] eqn:Hcfg;
        [| | |discriminate].
      * destruct (IH _ _ _ H) as (es & f' & o & Ht & Hl & Hr).
        exists (e :: es), f', o. repeat split; auto.
        -- eapply turns_entry; eauto.
        -- rewrite Hr, extend_cons. reflexivity.
      * destruct (IH _ _ _ H) as (es & f' & o & Ht & Hl & Hr).
        exists es, f', o. repeat split; auto. eapply turns_blank; eauto.
      * exists [], f, (Some s). repeat split.
        -- constructor.
        -- eapply leaves_fail; eauto.
        -- congruence.
Qed.

(** The loop is deterministic: turns that are possible are the ones it
    takes. *)
Lemma loop_follows_turns f es f' :
  turns f es f' ->
  forall fuel config r,
    ParseConfig_loop fuel f config = Some r ->
    exists fuel', ParseConfig_loop fuel' f' (extend config es) = Some r.
Proof.
  induction 1 as [f | f c f1 es f' Hc Hsp _ IH
                    | f c f1 fuel0 f2 es f' Hc He Hsp Hcfg _ IH
                    | f c f1 fuel0 f2 e es f' Hc He Hsp Hcfg _ IH];
    intros fuel config r Hr.
  - rewrite extend_nil. eauto.
  - destruct fuel as [|n]; [discriminate|]. simpl in Hr.
    rewrite Hc, (isspace_not_EOF _ Hsp), Hsp in Hr. eauto.
  - destruct fuel as [|n]; [discriminate|]. simpl in Hr.
    rewrite Hc, He, Hsp in Hr.
    destruct (ParseCfg n (pushback f1 1)) as [[f3 q]|] eqn:Hn; [|discriminate].
    apply (ParseCfg_mono _ (Nat.max n fuel0)) in Hn; [|lia].
    apply (ParseCfg_mono _ (Nat.max n fuel0)) in Hcfg; [|lia].
    rewrite Hn in Hcfg. injection Hcfg as -> ->. eauto.
  - destruct fuel as [|n]; [discriminate|]. simpl in Hr.
    rewrite Hc, He, Hsp in Hr.
    destruct (ParseCfg n (pushback f1 1)) as [[f3 q]|] eqn:Hn; [|discriminate].
    apply (ParseCfg_mono _ (Nat.max n fuel0)) in Hn; [|lia].
    apply (ParseCfg_mono _ (Nat.max n fuel0)) in Hcfg; [|lia].
    rewrite Hn in Hcfg. injection Hcfg as -> ->.
    rewrite <- extend_cons. eauto.
Qed.

Lemma extend_empty es : extend (mkConfig 0 []) es = mkConfig (length es) es.
Proof. reflexivity. Qed.

Lemma parses_turns src r :
  parses src r <->
  exists es f' o,
    turns (fopen src) es f' /\ leaves f' o /\ r = outcome es o.
Proof.
  split.
  - intros [fuel H]. simpl in H.
    destruct (loop_inversion _ _ _ _ H) as (es & f' & o & Ht & Hl & Hr).
    exists es, f', o. split; [exact Ht|]. split; [exact Hl|].
    rewrite Hr. destruct o; reflexivity.
  - intros (es & f' & o & Ht & Hl & ->).
    unfold parses. simpl.
    apply (loop_along_turns _ _ _ Ht).
    destruct (loop_leaves _ _ Hl (extend (mkConfig 0 []) es)) as [n Hn].
    exists n. rewrite Hn. destruct o; reflexivity.
Qed.

(** C8: the result of [ParseConfig] on any source is exactly this: the
    builder takes turns through the source, each config line adds its entry
    at the end of the list, and the loop is left either at end of input
    between statements, with the entries in the order they were parsed and
    their number as count, or at the first statement that fails, with that
    statement's status and no document. *)
Theorem C8_builder_order_count_fail_fast src r :
  parses src r <->
  exists es f' o,
    turns (fopen src) es f' /\ leaves f' o /\ r = outcome es o.
Proof. apply parses_turns. Qed.

(** ** Forward runs of the statement parser *)

Lemma ParseValue_run_integer d p N n rest fuel :
  skipn p d = N ++ rest ->
  int_literal N n -> n <= LONG_MAX ->
  (exists c r, rest = c :: r /\ number_char c = false /\ is_char 46 c = false) ->
  (length N < fuel)%nat ->
  ParseValue fuel (mkFILE d p) = Some (mkFILE d (p + length N), Ok (Number n)).
Proof.
  intros H HN Hmax Hrest Hfuel.
  destruct (int_literal_chars _ _ HN) as (Hchars & a & N' & -> & Ha).
  unfold ParseValue. simpl in H. rewrite (fgetc_cons _ _ _ _ H).
  rewrite int_of_char_not_EOF.
  replace (int_of_char a =? 39) with false by (unfold isdigit in Ha; lia).
  rewrite Ha, pushback_S.
  rewrite (ParseGenericNumber_run_integer d p (a :: N') rest fuel H Hchars Hrest Hfuel).
  rewrite (strtol_literal _ _ HN). simpl.
  rewrite Z.min_l by exact Hmax. reflexivity.
Qed.

Lemma expect_run d p a r :
  skipn p d = a :: r ->
  expect (mkFILE d p) (int_of_char a) = (1, mkFILE d (S p)).
Proof.
  intros H. unfold expect. rewrite (fgetc_cons _ _ _ _ H), Z.eqb_refl. reflexivity.
Qed.

(** [key ws = ws value ws ;] where the value is a primitive that
    [ParseValue] reads from the text [vtext]. *)
Lemma ParseConfigLine_run_primitive d p k ws1 ws2 vtext ws3 post fuel pv :
  skipn p d = k ++ ws1 ++ "="%char :: ws2 ++ vtext ++ ws3 ++ ";"%char :: post ->
  is_key k = true ->
  forallb space_char ws1 = true ->
  forallb space_char ws2 = true ->
  forallb space_char ws3 = true ->
  (exists a v, vtext = a :: v /\ space_char a = false /\ is_char 91 a = false) ->
  ParseValue fuel (mkFILE d (p + length k + length ws1 + 1 + length ws2))
  = Some (mkFILE d (p + length k + length ws1 + 1 + length ws2 + length vtext),
          Ok pv) ->
  (length k + length ws1 + length ws2 + length ws3 < fuel)%nat ->
  ParseConfigLine fuel (mkFILE d p)
  = Some (mkFILE d (p + length k + length ws1 + 1 + length ws2 + length vtext
                    + length ws3 + 1),
          Ok (mkConfigEntry k (Primitive pv) PRIMITIVE_TYPE)).
Proof.
  intros H Hk H1 H2 H3 (a & v & -> & Hasp & Hab) Hval Hfuel.
  unfold ParseConfigLine.
  rewrite (ParseString_run d p k _ fuel H Hk) by
    (first [lia | apply head_of_ws_app;
                  [exact H1 | apply space_not_key_char | reflexivity]]).
  apply skipn_app_length in H.
  rewrite (consumeSpace_run d ws1 _ _ fuel H H1) by
    (first [lia | exists "="%char; eexists; split; reflexivity]).
  apply skipn_app_length in H.
  rewrite (expect_run _ _ _ _ H : expect _ 61 = _). change (1 <? 0) with false. cbv iota.
  apply skipn_cons_S in H.
  replace (S (p + length k + length ws1)) with (p + length k + length ws1 + 1)%nat
    in * by lia.
  rewrite (consumeSpace_run d ws2 _ _ fuel H H2) by
    (first [lia | exists a; eexists; split; [reflexivity | exact Hasp]]).
  apply skipn_app_length in H.
  change ((a :: v) ++ ws3 ++ ";"%char :: post)
    with (a :: v ++ ws3 ++ ";"%char :: post) in H.
  rewrite (fgetc_cons _ _ _ _ H), int_of_char_not_EOF.
  unfold is_char in Hab. rewrite Hab, pushback_S, Hval.
  change (a :: v ++ ws3 ++ ";"%char :: post)
    with ((a :: v) ++ ws3 ++ ";"%char :: post) in H.
  apply skipn_app_length in H. simpl map_result.
  rewrite (consumeSpace_run d ws3 _ _ fuel H H3) by
    (first [lia | exists ";"%char; eexists; split; reflexivity]).
  apply skipn_app_length in H.
  rewrite (expect_run _ _ _ _ H : expect _ 59 = _). change (1 <? 0) with false. cbv iota.
  do 3 f_equal. lia.
Qed.

Lemma isalpha_dispatch c :
  isalpha c = true ->
  (c =? EOF) = false /\ (c =? 10) = false /\ isspace c = false /\ (c =? 35) = false.
Proof. unfold isalpha, isupper, islower, isspace, EOF. lia. Qed.

Lemma ParseCfg_run_line d p k rest fuel :
  skipn p d = k ++ rest ->
  is_key k = true ->
  ParseCfg (S fuel) (mkFILE d p)
  = match ParseConfigLine fuel (mkFILE d p) with
    | Some (file, status) => Some (file, map_result Some status)
    | None => None
    end.
Proof.
  intros H Hk. destruct k as [|a k]; [discriminate|].
  simpl in Hk. apply andb_true_iff in Hk. destruct Hk as [Ha _].
  destruct (isalpha_dispatch _ Ha) as (He & Hnl & Hsp & Hc).
  simpl in H. cbn [ParseCfg]. rewrite (fgetc_cons _ _ _ _ H).
  rewrite He, Hnl, Hsp, Hc, Ha, pushback_S. reflexivity.
Qed.

(** One turn of the builder on a config line. *)
Lemma turns_line d p k rest fuel q e :
  skipn p d = k ++ rest ->
  is_key k = true ->
  ParseConfigLine fuel (mkFILE d p) = Some (mkFILE d q, Ok e) ->
  turns (mkFILE d p) [e] (mkFILE d q).
Proof.
  intros H Hk Hline.
  pose proof (ParseCfg_run_line d p k rest fuel H Hk) as Hcfg.
  rewrite Hline in Hcfg. cbn [map_result] in Hcfg.
  destruct k as [|a k]; [discriminate|].
  simpl in Hk. apply andb_true_iff in Hk. destruct Hk as [Ha _].
  destruct (isalpha_dispatch _ Ha) as (He & Hnl & Hsp & Hc).
  simpl in H.
  eapply turns_entry.
  - apply (fgetc_cons _ _ _ _ H).
  - exact He.
  - exact Hsp.
  - rewrite pushback_S. exact Hcfg.
  - constructor.
Qed.

(** ** [FindValue] *)

Lemma strcmp_eq_true a b : strcmp_eq a b = true <-> a = b.
Proof.
  unfold strcmp_eq. destruct (list_eq_dec ascii_dec a b); split; auto; discriminate.
Qed.

Lemma entry_test_spec ty key e :
  strcmp_eq (Key e) key && (Type_ e =? ty) = true <-> entry_matches ty key e.
Proof.
  unfold entry_matches. rewrite andb_true_iff, strcmp_eq_true, Z.eqb_eq. tauto.
Qed.

Lemma FindValue_loop_Some n : forall l ty key v,
  FindValue_loop n l ty key = Some v ->
  exists i e, (i < n)%nat /\ nth_error l i = Some e /\ entry_matches ty key e
    /\ v = Value_ e
    /\ forall j e', (j < i)%nat -> nth_error l j = Some e' ->
                    ~ entry_matches ty key e'.
Proof.
  induction n as [|n IH]; intros l ty key v H; [discriminate|].
  destruct l as [|e l]; [discriminate|]. simpl in H.
  destruct (strcmp_eq (Key e) key && (Type_ e =? ty)) eqn:E.
  - apply entry_test_spec in E. injection H as <-.
    exists 0%nat, e. splits; try lia; try apply E; auto.
  - destruct (IH _ _ _ _ H) as (i & e0 & Hi & Hn & Hm & Hv & Hfirst).
    exists (S i), e0. splits; try lia; try apply Hm; auto.
    intros [|j] e' Hj Hn'.
    + simpl in Hn'. injection Hn' as <-. rewrite <- entry_test_spec, E. discriminate.
    + simpl in Hn'. apply (Hfirst j); [lia | exact Hn'].
Qed.

Lemma FindValue_loop_None n : forall l ty key,
  FindValue_loop n l ty key = None ->
  forall i e, (i < n)%nat -> nth_error l i = Some e -> ~ entry_matches ty key e.
Proof.
  induction n as [|n IH]; intros l ty key H i e Hi Hn; [lia|].
  destruct l as [|e0 l]; [destruct i; discriminate|]. simpl in H.
  destruct (strcmp_eq (Key e0) key && (Type_ e0 =? ty)) eqn:E; [discriminate|].
  destruct i as [|i].
  - simpl in Hn. injection Hn as <-. rewrite <- entry_test_spec, E. discriminate.
  - simpl in Hn. apply (IH _ _ _ H i); [lia | exact Hn].
Qed.

Lemma FindValue_loop_first n : forall l ty key i e,
  (i < n)%nat -> nth_error l i = Some e -> entry_matches ty key e ->
  (forall j e', (j < i)%nat -> nth_error l j = Some e' -> ~ entry_matches ty key e') ->
  FindValue_loop n l ty key = Some (Value_ e).
Proof.
  induction n as [|n IH]; intros l ty key i e Hi Hn Hm Hfirst; [lia|].
  destruct l as [|e0 l]; [destruct i; discriminate|]. simpl.
  destruct i as [|i].
  - simpl in Hn. injection Hn as ->.
    apply entry_test_spec in Hm. rewrite Hm. reflexivity.
  - destruct (strcmp_eq (Key e0) key && (Type_ e0 =? ty)) eqn:E.
    + apply entry_test_spec in E. exfalso. apply (Hfirst 0%nat e0); auto. lia.
    + apply (IH l ty key i e); auto; [lia|].
      intros j e' Hj Hn'. apply (Hfirst (S j) e'); [lia | exact Hn'].
Qed.

(** C5: [FindValue] returns the value of the first of the counted entries
    whose key equals the one asked for and whose kind equals the one asked
    for, whatever comes later (a later entry with the same key is never
    returned), and [NULL] exactly when no counted entry matches both. *)
Theorem C5_find_first_match config ty key :
  (forall i e, first_match config ty key i e ->
               FindValue config ty key = Some (Value_ e))
  /\ (forall v, FindValue config ty key = Some v ->
                exists i e, first_match config ty key i e /\ v = Value_ e)
  /\ (FindValue config ty key = None <-> no_match config ty key).
Proof.
  unfold FindValue, first_match, no_match. splits; [| |split].
  - intros i e (Hi & Hn & Hm & Hfirst).
    eapply FindValue_loop_first; eauto.
  - intros v H.
    destruct (FindValue_loop_Some _ _ _ _ _ H) as (i & e & Hi & Hn & Hm & Hv & Hf).
    exists i, e. auto.
  - intros H. apply FindValue_loop_None. exact H.
  - intros H.
    destruct (FindValue_loop (Entries config) (List_ config) ty key) as [v|] eqn:E;
      [|reflexivity].
    destruct (FindValue_loop_Some _ _ _ _ _ E) as (i & e & Hi & Hn & Hm & _).
    exfalso. exact (H i e Hi Hn Hm).
Qed.

Lemma FindValue_loop_app l1 l2 n ty key :
  FindValue_loop (length l1) l1 ty key = None ->
  FindValue_loop (length l1 + n) (l1 ++ l2) ty key = FindValue_loop n l2 ty key.
Proof.
  induction l1 as [|e l1 IH]; intros H; [reflexivity|].
  simpl in *.
  destruct (strcmp_eq (Key e) key && (Type_ e =? ty)); [discriminate|].
  apply IH. exact H.
Qed.

(** ** Integer statements *)

Lemma space_not_number_or_point a :
  space_char a = true -> number_char a || is_char 46 a = false.
Proof.
  unfold space_char, number_char, is_char, isspace, isdigit, IsHexDigit,
    tolower, isupper.
  destruct ((65 <=? int_of_char a) && (int_of_char a <=? 90)) eqn:E; lia.
Qed.

Lemma turns_spaces d ws : forall p rest,
  skipn p d = ws ++ rest ->
  forallb space_char ws = true ->
  turns (mkFILE d p) [] (mkFILE d (p + length ws)).
Proof.
  induction ws as [|a ws IH]; intros p rest H Hws.
  - simpl. rewrite Nat.add_0_r. constructor.
  - apply forallb_cons_inv in Hws. destruct Hws as [Ha Hws]. simpl in H.
    eapply turns_space.
    + apply (fgetc_cons _ _ _ _ H).
    + exact Ha.
    + replace (p + length (a :: ws))%nat with (S p + length ws)%nat by (simpl; lia).
      apply (IH (S p) rest); [|exact Hws]. eapply skipn_cons_S. exact H.
Qed.

Lemma leaves_at_end d p : skipn p d = [] -> leaves (mkFILE d p) None.
Proof. intros H. constructor. rewrite (fgetc_nil _ _ H). reflexivity. Qed.

Lemma integer_statement_length k ws1 ws2 N ws3 :
  length (integer_statement k ws1 ws2 N ws3)
  = (length k + length ws1 + 1 + length ws2 + length N + length ws3 + 1)%nat.
Proof.
  unfold integer_statement. repeat (rewrite length_app; simpl). lia.
Qed.

Lemma integer_statement_line src p k ws1 ws2 N ws3 n post :
  is_key k = true ->
  int_literal N n -> n <= LONG_MAX ->
  forallb space_char ws1 = true ->
  forallb space_char ws2 = true ->
  forallb space_char ws3 = true ->
  skipn p src = integer_statement k ws1 ws2 N ws3 ++ post ->
  turns (mkFILE src p) [integer_entry k n]
        (mkFILE src (p + length (integer_statement k ws1 ws2 N ws3))).
Proof.
  intros Hk HN Hmax H1 H2 H3 H.
  rewrite integer_statement_length.
  assert (H' : skipn p src
               = k ++ ws1 ++ "="%char :: ws2 ++ N ++ ws3 ++ ";"%char :: post).
  { rewrite H. unfold integer_statement.
    repeat (rewrite <- app_assoc; simpl). reflexivity. }
  clear H.
  set (fuel := S (length k + length ws1 + length ws2 + length N + length ws3)).
  destruct (int_literal_chars _ _ HN) as (Hchars & a & N' & HeqN & Ha).
  apply (turns_line src p k _ fuel _ _ H' Hk).
  replace (p + (length k + length ws1 + 1 + length ws2 + length N + length ws3 + 1))%nat
    with (p + length k + length ws1 + 1 + length ws2 + length N + length ws3 + 1)%nat
    by lia.
  apply (ParseConfigLine_run_primitive src p k ws1 ws2 N ws3 post fuel (Number n)
           H' Hk H1 H2 H3).
  - exists a, N'. split; [exact HeqN|].
    destruct (isdigit_not_space_or_sign _ Ha) as (Hsp & _ & _).
    split; [exact Hsp|]. unfold is_char. unfold isdigit in Ha. lia.
  - eapply ParseValue_run_integer; eauto.
    + pose proof H' as H4.
      apply skipn_app_length in H4. apply skipn_app_length in H4.
      apply skipn_cons_S in H4. apply skipn_app_length in H4.
      replace (S (p + length k + length ws1)) with (p + length k + length ws1 + 1)%nat
        in H4 by lia.
      exact H4.
    + destruct (head_of_ws_app (fun c => number_char c || is_char 46 c)
                  ws3 ";"%char post H3 space_not_number_or_point eq_refl)
        as (c & r & Hcr & Hc).
      apply orb_false_iff in Hc. exists c, r. tauto.
    + unfold fuel. lia.
  - unfold fuel. lia.
Qed.

(** C1, as the code has it: let [N] be a literal that [strtol] with base 0
    reads whole (decimal digits without a leading zero, [0x] or [0X] and
    hexadecimal digits, or [0] and octal digits) and [n <= LONG_MAX] the
    integer it denotes in that base.  An integer statement [k = N;] (any
    white space around [=] and before [;]), met by the builder at the top
    of its loop after it has parsed the entries [pre_es], none of which is
    a primitive under the key [k], is parsed into the entry [k], kind
    Primitive, [Number n].  If only white space follows, the parse succeeds
    with this entry last; and whenever the parse of the whole source
    succeeds, [FindValue] of the document with [PRIMITIVE_TYPE] and [k] is
    [Number n]. *)
Theorem C1_integer_statement_found src p pre_es post k ws1 ws2 N ws3 n :
  is_key k = true ->
  int_literal N n -> n <= LONG_MAX ->
  forallb space_char ws1 = true ->
  forallb space_char ws2 = true ->
  forallb space_char ws3 = true ->
  turns (fopen src) pre_es (mkFILE src p) ->
  skipn p src = integer_statement k ws1 ws2 N ws3 ++ post ->
  FindValue (mkConfig (length pre_es) pre_es) PRIMITIVE_TYPE k = None ->
  turns (fopen src) (pre_es ++ [integer_entry k n])
        (mkFILE src (p + length (integer_statement k ws1 ws2 N ws3)))
  /\ (forallb space_char post = true ->
      parses src (Ok (mkConfig (length (pre_es ++ [integer_entry k n]))
                               (pre_es ++ [integer_entry k n]))))
  /\ (forall config,
        parses src (Ok config) ->
        FindValue config PRIMITIVE_TYPE k = Some (Primitive (Number n))).
Proof.
  intros Hk HN Hmax H1 H2 H3 Hpre H Hnone.
  pose proof (integer_statement_line src p k ws1 ws2 N ws3 n post
                Hk HN Hmax H1 H2 H3 H) as Hline.
  pose proof (turns_app _ _ _ _ _ Hpre Hline) as Hall.
  splits.
  - exact Hall.
  - intros Hpost.
    apply (parses_turns src).
    exists (pre_es ++ [integer_entry k n]), (mkFILE src
      (p + length (integer_statement k ws1 ws2 N ws3) + length post)), None.
    splits; [| |reflexivity].
    + rewrite <- (app_nil_r (pre_es ++ [integer_entry k n])).
      apply (turns_app _ _ _ _ _ Hall).
      apply skipn_app_length in H.
      apply (turns_spaces src post _ []); [|exact Hpost].
      rewrite app_nil_r. exact H.
    + apply leaves_at_end.
      apply skipn_app_length in H.
      rewrite <- (app_nil_r post) in H. apply skipn_app_length in H. exact H.
  - intros config [fuel Hparse]. simpl in Hparse.
    destruct (loop_follows_turns _ _ _ Hall _ _ _ Hparse) as [fuel' Hrest].
    destruct (loop_inversion _ _ _ _ Hrest) as (es & f' & o & _ & _ & Hr).
    destruct o as [s|]; [discriminate|]. injection Hr as ->.
    unfold FindValue, extend. simpl.
    rewrite <- app_assoc, length_app, <- Nat.add_assoc.
    rewrite FindValue_loop_app by exact Hnone.
    simpl. unfold strcmp_eq.
    destruct (list_eq_dec ascii_dec k k) as [_|Hne]; [reflexivity | congruence].
Qed.

(** C1 as claimed fails on literals made of decimal digits only.  [strtol]
    is called with base 0, so a leading zero announces an octal literal:
    [k = 09;] fails with [INVALID_INTEGER_LITERAL] and no document is
    built, and [k = 010;] is parsed with [FindValue] giving 8, not 10.  A
    literal above [LONG_MAX] is stored as [LONG_MAX]; and after an earlier
    [k = 1;] the statement [k = 2;] is parsed while [FindValue] gives 1. *)
Lemma C1_counterexample :
  parses (bytes "k = 09;") (Err INVALID_INTEGER_LITERAL)
  /\ ~ parses (bytes "k = 09;") (Ok (mkConfig 1 [integer_entry (bytes "k") 9]))
  /\ parses (bytes "k = 010;") (Ok (mkConfig 1 [integer_entry (bytes "k") 8]))
  /\ ~ parses (bytes "k = 010;") (Ok (mkConfig 1 [integer_entry (bytes "k") 10]))
  /\ FindValue (mkConfig 1 [integer_entry (bytes "k") 8]) PRIMITIVE_TYPE (bytes "k")
     = Some (Primitive (Number 8))
  /\ parses (bytes "k = 9223372036854775808;")
       (Ok (mkConfig 1 [integer_entry (bytes "k") 9223372036854775807]))
  /\ FindValue (mkConfig 1 [integer_entry (bytes "k") 9223372036854775807])
               PRIMITIVE_TYPE (bytes "k")
     = Some (Primitive (Number 9223372036854775807))
  /\ parses (bytes "k = 1; k = 2;")
       (Ok (mkConfig 2 [integer_entry (bytes "k") 1; integer_entry (bytes "k") 2]))
  /\ FindValue (mkConfig 2 [integer_entry (bytes "k") 1; integer_entry (bytes "k") 2])
               PRIMITIVE_TYPE (bytes "k")
     = Some (Primitive (Number 1)).
Proof.
  assert (H9 : parses (bytes "k = 09;") (Err INVALID_INTEGER_LITERAL))
    by (exists 10%nat; vm_compute; reflexivity).
  assert (H8 : parses (bytes "k = 010;")
                 (Ok (mkConfig 1 [integer_entry (bytes "k") 8])))
    by (exists 10%nat; vm_compute; reflexivity).
  splits.
  - exact H9.
  - intros H. pose proof (parses_functional _ _ _ H9 H). discriminate.
  - exact H8.
  - intros H. pose proof (parses_functional _ _ _ H8 H). discriminate.
  - vm_compute. reflexivity.
  - exists 30%nat. vm_compute. reflexivity.
  - vm_compute. reflexivity.
  - exists 20%nat. vm_compute. reflexivity.
  - vm_compute. reflexivity.
Qed.

(** ** The statuses of a failing statement *)

Lemma fgetc_pushback f c f1 :
  fgetc f = (c, f1) -> (c =? EOF) = false -> pushback f1 1 = f.
Proof.
  destruct f as [d p]. unfold fgetc. simpl.
  destruct (nth_error d p) as [a|]; intros H He.
  - injection H as <- <-. apply pushback_S.
  - injection H as <- <-. discriminate.
Qed.

Lemma ParseQuotedString_loop_status fuel : forall f len f' s,
  ParseQuotedString_loop fuel f len = Some (f', Err s) -> s = UNEXPECTED_EOF.
Proof.
  induction fuel as [|n IH]; intros f len f' s H; [discriminate|].
  simpl in H. destruct (fgetc f) as [c f1].
  destruct (c =? EOF); [congruence|].
  destruct (c =? 39); [discriminate|]. eauto.
Qed.

Lemma ParseQuotedString_status fuel f f' s :
  ParseQuotedString fuel f = Some (f', Err s) -> s = UNEXPECTED_EOF.
Proof.
  unfold ParseQuotedString.
  destruct (ParseQuotedString_loop fuel f 0) as [[f1 [len|s1]]|] eqn:E;
    [| |discriminate].
  - destruct (fgets (len + 1) (pushback f1 (len + 1))) as [b f2].
    destruct (fgetc f2). discriminate.
  - intros H. injection H as <- <-. eapply ParseQuotedString_loop_status; eauto.
Qed.

Lemma ParseGenericNumber_loop_status fuel : forall f len fd fl f' s,
  ParseGenericNumber_loop fuel f len fd fl = Some (f', Err s) ->
  s = UNEXPECTED_TOKEN.
Proof.
  induction fuel as [|n IH]; intros f len fd fl f' s H; [discriminate|].
  simpl in H. destruct (fgetc f) as [c f1].
  destruct (c =? EOF); [congruence|].
  destruct (isdigit c || IsHexDigit c || (c =? 120) || (c =? 88)); [eauto|].
  destruct ((c =? 46) && fd); [eauto | discriminate].
Qed.

Lemma ParseGenericNumber_status fuel f f' s :
  ParseGenericNumber fuel f = Some (f', Err s) ->
  s = UNEXPECTED_TOKEN \/ s = INVALID_INTEGER_LITERAL \/ s = INVALID_DECIMAL_LITERAL.
Proof.
  unfold ParseGenericNumber.
  destruct (ParseGenericNumber_loop fuel f 0 true false) as [[f1 [[len fl]|s1]]|] eqn:E;
    [| |discriminate].
  - destruct (fgets (len + 1) (pushback f1 len)) as [b f2].
    destruct fl.
    + destruct (strtod (cstring b)) as [x endptr].
      destruct (negb (is_nil endptr)); [|discriminate].
      intros H. injection H as <- <-. auto.
    + destruct (strtol (cstring b)) as [x endptr].
      destruct (negb (is_nil endptr)); [|discriminate].
      intros H. injection H as <- <-. auto.
  - intros H. injection H as <- <-. left.
    eapply ParseGenericNumber_loop_status; eauto.
Qed.

Lemma ParseValue_status fuel f f' s :
  ParseValue fuel f = Some (f', Err s) ->
  s = UNEXPECTED_EOF \/ s = UNEXPECTED_TOKEN
  \/ s = INVALID_INTEGER_LITERAL \/ s = INVALID_DECIMAL_LITERAL.
Proof.
  unfold ParseValue. destruct (fgetc f) as [c f1].
  destruct (c =? EOF); [intros H; injection H as <- <-; auto|].
  destruct (c =? 39).
  - destruct (ParseQuotedString fuel f1) as [[f2 [str|s1]]|] eqn:E;
      [discriminate| |discriminate].
    intros H. injection H as <- <-. left. eapply ParseQuotedString_status; eauto.
  - destruct (isdigit c).
    + intros H. apply ParseGenericNumber_status in H. tauto.
    + intros H. injection H as <- <-. auto.
Qed.

Lemma ParseVector_loop_status fuel : forall f vec more f' s,
  ParseVector_loop fuel f vec more = Some (f', Err s) ->
  s = UNEXPECTED_EOF \/ s = UNEXPECTED_TOKEN \/ s = INVALID_ARRAY_ELEMENT.
Proof.
  induction fuel as [|n IH]; intros f vec more f' s H; [discriminate|].
  simpl in H. destruct (consumeSpace n f) as [f1|]; [|discriminate].
  destruct (fgetc f1) as [c f2].
  destruct (c =? EOF); [injection H as <- <-; auto|].
  destruct (c =? 93); [discriminate|].
  destruct (c =? 44); [eauto|].
  destruct (negb more); [injection H as <- <-; auto|].
  destruct (ParseValue n (pushback f2 1)) as [[f3 [pv|s1]]|]; [| |discriminate].
  - eauto.
  - injection H as <- <-. auto.
Qed.

(** A failure of [ParseConfigLine] on a stream that starts with a letter is
    never [INVALID_CONFIG_KEY]. *)
Lemma ParseConfigLine_status fuel f c f1 f' s :
  fgetc f = (c, f1) -> isalpha c = true ->
  ParseConfigLine fuel f = Some (f', Err s) ->
  s <> INVALID_CONFIG_KEY.
Proof.
  intros Hc Ha. unfold ParseConfigLine, ParseString, consumeLetter.
  rewrite Hc, Ha. cbn [negb]. cbv iota. change (1 <? 0) with false. cbv iota.
  destruct (ParseString_loop fuel f1 1) as [[f2 len]|]; [|discriminate].
  destruct (fgets (len + 1) (pushback f2 len)) as [key f3].
  destruct (consumeSpace fuel f3) as [f4|]; [|discriminate].
  destruct (expect f4 61) as [r f5].
  destruct (r <? 0); [intros H; injection H as <- <-; discriminate|].
  destruct (consumeSpace fuel f5) as [f6|]; [|discriminate].
  destruct (fgetc f6) as [ch f7].
  destruct (ch =? EOF); [intros H; injection H as <- <-; discriminate|].
  destruct (ch =? 91).
  - destruct (ParseVector fuel f7) as [[f8 q]|] eqn:E; [|discriminate].
    destruct (consumeSpace fuel f8) as [f9|]; [|discriminate].
    destruct (expect f9 59) as [r2 f10].
    destruct (r2 <? 0); [intros H; injection H as <- <-; discriminate|].
    destruct q as [vec|s1]; [discriminate|].
    intros H. injection H as <- <-.
    apply ParseVector_loop_status in E.
    destruct E as [-> | [-> | ->]]; discriminate.
  - destruct (ParseValue fuel (pushback f7 1)) as [[f8 q]|] eqn:E; [|discriminate].
    destruct (consumeSpace fuel f8) as [f9|]; [|discriminate].
    destruct (expect f9 59) as [r2 f10].
    destruct (r2 <? 0); [intros H; injection H as <- <-; discriminate|].
    destruct q as [pv|s1]; [discriminate|].
    intros H. injection H as <- <-.
    apply ParseValue_status in E.
    destruct E as [-> | [-> | [-> | ->]]]; discriminate.
Qed.

Lemma ParseCfg_status fuel : forall f f' s,
  ParseCfg fuel f = Some (f', Err s) -> s <> INVALID_CONFIG_KEY.
Proof.
  induction fuel as [|n IH]; intros f f' s H; [discriminate|].
  simpl in H. destruct (fgetc f) as [c f1] eqn:Hc.
  destruct (c =? EOF) eqn:He; [injection H as <- <-; discriminate|].
  destruct (c =? 10); [discriminate|].
  destruct (isspace c); [eauto|].
  destruct (c =? 35).
  - destruct (ParseComment n f1); discriminate.
  - destruct (isalpha c) eqn:Ha; [|injection H as <- <-; discriminate].
    rewrite (fgetc_pushback _ _ _ Hc He) in H.
    destruct (ParseConfigLine n f) as [[f2 [e|s1]]|] eqn:E; [discriminate| |discriminate].
    injection H as <- <-.
    eapply ParseConfigLine_status; eauto.
Qed.

Lemma parses_not_invalid_key src : ~ parses src (Err INVALID_CONFIG_KEY).
Proof.
  intros H. apply parses_turns in H.
  destruct H as (es & f' & o & _ & Hl & Hr).
  destruct Hl as [f0 _ | f0 c f1 fuel f2 s Hc He Hsp Hcfg]; [discriminate|].
  simpl in Hr. injection Hr as <-.
  exact (ParseCfg_status _ _ _ _ Hcfg eq_refl).
Qed.

Lemma ParseConfigLine_no_letter fuel f :
  isalpha (fst (fgetc f)) = false ->
  ParseConfigLine fuel f = Some (snd (fgetc f), Err INVALID_CONFIG_KEY).
Proof.
  intros H. unfold ParseConfigLine, ParseString, consumeLetter.
  destruct (fgetc f) as [c f1]. simpl in H. rewrite H. reflexivity.
Qed.

Lemma parses_no_letter src es p ws c post :
  forallb space_char ws = true ->
  space_char c = false ->
  isalpha (int_of_char c) = false ->
  is_char 35 c = false ->
  turns (fopen src) es (mkFILE src p) ->
  skipn p src = ws ++ c :: post ->
  parses src (Err UNEXPECTED_TOKEN).
Proof.
  intros Hws Hsp Ha Hc Hturns Hsrc.
  apply parses_turns.
  exists es, (mkFILE src (p + length ws)), (Some UNEXPECTED_TOKEN).
  pose proof (skipn_app_length _ _ _ _ Hsrc) as H.
  splits; [| |reflexivity].
  - rewrite <- (app_nil_r es).
    apply (turns_app _ _ _ _ _ Hturns).
    apply (turns_spaces _ ws p (c :: post)); [exact Hsrc | exact Hws].
  - eapply (leaves_fail _ _ _ 1%nat).
    + apply (fgetc_cons _ _ _ _ H).
    + apply int_of_char_not_EOF.
    + exact Hsp.
    + rewrite pushback_S. cbn [ParseCfg]. rewrite (fgetc_cons _ _ _ _ H).
      rewrite int_of_char_not_EOF.
      unfold space_char in Hsp. unfold is_char in Hc.
      replace (int_of_char c =? 10) with false by (unfold isspace in Hsp; lia).
      rewrite Hsp, Hc, Ha. reflexivity.
Qed.

(** C6, as the code has it: [ParseConfigLine] does return
    [INVALID_CONFIG_KEY] when the stream does not start with a letter, but
    [ParseCfg] calls it on a letter only.  Let the builder, having parsed
    the entries [es] of the source, be at its top at offset [p], where
    white space [ws] and then a statement follow whose first byte [c] is
    neither white space, nor [#], nor a letter.  Then the parse of the
    source fails with [UNEXPECTED_TOKEN]; [ParseConfigLine] on that byte
    would read it and return [INVALID_CONFIG_KEY]; and no parse of any
    source fails with [INVALID_CONFIG_KEY]. *)
Theorem C6_non_letter_is_unexpected_token src es p ws c post :
  forallb space_char ws = true ->
  space_char c = false ->
  isalpha (int_of_char c) = false ->
  is_char 35 c = false ->
  turns (fopen src) es (mkFILE src p) ->
  skipn p src = ws ++ c :: post ->
  parses src (Err UNEXPECTED_TOKEN)
  /\ (forall r, parses src r -> r = Err UNEXPECTED_TOKEN)
  /\ (forall fuel,
        ParseConfigLine fuel (mkFILE src (p + length ws))
        = Some (mkFILE src (S (p + length ws)), Err INVALID_CONFIG_KEY))
  /\ (forall src', ~ parses src' (Err INVALID_CONFIG_KEY)).
Proof.
  intros Hws Hsp Ha Hc Hturns Hsrc.
  pose proof (parses_no_letter src es p ws c post Hws Hsp Ha Hc Hturns Hsrc)
    as Hfails.
  splits.
  - exact Hfails.
  - intros r Hr. exact (parses_functional _ _ _ Hr Hfails).
  - intros fuel.
    pose proof (skipn_app_length _ _ _ _ Hsrc) as H.
    rewrite ParseConfigLine_no_letter; rewrite (fgetc_cons _ _ _ _ H); auto.
  - apply parses_not_invalid_key.
Qed.

(** C6 as claimed fails: the statement [1k = 2;] starts with a digit and
    the parse returns [UNEXPECTED_TOKEN], not [INVALID_CONFIG_KEY], when
    the statement is the first of the document and when it follows
    another. *)
Lemma C6_counterexample :
  parses (bytes "1k = 2;") (Err UNEXPECTED_TOKEN)
  /\ ~ parses (bytes "1k = 2;") (Err INVALID_CONFIG_KEY)
  /\ parses (bytes "a = 1; 1k = 2;") (Err UNEXPECTED_TOKEN)
  /\ ~ parses (bytes "a = 1; 1k = 2;") (Err INVALID_CONFIG_KEY).
Proof.
  assert (H : parses (bytes "1k = 2;") (Err UNEXPECTED_TOKEN))
    by (exists 5%nat; vm_compute; reflexivity).
  assert (H2 : parses (bytes "a = 1; 1k = 2;") (Err UNEXPECTED_TOKEN))
    by (exists 20%nat; vm_compute; reflexivity).
  splits.
  - exact H.
  - intros H'. pose proof (parses_functional _ _ _ H H'). discriminate.
  - exact H2.
  - intros H'. pose proof (parses_functional _ _ _ H2 H'). discriminate.
Qed.

(** ** Checks on sample inputs *)

Ltac turn_entry n :=
  eapply (turns_entry _ _ _ n);
  [vm_compute; reflexivity | reflexivity | reflexivity | vm_compute; reflexivity | ].

Ltac turn_space :=
  eapply turns_space; [vm_compute; reflexivity | reflexivity | ].

Lemma C6_non_letter_is_unexpected_token_witness :
  parses (bytes "a = 1; 1k = 2;") (Err UNEXPECTED_TOKEN)
  /\ (forall r, parses (bytes "a = 1; 1k = 2;") r -> r = Err UNEXPECTED_TOKEN)
  /\ (forall fuel,
        ParseConfigLine fuel (mkFILE (bytes "a = 1; 1k = 2;") (6 + length (bytes " ")))
        = Some (mkFILE (bytes "a = 1; 1k = 2;") (S (6 + length (bytes " "))),
                Err INVALID_CONFIG_KEY))
  /\ (forall src', ~ parses src' (Err INVALID_CONFIG_KEY)).
Proof.
  apply (C6_non_letter_is_unexpected_token (bytes "a = 1; 1k = 2;")
           [integer_entry (bytes "a") 1] 6 (bytes " ") "1"%char (bytes "k = 2;")).
  - reflexivity.
  - reflexivity.
  - reflexivity.
  - reflexivity.
  - turn_entry 10%nat. apply turns_done.
  - reflexivity.
Defined.

Lemma C1_integer_statement_found_witness :
  turns (fopen src_two_statements)
        ([integer_entry (bytes "a") 1] ++ [integer_entry (bytes "k") 42])
        (mkFILE src_two_statements
                (7 + length (integer_statement (bytes "k") (bytes " ") (bytes " ")
                                               (bytes "0x2A") (bytes " "))))
  /\ (forallb space_char [] = true ->
      parses src_two_statements
        (Ok (mkConfig
               (length ([integer_entry (bytes "a") 1] ++ [integer_entry (bytes "k") 42]))
               ([integer_entry (bytes "a") 1] ++ [integer_entry (bytes "k") 42]))))
  /\ (forall config,
        parses src_two_statements (Ok config) ->
        FindValue config PRIMITIVE_TYPE (bytes "k") = Some (Primitive (Number 42))).
Proof.
  apply (C1_integer_statement_found src_two_statements 7
           [integer_entry (bytes "a") 1] [] (bytes "k") (bytes " ") (bytes " ")
           (bytes "0x2A") (bytes " ") 42).
  - reflexivity.
  - exact (lit_hex "0"%char "x"%char "2"%char ["A"%char] eq_refl eq_refl eq_refl).
  - vm_compute. discriminate.
  - reflexivity.
  - reflexivity.
  - reflexivity.
  - turn_entry 10%nat. turn_space. apply turns_done.
  - reflexivity.
  - reflexivity.
Defined.

Lemma C5_find_first_match_witness :
  FindValue (mkConfig 2 [integer_entry (bytes "k") 1; integer_entry (bytes "k") 2])
            PRIMITIVE_TYPE (bytes "k")
  = Some (Primitive (Number 1))
  /\ parses src_duplicate_key
       (Ok (mkConfig 2 [integer_entry (bytes "k") 1; integer_entry (bytes "k") 2])).
Proof.
  split.
  - apply (proj1 (C5_find_first_match
                    (mkConfig 2 [integer_entry (bytes "k") 1;
                                 integer_entry (bytes "k") 2])
                    PRIMITIVE_TYPE (bytes "k")) 0%nat (integer_entry (bytes "k") 1)).
    unfold first_match, entry_matches. simpl. splits; try reflexivity; lia.
  - exists 20%nat. vm_compute. reflexivity.
Defined.

Lemma C8_builder_order_count_fail_fast_witness :
  parses src_two_statements
    (Ok (mkConfig 2 [integer_entry (bytes "a") 1; integer_entry (bytes "k") 42])).
Proof.
  apply (proj2 (C8_builder_order_count_fail_fast src_two_statements _)).
  exists [integer_entry (bytes "a") 1; integer_entry (bytes "k") 42],
         (mkFILE src_two_statements 17), None.
  splits.
  - turn_entry 10%nat. turn_space. turn_entry 10%nat. apply turns_done.
  - apply leaves_eof. reflexivity.
  - reflexivity.
Defined.

(** ** End of input inside a token *)

Lemma ParseQuotedString_loop_unterminated d s : forall p len fuel,
  skipn p d = s ->
  forallb (fun a => negb (is_char 39 a)) s = true ->
  (length s < fuel)%nat ->
  ParseQuotedString_loop fuel (mkFILE d p) len
  = Some (mkFILE d (p + length s), Err UNEXPECTED_EOF).
Proof.
  induction s as [|a s IH]; intros p len fuel H Hs Hfuel;
    (destruct fuel as [|fuel]; [simpl in Hfuel; lia|]).
  - simpl. rewrite (fgetc_nil _ _ H), Nat.add_0_r. reflexivity.
  - apply forallb_cons_inv in Hs. destruct Hs as [Ha Hs].
    unfold is_char in Ha. apply negb_true_iff in Ha.
    cbn [ParseQuotedString_loop].
    rewrite (fgetc_cons _ _ _ _ H), int_of_char_not_EOF, Ha.
    rewrite (IH (S p) (S len) fuel).
    + do 3 f_equal. simpl. lia.
    + eapply skipn_cons_S. exact H.
    + exact Hs.
    + simpl in Hfuel. lia.
Qed.

(** The quoted string parser alone: no closing quote before the end of the
    input gives [UNEXPECTED_EOF]. *)
Lemma ParseQuotedString_unterminated d p fuel :
  forallb (fun a => negb (is_char 39 a)) (skipn p d) = true ->
  (length (skipn p d) < fuel)%nat ->
  ParseQuotedString fuel (mkFILE d p)
  = Some (mkFILE d (p + length (skipn p d)), Err UNEXPECTED_EOF).
Proof.
  intros Hs Hfuel. unfold ParseQuotedString.
  rewrite (ParseQuotedString_loop_unterminated d (skipn p d) p 0 fuel eq_refl Hs Hfuel).
  reflexivity.
Qed.



(** A string at top level that is still open at the end of the input: the
    quoted string parser returns [UNEXPECTED_EOF] on [k = 'abc], but
    [ParseConfigLine] goes on to the check for [;], which un-reads and
    re-reads the last byte [c], and the parse returns [UNEXPECTED_TOKEN];
    only when the last byte of the input is [;] does [UNEXPECTED_EOF] reach
    the caller. *)
Lemma open_string_statement_status :
  ParseQuotedString 10 (mkFILE src_open_string 5)
  = Some (mkFILE src_open_string 8, Err UNEXPECTED_EOF)
  /\ consumeSpace 10 (mkFILE src_open_string 8) = Some (mkFILE src_open_string 7)
  /\ parses src_open_string (Err UNEXPECTED_TOKEN)
  /\ parses (bytes "k = 'abc;") (Err UNEXPECTED_EOF).
Proof.
  splits;
    match goal with
    | |- parses _ _ => exists 20%nat; vm_compute; reflexivity
    | |- _ => vm_compute; reflexivity
    end.
Qed.

(** C7, as the code has it: when the input ends before the closing quote,
    the quoted string parser returns [UNEXPECTED_EOF], and so does
    [ParseValue], which consumed the opening quote; [ParseVector] turns the
    failure of such an element into [INVALID_ARRAY_ELEMENT]. *)
Theorem C7_open_string_is_unexpected_eof d p s fuel vec :
  skipn p d = "'"%char :: s ->
  forallb (fun a => negb (is_char 39 a)) s = true ->
  (length s + 1 < fuel)%nat ->
  ParseQuotedString fuel (mkFILE d (S p))
  = Some (mkFILE d (S p + length s), Err UNEXPECTED_EOF)
  /\ ParseValue fuel (mkFILE d p)
     = Some (mkFILE d (S p + length s), Err UNEXPECTED_EOF)
  /\ ParseVector_loop (S fuel) (mkFILE d p) vec true
     = Some (mkFILE d (S p + length s), Err INVALID_ARRAY_ELEMENT).
Proof.
  intros H Hs Hfuel.
  pose proof (skipn_cons_S _ _ _ _ H) as H'.
  assert (Hq : ParseQuotedString fuel (mkFILE d (S p))
               = Some (mkFILE d (S p + length s), Err UNEXPECTED_EOF)).
  { pose proof (ParseQuotedString_unterminated d (S p) fuel) as Hu.
    rewrite H' in Hu. apply Hu; [exact Hs | lia]. }
  assert (Hv : ParseValue fuel (mkFILE d p)
               = Some (mkFILE d (S p + length s), Err UNEXPECTED_EOF)).
  { unfold ParseValue. rewrite (fgetc_cons _ _ _ _ H), int_of_char_not_EOF.
    change (int_of_char "'"%char =? 39) with true. cbv iota.
    rewrite Hq. reflexivity. }
  splits; [exact Hq | exact Hv |].
  cbn [ParseVector_loop].
  rewrite (consumeSpace_stay d p _ _ fuel H eq_refl) by lia.
  rewrite (fgetc_cons _ _ _ _ H), int_of_char_not_EOF.
  change (int_of_char "'"%char =? 93) with false.
  change (int_of_char "'"%char =? 44) with false. cbv iota.
  cbn [negb]. cbv iota. rewrite pushback_S, Hv. reflexivity.
Qed.

Lemma C7_open_string_is_unexpected_eof_witness :
  ParseQuotedString 10 (mkFILE src_open_string (S 4))
  = Some (mkFILE src_open_string (S 4 + length (bytes "abc")), Err UNEXPECTED_EOF)
  /\ ParseValue 10 (mkFILE src_open_string 4)
     = Some (mkFILE src_open_string (S 4 + length (bytes "abc")), Err UNEXPECTED_EOF)
  /\ ParseVector_loop (S 10) (mkFILE src_open_string 4) (mkVector 0 []) true
     = Some (mkFILE src_open_string (S 4 + length (bytes "abc")),
             Err INVALID_ARRAY_ELEMENT).
Proof.
  apply (C7_open_string_is_unexpected_eof src_open_string 4 (bytes "abc") 10
           (mkVector 0 [])); [reflexivity | reflexivity | simpl; lia].
Defined.

(** C7 as claimed fails: in [k = ['abc;] the string is an array element
    that is still open at the end of the input, and the parse returns
    [INVALID_ARRAY_ELEMENT], not [UNEXPECTED_EOF]. *)
Lemma C7_counterexample :
  parses (bytes "k = ['abc;") (Err INVALID_ARRAY_ELEMENT)
  /\ ~ parses (bytes "k = ['abc;") (Err UNEXPECTED_EOF).
Proof.
  assert (H : parses (bytes "k = ['abc;") (Err INVALID_ARRAY_ELEMENT))
    by (exists 20%nat; vm_compute; reflexivity).
  split; [exact H|].
  intros H'. pose proof (parses_functional _ _ _ H H'). discriminate.
Qed.

(** C10: on [k = [12] the numeric parser returns [UNEXPECTED_TOKEN] at the
    end of the input and [ParseVector] turns it into
    [INVALID_ARRAY_ELEMENT], but [ParseConfigLine] goes on to the check for
    [;], which un-reads and re-reads the last byte [2], and the parse
    returns [UNEXPECTED_TOKEN]. *)
Theorem C10_open_number_status :
  ParseGenericNumber 10 (mkFILE src_open_number 5)
  = Some (mkFILE src_open_number 7, Err UNEXPECTED_TOKEN)
  /\ ParseVector 10 (mkFILE src_open_number 5)
     = Some (mkFILE src_open_number 7, Err INVALID_ARRAY_ELEMENT)
  /\ consumeSpace 10 (mkFILE src_open_number 7) = Some (mkFILE src_open_number 6)
  /\ parses src_open_number (Err UNEXPECTED_TOKEN).
Proof.
  splits;
    match goal with
    | |- parses _ _ => exists 20%nat; vm_compute; reflexivity
    | |- _ => vm_compute; reflexivity
    end.
Qed.

(** ** Printing and reading back numbers *)

Lemma int_of_char_digit_char d :
  0 <= d <= 9 -> int_of_char (digit_char d) = 48 + d.
Proof.
  intros H. unfold int_of_char, digit_char.
  rewrite N_ascii_embedding by lia. lia.
Qed.

Lemma digit_char_base_digit d : 0 <= d <= 9 -> base_digit 10 (digit_char d) = true.
Proof.
  intros H. unfold base_digit, digit_value, isdigit.
  rewrite int_of_char_digit_char by exact H.
  replace ((48 <=? 48 + d) && (48 + d <=? 57)) with true by lia. lia.
Qed.

Lemma digit_of_digit_char d : 0 <= d <= 9 -> digit_of (digit_char d) = d.
Proof.
  intros H. unfold digit_of, digit_value, isdigit.
  rewrite int_of_char_digit_char by exact H.
  replace ((48 <=? 48 + d) && (48 + d <=? 57)) with true by lia. lia.
Qed.

Lemma value_in_base_snoc base ds a :
  value_in_base base (ds ++ [a]) = value_in_base base ds * base + digit_of a.
Proof. unfold value_in_base. rewrite fold_left_app. reflexivity. Qed.

(** The digits that [print_digits] puts in front of [acc]. *)
Lemma print_digits_spec fuel : forall n acc,
  (0 < fuel)%nat ->
  0 <= n < 2 ^ Z.of_nat fuel ->
  exists a ds,
    print_digits fuel n acc = (a :: ds) ++ acc
    /\ forallb (base_digit 10) (a :: ds) = true
    /\ value_in_base 10 (a :: ds) = n
    /\ (0 < n -> is_char 48 a = false)
    /\ (n = 0 -> ds = [] /\ is_char 48 a = true).
Proof.
  induction fuel as [|f IH]; intros n acc Hfuel Hn.
  - lia.
  - cbn [print_digits].
    assert (Hmod : 0 <= n mod 10 <= 9) by (pose proof (Z.mod_pos_bound n 10); lia).
    destruct (n <? 10) eqn:E.
    + apply Z.ltb_lt in E.
      exists (digit_char (n mod 10)), []. rewrite Z.mod_small by lia.
      splits.
      * reflexivity.
      * simpl. rewrite digit_char_base_digit by lia. reflexivity.
      * unfold value_in_base. simpl. rewrite digit_of_digit_char by lia. lia.
      * intros Hpos. unfold is_char. rewrite int_of_char_digit_char by lia. lia.
      * intros ->. split; [reflexivity|]. reflexivity.
    + apply Z.ltb_ge in E.
      assert (Hdiv : 0 <= n / 10 < 2 ^ Z.of_nat f).
      { split; [apply Z.div_pos; lia|].
        rewrite Nat2Z.inj_succ, Z.pow_succ_r in Hn by lia.
        apply Z.div_lt_upper_bound; lia. }
      assert (Hf : (0 < f)%nat).
      { destruct f; [|lia]. simpl in Hn. lia. }
      destruct (IH (n / 10) (digit_char (n mod 10) :: acc) Hf Hdiv)
        as (a & ds & Heq & Hall & Hval & Hnz & _).
      exists a, (ds ++ [digit_char (n mod 10)]). splits.
      * rewrite Heq. simpl. rewrite <- app_assoc. reflexivity.
      * change (a :: ds ++ [digit_char (n mod 10)])
          with ((a :: ds) ++ [digit_char (n mod 10)]).
        rewrite forallb_app, Hall. simpl.
        rewrite digit_char_base_digit by lia. reflexivity.
      * change (a :: ds ++ [digit_char (n mod 10)])
          with ((a :: ds) ++ [digit_char (n mod 10)]).
        rewrite value_in_base_snoc, Hval, digit_of_digit_char by lia.
        pose proof (Z.div_mod n 10). lia.
      * intros _. apply Hnz.
        assert (1 <= n / 10) by (apply Z.div_le_lower_bound; lia). lia.
      * intros ->. lia.
Qed.

Lemma print_unsigned_spec n :
  0 <= n ->
  exists a ds,
    print_unsigned n = a :: ds
    /\ forallb (base_digit 10) (a :: ds) = true
    /\ value_in_base 10 (a :: ds) = n
    /\ (0 < n -> is_char 48 a = false)
    /\ (n = 0 -> ds = [] /\ is_char 48 a = true).
Proof.
  intros Hn. unfold print_unsigned.
  destruct (print_digits_spec (S (Z.to_nat (Z.log2 n))) n []) as (a & ds & H & Hrest).
  - lia.
  - split; [exact Hn|].
    rewrite Nat2Z.inj_succ, Z2Nat.id by apply Z.log2_nonneg.
    destruct (Z.eq_dec n 0) as [->|Hne]; [reflexivity|].
    apply Z.log2_spec. lia.
  - exists a, ds. rewrite H, app_nil_r. auto.
Qed.

(** The text of [%ld] for a non-negative number is a literal of that
    number. *)
Lemma print_ld_literal n : 0 <= n -> int_literal (print_ld n) n.
Proof.
  intros Hn. unfold print_ld. replace (n <? 0) with false by lia.
  destruct (print_unsigned_spec n Hn) as (a & ds & -> & Hall & Hval & Hpos & Hzero).
  destruct (Z.eq_dec n 0) as [->|Hne].
  - destruct (Hzero eq_refl) as [-> Ha].
    exact (lit_octal a [] Ha eq_refl).
  - rewrite <- Hval. apply forallb_cons_inv in Hall. destruct Hall as [Ha Hds].
    apply lit_decimal; auto.
    + apply base_digit_10_isdigit. exact Ha.
    + apply Hpos. lia.
Qed.

Lemma print_digits_digits fuel : forall n acc,
  exists ds,
    print_digits fuel n acc = ds ++ acc
    /\ forallb (base_digit 10) ds = true
    /\ ((0 < fuel)%nat -> ds <> []).
Proof.
  induction fuel as [|f IH]; intros n acc.
  - exists []. splits; auto. lia.
  - cbn [print_digits].
    assert (Hmod : 0 <= n mod 10 <= 9) by (pose proof (Z.mod_pos_bound n 10); lia).
    destruct (n <? 10).
    + exists [digit_char (n mod 10)]. splits; [reflexivity| |discriminate].
      simpl. rewrite digit_char_base_digit by lia. reflexivity.
    + destruct (IH (n / 10) (digit_char (n mod 10) :: acc)) as (ds & Heq & Hall & _).
      exists (ds ++ [digit_char (n mod 10)]). splits.
      * rewrite Heq, <- app_assoc. reflexivity.
      * rewrite forallb_app, Hall. simpl.
        rewrite digit_char_base_digit by lia. reflexivity.
      * intros _. destruct ds; discriminate.
Qed.

Lemma print_unsigned_digits n :
  exists a ds, print_unsigned n = a :: ds /\ forallb (base_digit 10) (a :: ds) = true.
Proof.
  unfold print_unsigned.
  destruct (print_digits_digits (S (Z.to_nat (Z.log2 n))) n []) as (ds & H & Hall & Hne).
  rewrite app_nil_r in H. destruct ds as [|a ds]; [exfalso; apply Hne; [lia|reflexivity]|].
  exists a, ds. auto.
Qed.

Lemma print_fixed_digits k : forall n acc,
  exists ds, print_fixed k n acc = ds ++ acc /\ forallb (base_digit 10) ds = true.
Proof.
  induction k as [|k IH]; intros n acc.
  - exists []. auto.
  - cbn [print_fixed].
    assert (Hmod : 0 <= n mod 10 <= 9) by (pose proof (Z.mod_pos_bound n 10); lia).
    destruct (IH (n / 10) (digit_char (n mod 10) :: acc)) as (ds & Heq & Hall).
    exists (ds ++ [digit_char (n mod 10)]). split.
    + rewrite Heq, <- app_assoc. reflexivity.
    + rewrite forallb_app, Hall. simpl.
      rewrite digit_char_base_digit by lia. reflexivity.
Qed.

(** The text of [%lf] for a finite double: digits, a point, digits. *)
Lemma print_lf_shape m e :
  exists a ip fp,
    print_lf (DFinite m e) = (a :: ip) ++ "."%char :: fp
    /\ forallb (base_digit 10) (a :: ip) = true
    /\ forallb (base_digit 10) fp = true.
Proof.
  unfold print_lf.
  set (scaled := if 0 <=? e then m * 2 ^ e * 10 ^ 6
                 else round_half_even (m * 10 ^ 6) (2 ^ (- e))).
  destruct (print_unsigned_digits (scaled / 10 ^ 6)) as (a & ip & -> & Hip).
  destruct (print_fixed_digits 6 (scaled mod 10 ^ 6) []) as (fp & -> & Hfp).
  exists a, ip, fp. rewrite app_nil_r. auto.
Qed.

Lemma lf_stable_finite d : lf_stable d -> exists m e, d = DFinite m e.
Proof.
  destruct d as [m e|]; [eauto|]. unfold lf_stable. vm_compute. discriminate.
Qed.

(** ** Forward runs on printed values *)

Lemma ParseQuotedString_loop_run d s : forall p rest len fuel,
  skipn p d = s ++ "'"%char :: rest ->
  forallb (fun a => negb (is_char 39 a)) s = true ->
  (length s < fuel)%nat ->
  ParseQuotedString_loop fuel (mkFILE d p) len
  = Some (mkFILE d (p + length s + 1), Ok (len + length s)%nat).
Proof.
  induction s as [|a s IH]; intros p rest len fuel H Hs Hfuel;
    (destruct fuel as [|fuel]; [simpl in Hfuel; lia|]).
  - simpl in H. cbn [ParseQuotedString_loop].
    rewrite (fgetc_cons _ _ _ _ H), int_of_char_not_EOF.
    change (int_of_char "'"%char =? 39) with true. cbv iota.
    do 3 f_equal; simpl; lia.
  - apply forallb_cons_inv in Hs. destruct Hs as [Ha Hs].
    unfold is_char in Ha. apply negb_true_iff in Ha.
    simpl in H. cbn [ParseQuotedString_loop].
    rewrite (fgetc_cons _ _ _ _ H), int_of_char_not_EOF, Ha.
    rewrite (IH (S p) rest (S len) fuel).
    + do 3 f_equal; simpl; lia.
    + eapply skipn_cons_S. exact H.
    + exact Hs.
    + simpl in Hfuel. lia.
Qed.

Lemma ParseQuotedString_run d p s rest fuel :
  skipn p d = s ++ "'"%char :: rest ->
  wf_string s ->
  (length s < fuel)%nat ->
  ParseQuotedString fuel (mkFILE d p) = Some (mkFILE d (p + length s + 1), Ok s).
Proof.
  intros H (Hq & Hnul & Hnl) Hfuel. unfold ParseQuotedString.
  rewrite (ParseQuotedString_loop_run d s p rest 0 fuel H Hq Hfuel).
  replace (p + length s + 1)%nat with (p + (0 + length s + 1))%nat by lia.
  rewrite pushback_add. simpl Nat.add.
  rewrite (fgets_token d p s _ H Hnl).
  apply skipn_app_length in H.
  rewrite (fgetc_cons _ _ _ _ H), (cstring_no_nul _ Hnul).
  do 3 f_equal. lia.
Qed.

Lemma ParseGenericNumber_run_decimal d p ip fp rest fuel :
  skipn p d = ip ++ "."%char :: fp ++ rest ->
  forallb number_char ip = true ->
  forallb number_char fp = true ->
  (exists c r, rest = c :: r /\ number_char c = false) ->
  (length ip + 1 + length fp < fuel)%nat ->
  ParseGenericNumber fuel (mkFILE d p)
  = Some (mkFILE d (p + length (ip ++ "."%char :: fp)),
          let (x, endptr) := strtod (ip ++ "."%char :: fp) in
          if negb (is_nil endptr) then Err INVALID_DECIMAL_LITERAL
          else Ok (Decimal x)).
Proof.
  intros H Hip Hfp (c & r & -> & Hc) Hfuel.
  assert (Htok : skipn p d = (ip ++ "."%char :: fp) ++ c :: r).
  { rewrite H, <- app_assoc. reflexivity. }
  assert (Hlen : length (ip ++ "."%char :: fp) = (length ip + 1 + length fp)%nat).
  { rewrite length_app. simpl. lia. }
  unfold ParseGenericNumber.
  replace fuel with (length ip + S (length fp + S (fuel - length ip - length fp - 2)))%nat
    by lia.
  rewrite (ParseGenericNumber_loop_chars d ip p _ _ _ _ _ H Hip).
  pose proof (skipn_app_length _ _ _ _ H) as H1.
  rewrite (ParseGenericNumber_loop_point d _ _ _ _ _ _ H1 eq_refl).
  pose proof (skipn_cons_S _ _ _ _ H1) as H2.
  rewrite (ParseGenericNumber_loop_chars d fp _ _ _ _ _ _ H2 Hfp).
  pose proof (skipn_app_length _ _ _ _ H2) as H3.
  rewrite (ParseGenericNumber_loop_stop d _ c r _ _ false true H3 Hc)
    by (rewrite andb_false_r; reflexivity).
  replace (S (p + length ip) + length fp)%nat
    with (p + length (ip ++ "."%char :: fp))%nat by lia.
  replace (S (0 + length ip) + length fp)%nat
    with (length (ip ++ "."%char :: fp)) by lia.
  rewrite pushback_add.
  assert (Hchars : forallb (fun a => number_char a || is_char 46 a)
                     (ip ++ "."%char :: fp) = true).
  { rewrite forallb_app. simpl.
    rewrite (forallb_impl number_char _ ip), (forallb_impl number_char _ fp); auto;
      intros a ->; reflexivity. }
  rewrite (fgets_token d p _ _ Htok).
  - rewrite cstring_no_nul.
    + destruct (strtod (ip ++ "."%char :: fp)) as [x endptr].
      destruct (negb (is_nil endptr)); reflexivity.
    + eapply forallb_impl; [|exact Hchars].
      intros a Ha. apply orb_true_iff in Ha. destruct Ha as [Ha|Ha].
      * apply number_char_not_nul. exact Ha.
      * unfold is_char in *. apply Z.eqb_eq in Ha. rewrite Ha. reflexivity.
  - apply forallb_removelast. eapply forallb_impl; [|exact Hchars].
    intros a Ha. apply orb_true_iff in Ha. destruct Ha as [Ha|Ha].
    + apply number_char_not_newline. exact Ha.
    + unfold is_char in *. apply Z.eqb_eq in Ha. rewrite Ha. reflexivity.
Qed.

Lemma delimiter_ends_number c :
  delimiter c = true -> number_char c = false /\ is_char 46 c = false.
Proof.
  unfold delimiter, number_char, is_char, isdigit, IsHexDigit, tolower, isupper.
  destruct ((65 <=? int_of_char c) && (int_of_char c <=? 90)) eqn:E; lia.
Qed.

Lemma ParseValue_run_printed d p pv c rest fuel :
  skipn p d = PrintPrimitive pv ++ c :: rest ->
  wf_primitive pv -> stable_primitive pv ->
  delimiter c = true ->
  (length (PrintPrimitive pv) < fuel)%nat ->
  ParseValue fuel (mkFILE d p)
  = Some (mkFILE d (p + length (PrintPrimitive pv)), Ok pv).
Proof.
  intros H Hwf Hst Hc Hfuel.
  destruct (delimiter_ends_number _ Hc) as [Hcn Hcp].
  destruct pv as [n | x | s].
  - simpl in *.
    eapply ParseValue_run_integer;
      [exact H | apply print_ld_literal; lia | lia | exists c, rest; auto
      | exact Hfuel].
  - simpl in *. destruct (lf_stable_finite _ Hst) as (m & e & ->).
    destruct (print_lf_shape m e) as (a & ip & fp & Heq & Hip & Hfp).
    unfold lf_stable in Hst. rewrite Heq in *.
    pose proof Hip as Ha. apply forallb_cons_inv in Ha. destruct Ha as [Ha _].
    apply base_digit_10_isdigit in Ha.
    assert (H' : skipn p d = (a :: ip) ++ "."%char :: fp ++ c :: rest).
    { rewrite H, <- app_assoc. reflexivity. }
    unfold ParseValue. rewrite (fgetc_cons d p a _ H'), int_of_char_not_EOF.
    replace (int_of_char a =? 39) with false by (unfold isdigit in Ha; lia).
    rewrite Ha, pushback_S.
    rewrite (ParseGenericNumber_run_decimal d p (a :: ip) fp (c :: rest) fuel H').
    + rewrite Hst. reflexivity.
    + eapply forallb_impl; [|exact Hip]. intros b. apply base_digit_number_char. lia.
    + eapply forallb_impl; [|exact Hfp]. intros b. apply base_digit_number_char. lia.
    + eauto.
    + rewrite length_app in Hfuel. simpl in *. lia.
  - simpl in *. unfold ParseValue.
    rewrite (fgetc_cons _ _ _ _ H), int_of_char_not_EOF.
    change (int_of_char "'"%char =? 39) with true. cbv iota.
    apply skipn_cons_S in H. rewrite <- app_assoc in H.
    rewrite (ParseQuotedString_run d (S p) s _ fuel H Hwf).
    + simpl. do 3 f_equal. rewrite length_app. simpl. lia.
    + rewrite length_app in Hfuel. simpl in Hfuel. lia.
Qed.

Lemma PrintPrimitive_head pv :
  wf_primitive pv -> stable_primitive pv ->
  exists a t,
    PrintPrimitive pv = a :: t
    /\ space_char a = false /\ is_char 91 a = false
    /\ is_char 93 a = false /\ is_char 44 a = false.
Proof.
  intros Hwf Hst.
  assert (Hdigit : forall a, isdigit (int_of_char a) = true ->
            space_char a = false /\ is_char 91 a = false
            /\ is_char 93 a = false /\ is_char 44 a = false).
  { intros a Ha. unfold space_char, is_char, isspace. unfold isdigit in Ha. lia. }
  destruct pv as [n | x | s]; simpl in *.
  - destruct (int_literal_chars _ _ (print_ld_literal n (proj1 Hwf)))
      as (_ & a & t & Heq & Ha).
    exists a, t. split; [exact Heq | apply Hdigit; exact Ha].
  - destruct (lf_stable_finite _ Hst) as (m & e & ->).
    destruct (print_lf_shape m e) as (a & ip & fp & Heq & Hip & _).
    apply forallb_cons_inv in Hip. destruct Hip as [Ha _].
    exists a, (ip ++ "."%char :: fp). split; [exact Heq|].
    apply Hdigit. apply base_digit_10_isdigit. exact Ha.
  - exists "'"%char, (s ++ ["'"%char]). splits; reflexivity.
Qed.

Lemma PrintPrimitive_nonempty pv :
  wf_primitive pv -> stable_primitive pv -> (0 < length (PrintPrimitive pv))%nat.
Proof.
  intros Hwf Hst. destruct (PrintPrimitive_head pv Hwf Hst) as (a & t & -> & _).
  simpl. lia.
Qed.

(** One element and the byte after it, from the top of the loop of
    [ParseVector] with [more] set. *)
Lemma ParseVector_loop_element d p pv c rest fuel vec :
  skipn p d = PrintPrimitive pv ++ c :: rest ->
  wf_primitive pv -> stable_primitive pv ->
  delimiter c = true ->
  (length (PrintPrimitive pv) + 1 < fuel)%nat ->
  ParseVector_loop (S fuel) (mkFILE d p) vec true
  = ParseVector_loop fuel (mkFILE d (p + length (PrintPrimitive pv)))
      (mkVector (S (Length vec)) (Data vec ++ [pv])) false.
Proof.
  intros H Hwf Hst Hc Hfuel.
  destruct (PrintPrimitive_head pv Hwf Hst) as (a & t & Heq & Hsp & _ & Hb & Hcm).
  cbn [ParseVector_loop].
  assert (H' : skipn p d = a :: t ++ c :: rest) by (rewrite H, Heq; reflexivity).
  rewrite (consumeSpace_stay d p a _ fuel H' Hsp) by lia.
  rewrite (fgetc_cons _ _ _ _ H'), int_of_char_not_EOF.
  unfold is_char in Hb, Hcm. rewrite Hb, Hcm. cbn [negb]. cbv iota.
  rewrite pushback_S.
  rewrite (ParseValue_run_printed d p pv c rest fuel H Hwf Hst Hc) by lia.
  reflexivity.
Qed.

Lemma ParseVector_loop_run d els : forall p rest fuel vec,
  els <> [] ->
  skipn p d = PrintVector_loop els ++ "]"%char :: rest ->
  Forall wf_primitive els -> Forall stable_primitive els ->
  (length (PrintVector_loop els) + 2 < fuel)%nat ->
  ParseVector_loop fuel (mkFILE d p) vec true
  = Some (mkFILE d (p + length (PrintVector_loop els) + 1),
          Ok (mkVector (Length vec + length els) (Data vec ++ els))).
Proof.
  induction els as [|v els IH]; intros p rest fuel vec Hne H Hwf Hst Hfuel;
    [congruence|].
  inversion Hwf as [|v0 l0 Hwfv Hwfs]; subst.
  inversion Hst as [|v0 l0 Hstv Hsts]; subst.
  pose proof (PrintPrimitive_nonempty v Hwfv Hstv) as Hpos.
  destruct els as [|v2 els].
  - simpl in H, Hfuel |- *.
    destruct fuel as [|fuel]; [lia|].
    rewrite (ParseVector_loop_element d p v "]"%char rest fuel vec H Hwfv Hstv eq_refl)
      by lia.
    destruct fuel as [|fuel]; [lia|].
    apply skipn_app_length in H.
    cbn [ParseVector_loop].
    rewrite (consumeSpace_stay d _ _ _ fuel H eq_refl) by lia.
    rewrite (fgetc_cons _ _ _ _ H), int_of_char_not_EOF.
    change (int_of_char "]"%char =? 93) with true. cbv iota.
    cbn [length]. f_equal. f_equal; [f_equal; lia|]. f_equal. f_equal; lia.
  - change (PrintVector_loop (v :: v2 :: els))
      with (PrintPrimitive v ++ ","%char :: PrintVector_loop (v2 :: els)) in *.
    rewrite <- app_assoc in H. simpl in H.
    rewrite length_app in *. cbn [length] in *.
    destruct fuel as [|fuel]; [lia|].
    rewrite (ParseVector_loop_element d p v ","%char _ fuel vec H Hwfv Hstv eq_refl)
      by lia.
    destruct fuel as [|fuel]; [lia|].
    apply skipn_app_length in H.
    cbn [ParseVector_loop].
    rewrite (consumeSpace_stay d _ _ _ fuel H eq_refl) by lia.
    rewrite (fgetc_cons _ _ _ _ H), int_of_char_not_EOF.
    change (int_of_char ","%char =? 93) with false.
    change (int_of_char ","%char =? 44) with true. cbv iota.
    apply skipn_cons_S in H.
    rewrite (IH _ rest fuel _ ltac:(discriminate) H Hwfs Hsts) by lia.
    cbn [Length Data]. rewrite <- app_assoc. cbn [app].
    cbn [length]. f_equal. f_equal; [f_equal; lia|]. f_equal. f_equal; lia.
Qed.

Lemma ParseVector_run d p els rest fuel :
  skipn p d = PrintVector_loop els ++ "]"%char :: rest ->
  Forall wf_primitive els -> Forall stable_primitive els ->
  (length (PrintVector_loop els) + 2 < fuel)%nat ->
  ParseVector fuel (mkFILE d p)
  = Some (mkFILE d (p + length (PrintVector_loop els) + 1),
          Ok (mkVector (length els) els)).
Proof.
  intros H Hwf Hst Hfuel. unfold ParseVector.
  destruct els as [|v els].
  - simpl in *. destruct fuel as [|fuel]; [lia|].
    cbn [ParseVector_loop].
    rewrite (consumeSpace_stay d _ _ _ fuel H eq_refl) by lia.
    rewrite (fgetc_cons _ _ _ _ H), int_of_char_not_EOF.
    change (int_of_char "]"%char =? 93) with true. cbv iota.
    f_equal. f_equal. f_equal. lia.
  - rewrite (ParseVector_loop_run d (v :: els) p rest fuel _ ltac:(discriminate)
               H Hwf Hst Hfuel).
    reflexivity.
Qed.

(** [key ws = ws [ elements ] ws ;] where [ParseVector] reads the text
    [vtext] after the opening bracket. *)
Lemma ParseConfigLine_run_array d p k ws1 ws2 vtext ws3 post fuel vec :
  skipn p d
  = k ++ ws1 ++ "="%char :: ws2 ++ "["%char :: vtext ++ ws3 ++ ";"%char :: post ->
  is_key k = true ->
  forallb space_char ws1 = true ->
  forallb space_char ws2 = true ->
  forallb space_char ws3 = true ->
  ParseVector fuel (mkFILE d (p + length k + length ws1 + 1 + length ws2 + 1))
  = Some (mkFILE d (p + length k + length ws1 + 1 + length ws2 + 1 + length vtext),
          Ok vec) ->
  (length k + length ws1 + length ws2 + length ws3 < fuel)%nat ->
  ParseConfigLine fuel (mkFILE d p)
  = Some (mkFILE d (p + length k + length ws1 + 1 + length ws2 + 1 + length vtext
                    + length ws3 + 1),
          Ok (mkConfigEntry k (Array vec) ARRAY_TYPE)).
Proof.
  intros H Hk H1 H2 H3 Hvec Hfuel.
  unfold ParseConfigLine.
  rewrite (ParseString_run d p k _ fuel H Hk) by
    (first [lia | apply head_of_ws_app;
                  [exact H1 | apply space_not_key_char | reflexivity]]).
  apply skipn_app_length in H.
  rewrite (consumeSpace_run d ws1 _ _ fuel H H1) by
    (first [lia | exists "="%char; eexists; split; reflexivity]).
  apply skipn_app_length in H.
  rewrite (expect_run _ _ _ _ H : expect _ 61 = _). change (1 <? 0) with false. cbv iota.
  apply skipn_cons_S in H.
  replace (S (p + length k + length ws1)) with (p + length k + length ws1 + 1)%nat
    in * by lia.
  rewrite (consumeSpace_run d ws2 _ _ fuel H H2) by
    (first [lia | exists "["%char; eexists; split; reflexivity]).
  apply skipn_app_length in H.
  rewrite (fgetc_cons _ _ _ _ H), int_of_char_not_EOF.
  change (int_of_char "["%char =? 91) with true. cbv iota.
  apply skipn_cons_S in H.
  replace (S (p + length k + length ws1 + 1 + length ws2))
    with (p + length k + length ws1 + 1 + length ws2 + 1)%nat in * by lia.
  rewrite Hvec. cbn [map_result].
  apply skipn_app_length in H.
  rewrite (consumeSpace_run d ws3 _ _ fuel H H3) by
    (first [lia | exists ";"%char; eexists; split; reflexivity]).
  apply skipn_app_length in H.
  rewrite (expect_run _ _ _ _ H : expect _ 59 = _). change (1 <? 0) with false. cbv iota.
  f_equal. f_equal. f_equal. lia.
Qed.

(** ** Reading a serialized document back *)

Lemma DumpEntry_primitive k pv :
  DumpEntry (mkConfigEntry k (Primitive pv) PRIMITIVE_TYPE)
  = k ++ [" "%char] ++ "="%char :: [" "%char] ++ PrintPrimitive pv ++ []
      ++ ";"%char :: [LF].
Proof.
  unfold DumpEntry. simpl. reflexivity.
Qed.

Lemma DumpEntry_array k vec :
  DumpEntry (mkConfigEntry k (Array vec) ARRAY_TYPE)
  = k ++ [" "%char] ++ "="%char :: [" "%char] ++
      "["%char :: (PrintVector_loop (firstn (Length vec) (Data vec)) ++ ["]"%char])
      ++ [] ++ ";"%char :: [LF].
Proof.
  unfold DumpEntry, PrintVector. simpl. reflexivity.
Qed.

Lemma turns_dumped_entry d p e rest :
  skipn p d = DumpEntry e ++ rest ->
  wf_entry e -> stable_entry e ->
  turns (mkFILE d p) [e] (mkFILE d (p + length (DumpEntry e))).
Proof.
  intros H [Hk Hv] Hst. destruct e as [k v ty]. unfold stable_entry in Hst.
  simpl in Hk, Hv, Hst.
  destruct v as [pv | vec].
  - destruct Hv as [-> Hwf].
    rewrite DumpEntry_primitive in *.
    set (fuel := S (length k + 2 + length (PrintPrimitive pv))).
    assert (H' : skipn p d
                 = k ++ [" "%char] ++ "="%char :: [" "%char] ++ PrintPrimitive pv
                     ++ [] ++ ";"%char :: LF :: rest).
    { rewrite H. repeat (rewrite <- app_assoc; simpl). reflexivity. }
    replace [mkConfigEntry k (Primitive pv) PRIMITIVE_TYPE]
      with ([mkConfigEntry k (Primitive pv) PRIMITIVE_TYPE] ++ []) by reflexivity.
    eapply turns_app.
    + eapply (turns_line d p k _ fuel); [exact H' | exact Hk |].
      apply (ParseConfigLine_run_primitive d p k [" "%char] [" "%char]
               (PrintPrimitive pv) [] (LF :: rest) fuel pv H' Hk);
        try reflexivity.
      * destruct (PrintPrimitive_head pv Hwf Hst) as (a & t & Heq & Hsp & Hb & _).
        exists a, t. auto.
      * pose proof H' as H4.
        apply skipn_app_length in H4. apply skipn_app_length in H4.
        apply skipn_cons_S in H4. apply skipn_app_length in H4.
        simpl app in H4. simpl length in *.
        replace (S (p + length k + 1) + 1)%nat with (p + length k + 1 + 1 + 1)%nat
          in H4 by lia.
        apply (ParseValue_run_printed d _ pv ";"%char (LF :: rest) fuel H4 Hwf Hst);
          [reflexivity | unfold fuel; lia].
      * unfold fuel. simpl. lia.
    + pose proof H as H5. apply skipn_app_length in H5.
      match goal with
      | |- turns (mkFILE d ?q) _ _ =>
          replace (p + length (k ++ [" "%char] ++ "="%char :: [" "%char]
                               ++ PrintPrimitive pv ++ [] ++ ";"%char :: [LF]))%nat
            with (q + length [LF])%nat
            by (repeat (rewrite length_app; simpl); lia)
      end.
      apply (turns_spaces d [LF] _ rest); [|reflexivity].
      pose proof H' as H6.
      apply skipn_app_length in H6. apply skipn_app_length in H6.
      apply skipn_cons_S in H6. apply skipn_app_length in H6.
      apply skipn_app_length in H6. simpl app in H6. apply skipn_cons_S in H6.
      simpl length in *.
      match goal with
      | |- skipn ?a d = _ => match type of H6 with skipn ?b d = _ =>
          replace a with b by lia end end.
      exact H6.
  - destruct Hv as (-> & Hlen & Hwf).
    rewrite DumpEntry_array in *. rewrite Hlen, firstn_all in *.
    set (els := Data vec) in *.
    set (fuel := S (length k + 2 + length (PrintVector_loop els) + 2)).
    assert (H' : skipn p d
                 = k ++ [" "%char] ++ "="%char :: [" "%char] ++
                     "["%char :: (PrintVector_loop els ++ ["]"%char])
                     ++ [] ++ ";"%char :: LF :: rest).
    { rewrite H. repeat (rewrite <- app_assoc; simpl). reflexivity. }
    assert (Hvec : vec = mkVector (length els) els).
    { destruct vec as [n l]. simpl in *. subst. reflexivity. }
    replace [mkConfigEntry k (Array vec) ARRAY_TYPE]
      with ([mkConfigEntry k (Array vec) ARRAY_TYPE] ++ []) by reflexivity.
    eapply turns_app.
    + eapply (turns_line d p k _ fuel); [exact H' | exact Hk |].
      apply (ParseConfigLine_run_array d p k [" "%char] [" "%char]
               (PrintVector_loop els ++ ["]"%char]) [] (LF :: rest) fuel vec H' Hk);
        try reflexivity.
      * pose proof H' as H4.
        apply skipn_app_length in H4. apply skipn_app_length in H4.
        apply skipn_cons_S in H4. apply skipn_app_length in H4.
        simpl app in H4. apply skipn_cons_S in H4.
        rewrite <- app_assoc in H4. simpl app in H4. simpl length in *.
        replace (S (S (p + length k + 1) + 1))%nat with (p + length k + 1 + 1 + 1 + 1)%nat
          in H4 by lia.
        rewrite (ParseVector_run d _ els _ fuel H4 Hwf Hst) by (unfold fuel; lia).
        rewrite <- Hvec. f_equal. f_equal. f_equal.
        rewrite length_app. simpl. lia.
      * unfold fuel. simpl. lia.
    + match goal with
      | |- turns (mkFILE d ?q) _ _ =>
          replace (p + length (k ++ [" "%char] ++ "="%char :: [" "%char] ++
                     "["%char :: (PrintVector_loop els ++ ["]"%char])
                     ++ [] ++ ";"%char :: [LF]))%nat
            with (q + length [LF])%nat
            by (repeat (rewrite length_app; simpl); lia)
      end.
      apply (turns_spaces d [LF] _ rest); [|reflexivity].
      pose proof H' as H6.
      apply skipn_app_length in H6. apply skipn_app_length in H6.
      apply skipn_cons_S in H6. apply skipn_app_length in H6.
      simpl app in H6. apply skipn_cons_S in H6.
      apply skipn_app_length in H6. simpl app in H6. apply skipn_cons_S in H6.
      simpl length in *.
      match goal with
      | |- skipn ?a d = _ => match type of H6 with skipn ?b d = _ =>
          replace a with b by lia end end.
      exact H6.
Qed.

Lemma turns_dumped es : forall d p rest,
  skipn p d = DumpConfig_loop (length es) es ++ rest ->
  Forall wf_entry es -> Forall stable_entry es ->
  turns (mkFILE d p) es (mkFILE d (p + length (DumpConfig_loop (length es) es))).
Proof.
  induction es as [|e es IH]; intros d p rest H Hwf Hst.
  - simpl. rewrite Nat.add_0_r. constructor.
  - inversion Hwf as [|e0 l0 Hwfe Hwfs]; subst.
    inversion Hst as [|e0 l0 Hste Hsts]; subst.
    cbn [length DumpConfig_loop] in *.
    rewrite <- app_assoc in H.
    change (e :: es) with ([e] ++ es).
    eapply turns_app.
    + apply (turns_dumped_entry d p e _ H Hwfe Hste).
    + apply skipn_app_length in H.
      rewrite length_app, Nat.add_assoc.
      apply (IH d _ rest H Hwfs Hsts).
Qed.

(** A well-formed document whose floats print without loss is read back
    from its serialization. *)
Lemma parses_dumped es :
  Forall wf_entry es -> Forall stable_entry es ->
  parses (DumpConfig (mkConfig (length es) es)) (Ok (mkConfig (length es) es)).
Proof.
  intros Hwf Hst. apply parses_turns.
  unfold DumpConfig. cbn [Entries List_].
  set (text := DumpConfig_loop (length es) es).
  exists es, (mkFILE text (0 + length text)), None. splits; [| |reflexivity].
  - apply (turns_dumped es text 0 []); auto.
    simpl. rewrite app_nil_r. reflexivity.
  - apply leaves_at_end. simpl. apply skipn_all.
Qed.

(** ** What a successful parse stores *)

Lemma fgetc_inv d p c f1 :
  fgetc (mkFILE d p) = (c, f1) -> (c =? EOF) = false ->
  exists a r, skipn p d = a :: r /\ c = int_of_char a /\ f1 = mkFILE d (S p).
Proof.
  intros H He. destruct (skipn p d) as [|a r] eqn:E.
  - rewrite (fgetc_nil _ _ E) in H. injection H as <- <-. discriminate.
  - rewrite (fgetc_cons _ _ _ _ E) in H. injection H as <- <-. eauto.
Qed.

Lemma fgets_read_prefix n : forall l,
  exists t, firstn n l = fgets_read n l ++ t.
Proof.
  induction n as [|n IH]; intros l.
  - exists []. reflexivity.
  - destruct l as [|a l]; [exists []; reflexivity|].
    simpl. destruct (int_of_char a =? 10).
    + exists (firstn n l). reflexivity.
    + destruct (IH l) as [t Ht]. exists t. rewrite Ht. reflexivity.
Qed.

Lemma fgets_read_newline n : forall l,
  forallb (fun a => negb (is_char 10 a)) (removelast (fgets_read n l)) = true.
Proof.
  induction n as [|n IH]; intros l; [reflexivity|].
  destruct l as [|a l]; [reflexivity|].
  simpl fgets_read. destruct (int_of_char a =? 10) eqn:E; [reflexivity|].
  specialize (IH l).
  destruct (fgets_read n l) as [|b t] eqn:Ht; [reflexivity|].
  change (removelast (a :: b :: t)) with (a :: removelast (b :: t)).
  simpl forallb at 1. unfold is_char at 1. rewrite E. exact IH.
Qed.

Lemma cstring_prefix b : exists t, b = cstring b ++ t.
Proof.
  induction b as [|a b IH]; [exists []; reflexivity|].
  simpl. destruct (int_of_char a =? 0).
  - exists (a :: b). reflexivity.
  - destruct IH as [t Ht]. exists t. simpl. f_equal. exact Ht.
Qed.

Lemma cstring_nul_free b :
  forallb (fun a => negb (is_char 0 a)) (cstring b) = true.
Proof.
  induction b as [|a b IH]; [reflexivity|].
  simpl. destruct (int_of_char a =? 0) eqn:E; [reflexivity|].
  simpl. unfold is_char at 1. rewrite E. exact IH.
Qed.

Lemma forallb_app_l {A} (f : A -> bool) l1 l2 :
  forallb f (l1 ++ l2) = true -> forallb f l1 = true.
Proof. rewrite forallb_app. intros H. apply andb_true_iff in H. tauto. Qed.

Lemma forallb_removelast_prefix {A} (f : A -> bool) l1 : forall l2,
  forallb f (removelast (l1 ++ l2)) = true -> forallb f (removelast l1) = true.
Proof.
  induction l1 as [|a l1 IH]; intros l2 H; [reflexivity|].
  destruct l1 as [|b l1]; [reflexivity|].
  change (removelast (a :: b :: l1)) with (a :: removelast (b :: l1)).
  change (removelast ((a :: b :: l1) ++ l2))
    with (a :: removelast ((b :: l1) ++ l2)) in H.
  apply forallb_cons_inv in H. destruct H as [Ha H].
  simpl forallb at 1. rewrite Ha. apply (IH l2). exact H.
Qed.

Lemma ParseQuotedString_loop_inv fuel : forall d p len f' len',
  ParseQuotedString_loop fuel (mkFILE d p) len = Some (f', Ok len') ->
  exists s rest,
    skipn p d = s ++ "'"%char :: rest
    /\ forallb (fun a => negb (is_char 39 a)) s = true
    /\ len' = (len + length s)%nat
    /\ f' = mkFILE d (p + length s + 1).
Proof.
  induction fuel as [|n IH]; intros d p len f' len' H; [discriminate|].
  cbn [ParseQuotedString_loop] in H.
  destruct (fgetc (mkFILE d p)) as [c f1] eqn:Hc.
  destruct (c =? EOF) eqn:He; [discriminate|].
  destruct (fgetc_inv _ _ _ _ Hc He) as (a & r & Hs & -> & ->).
  destruct (int_of_char a =? 39) eqn:Hq.
  - injection H as <- <-. exists [], r. splits.
    + rewrite Hs. simpl. f_equal.
      apply Z.eqb_eq in Hq. unfold int_of_char in Hq.
      apply (f_equal Z.to_N) in Hq. rewrite N2Z.id in Hq.
      apply (f_equal ascii_of_N) in Hq. rewrite ascii_N_embedding in Hq. exact Hq.
    + reflexivity.
    + simpl. lia.
    + simpl. f_equal. lia.
  - destruct (IH _ _ _ _ _ H) as (s & rest & Hs' & Hnq & -> & ->).
    exists (a :: s), rest. splits.
    + rewrite Hs. simpl. f_equal.
      rewrite <- Hs'. symmetry. eapply skipn_cons_S. exact Hs.
    + simpl. unfold is_char at 1. rewrite Hq. exact Hnq.
    + simpl. lia.
    + simpl. f_equal. lia.
Qed.

Lemma ParseQuotedString_wf fuel d p f' s :
  ParseQuotedString fuel (mkFILE d p) = Some (f', Ok s) -> wf_string s.
Proof.
  unfold ParseQuotedString.
  destruct (ParseQuotedString_loop fuel (mkFILE d p) 0) as [[f1 [len|st]]|] eqn:E;
    [| discriminate | discriminate].
  destruct (ParseQuotedString_loop_inv _ _ _ _ _ _ E) as (t & rest & Hs & Hnq & -> & ->).
  replace (p + length t + 1)%nat with (p + (0 + length t + 1))%nat by lia.
  rewrite pushback_add.
  unfold fgets. cbn [data pos].
  replace (0 + length t + 1 - 1)%nat with (length t) by lia.
  destruct (fgetc _) as [c f2]. intros H. injection H as _ <-.
  set (buf := fgets_read (length t) (skipn p d)).
  destruct (fgets_read_prefix (length t) (skipn p d)) as [t1 Ht1].
  fold buf in Ht1.
  rewrite Hs, firstn_app, firstn_all, Nat.sub_diag in Ht1. simpl in Ht1.
  rewrite app_nil_r in Ht1.
  destruct (cstring_prefix buf) as [t2 Ht2].
  unfold wf_string. splits.
  - rewrite Ht1, Ht2, <- app_assoc in Hnq. apply (forallb_app_l _ _ _ Hnq).
  - apply cstring_nul_free.
  - pose proof (fgets_read_newline (length t) (skipn p d)) as Hnl.
    fold buf in Hnl. rewrite Ht2 in Hnl.
    apply (forallb_removelast_prefix _ _ _ Hnl).
Qed.

Lemma digit_value_nonneg c v : digit_value c = Some v -> 0 <= v.
Proof.
  unfold digit_value, tolower, isalpha, isupper, islower, isdigit.
  destruct ((48 <=? c) && (c <=? 57)) eqn:E1; [intros H; injection H as <-; lia|].
  destruct ((65 <=? c) && (c <=? 90)) eqn:E2; simpl;
    [intros H; injection H as <-; lia|].
  destruct ((97 <=? c) && (c <=? 122)) eqn:E3;
    [intros H; injection H as <-; lia | discriminate].
Qed.

Lemma strtol_digits_nonneg base s : forall acc,
  0 <= base -> 0 <= acc -> 0 <= fst (strtol_digits base s acc).
Proof.
  induction s as [|a s IH]; intros acc Hb Hacc; [exact Hacc|].
  simpl. destruct (digit_value (int_of_char a)) as [v|] eqn:E; [|exact Hacc].
  destruct (v <? base); [|exact Hacc].
  apply IH; [exact Hb|]. pose proof (digit_value_nonneg _ _ E). nia.
Qed.

(** Without a sign in front, [strtol] returns a value between 0 and
    [LONG_MAX]. *)
Lemma strtol_digit_first a s :
  isdigit (int_of_char a) = true -> 0 <= fst (strtol (a :: s)) <= LONG_MAX.
Proof.
  intros Ha. destruct (isdigit_not_space_or_sign _ Ha) as (Hsp & Hm & Hp).
  assert (Hmin : forall acc, 0 <= acc -> 0 <= Z.min acc LONG_MAX <= LONG_MAX).
  { intros acc Hacc. unfold LONG_MAX. lia. }
  unfold strtol. simpl skip_spaces. rewrite Hsp, Hm, Hp.
  destruct s as [|x s'].
  - pose proof (strtol_digits_nonneg 10 [a] 0 ltac:(lia) ltac:(lia)) as Hd.
    destruct (strtol_digits 10 [a] 0) as [acc rest].
    destruct (is_base_digit 10 [a]); simpl; [apply Hmin; exact Hd | unfold LONG_MAX; lia].
  - destruct ((int_of_char a =? 48) && (tolower (int_of_char x) =? 120)
              && is_base_digit 16 s').
    + pose proof (strtol_digits_nonneg 16 s' 0 ltac:(lia) ltac:(lia)) as Hd.
      destruct (strtol_digits 16 s' 0) as [acc rest]. simpl. apply Hmin. exact Hd.
    + destruct (int_of_char a =? 48).
      * pose proof (strtol_digits_nonneg 8 (a :: x :: s') 0 ltac:(lia) ltac:(lia)) as Hd.
        destruct (strtol_digits 8 (a :: x :: s') 0) as [acc rest]. simpl.
        apply Hmin. exact Hd.
      * pose proof (strtol_digits_nonneg 10 (a :: x :: s') 0 ltac:(lia) ltac:(lia)) as Hd.
        destruct (strtol_digits 10 (a :: x :: s') 0) as [acc rest].
        destruct (is_base_digit 10 (a :: x :: s')); simpl;
          [apply Hmin; exact Hd | unfold LONG_MAX; lia].
Qed.

Lemma ParseGenericNumber_loop_inv fuel : forall d p len fd fl f' len' fl',
  ParseGenericNumber_loop fuel (mkFILE d p) len fd fl = Some (f', Ok (len', fl')) ->
  exists k, f' = mkFILE d (p + k) /\ len' = (len + k)%nat.
Proof.
  induction fuel as [|n IH]; intros d p len fd fl f' len' fl' H; [discriminate|].
  cbn [ParseGenericNumber_loop] in H.
  destruct (fgetc (mkFILE d p)) as [c f1] eqn:Hc.
  destruct (c =? EOF) eqn:He; [discriminate|].
  destruct (fgetc_inv _ _ _ _ Hc He) as (a & r & Hs & -> & ->).
  destruct (isdigit (int_of_char a) || IsHexDigit (int_of_char a)
            || (int_of_char a =? 120) || (int_of_char a =? 88)).
  - destruct (IH _ _ _ _ _ _ _ _ H) as (k & -> & ->).
    exists (S k). split; [f_equal|]; lia.
  - destruct ((int_of_char a =? 46) && fd).
    + destruct (IH _ _ _ _ _ _ _ _ H) as (k & -> & ->).
      exists (S k). split; [f_equal|]; lia.
    + rewrite pushback_S in H. injection H as <- <- <-.
      exists 0%nat. split; [f_equal|]; lia.
Qed.

Lemma ParseGenericNumber_wf fuel d p a r f' pv :
  skipn p d = a :: r ->
  isdigit (int_of_char a) = true ->
  ParseGenericNumber fuel (mkFILE d p) = Some (f', Ok pv) ->
  wf_primitive pv.
Proof.
  intros Hs Ha. unfold ParseGenericNumber.
  destruct fuel as [|n]; [discriminate|].
  cbn [ParseGenericNumber_loop].
  rewrite (fgetc_cons _ _ _ _ Hs), int_of_char_not_EOF, Ha. cbn [orb]. cbv iota.
  destruct (ParseGenericNumber_loop n (mkFILE d (S p)) 1 true false)
    as [[f1 [[len fl]|st]]|] eqn:E; [| discriminate | discriminate].
  destruct (ParseGenericNumber_loop_inv _ _ _ _ _ _ _ _ _ E) as (k & -> & ->).
  replace (S p + k)%nat with (p + (1 + k))%nat by lia.
  rewrite pushback_add. unfold fgets. cbn [data pos].
  replace (1 + k + 1 - 1)%nat with (S k) by lia.
  rewrite Hs. cbn [fgets_read].
  replace (int_of_char a =? 10) with false by (unfold isdigit in Ha; lia).
  cbn [cstring].
  replace (int_of_char a =? 0) with false by (unfold isdigit in Ha; lia).
  destruct fl.
  - destruct (strtod _) as [x endptr]. destruct (negb (is_nil endptr)); [discriminate|].
    intros H. injection H as _ <-. exact I.
  - pose proof (strtol_digit_first a (cstring (fgets_read k r)) Ha) as Hr.
    destruct (strtol _) as [x endptr]. destruct (negb (is_nil endptr)); [discriminate|].
    intros H. injection H as _ <-. exact Hr.
Qed.

Lemma ParseValue_wf fuel d p f' pv :
  ParseValue fuel (mkFILE d p) = Some (f', Ok pv) -> wf_primitive pv.
Proof.
  unfold ParseValue. destruct (fgetc (mkFILE d p)) as [c f1] eqn:Hc.
  destruct (c =? EOF) eqn:He; [discriminate|].
  destruct (fgetc_inv _ _ _ _ Hc He) as (a & r & Hs & -> & ->).
  destruct (int_of_char a =? 39).
  - destruct (ParseQuotedString fuel (mkFILE d (S p))) as [[f2 [s|st]]|] eqn:E;
      [| discriminate | discriminate].
    intros H. injection H as _ <-. simpl.
    eapply ParseQuotedString_wf. exact E.
  - destruct (isdigit (int_of_char a)) eqn:Ha; [|discriminate].
    rewrite pushback_S. intros H.
    eapply ParseGenericNumber_wf; eauto.
Qed.

Lemma ParseVector_loop_wf fuel : forall f vec more f' vec',
  ParseVector_loop fuel f vec more = Some (f', Ok vec') ->
  Length vec = length (Data vec) -> Forall wf_primitive (Data vec) ->
  Length vec' = length (Data vec') /\ Forall wf_primitive (Data vec').
Proof.
  induction fuel as [|n IH]; intros f vec more f' vec' H Hlen Hwf; [discriminate|].
  cbn [ParseVector_loop] in H.
  destruct (consumeSpace n f) as [f1|]; [|discriminate].
  destruct (fgetc f1) as [c f2].
  destruct (c =? EOF); [discriminate|].
  destruct (c =? 93); [injection H as <- <-; auto|].
  destruct (c =? 44); [eauto|].
  destruct (negb more); [discriminate|].
  destruct (pushback f2 1) as [d p].
  destruct (ParseValue n (mkFILE d p)) as [[f3 [pv|st]]|] eqn:E;
    [| discriminate | discriminate].
  apply (IH _ _ _ _ _ H); cbn [Length Data].
  - rewrite length_app. simpl. lia.
  - apply Forall_app. split; [exact Hwf|].
    constructor; [|constructor]. eapply ParseValue_wf. exact E.
Qed.

(** *** The key *)

Lemma ParseString_loop_inv fuel : forall d p len f' len',
  ParseString_loop fuel (mkFILE d p) len = Some (f', len') ->
  exists ks,
    forallb key_char ks = true /\ len' = (len + length ks)%nat
    /\ ((exists c rest, skipn p d = ks ++ c :: rest /\ key_char c = false
                        /\ f' = mkFILE d (p + length ks))
        \/ (skipn p d = ks /\ f' = pushback (mkFILE d (p + length ks)) 1)).
Proof.
  induction fuel as [|n IH]; intros d p len f' len' H; [discriminate|].
  cbn [ParseString_loop] in H.
  destruct (skipn p d) as [|a r] eqn:Hs.
  - rewrite (fgetc_nil _ _ Hs) in H. simpl in H. injection H as <- <-.
    exists []. splits; [reflexivity | simpl; lia |].
    right. simpl. rewrite Nat.add_0_r. auto.
  - rewrite (fgetc_cons _ _ _ _ Hs) in H.
    destruct (negb (isalnum (int_of_char a)) && negb (IsSpecialSymbol (int_of_char a)))
      eqn:E.
    + rewrite pushback_S in H. injection H as <- <-.
      exists []. splits; [reflexivity | simpl; lia |].
      left. exists a, r. splits; [reflexivity | | simpl; f_equal; lia].
      unfold key_char. apply andb_true_iff in E. destruct E as [E1 E2].
      apply negb_true_iff in E1, E2. rewrite E1, E2. reflexivity.
    + destruct (IH _ _ _ _ _ H) as (ks & Hks & -> & Hcase).
      assert (Ha : key_char a = true).
      { unfold key_char. apply andb_false_iff in E.
        destruct E as [E|E]; apply negb_false_iff in E; rewrite E;
          rewrite ?orb_true_r; reflexivity. }
      pose proof (skipn_cons_S _ _ _ _ Hs) as Hs'.
      exists (a :: ks). splits.
      * simpl. rewrite Ha. exact Hks.
      * simpl. lia.
      * destruct Hcase as [(c & rest & Hr & Hc & ->) | (Hr & ->)].
        -- left. exists c, rest. split; [|split; [exact Hc|]].
           ++ simpl. f_equal. rewrite <- Hr. symmetry. exact Hs'.
           ++ simpl. f_equal. lia.
        -- right. split.
           ++ f_equal. rewrite <- Hr. symmetry. exact Hs'.
           ++ simpl. do 2 f_equal. lia.
Qed.

Lemma fgets_read_length n : forall l, (length (fgets_read n l) <= length l)%nat.
Proof.
  induction n as [|n IH]; intros l; [simpl; lia|].
  destruct l as [|a l]; [simpl; lia|].
  simpl. destruct (int_of_char a =? 10); simpl; [lia|]. specialize (IH l). lia.
Qed.

Lemma fgets_read_nonempty n a l : (0 < length (fgets_read (S n) (a :: l)))%nat.
Proof. simpl. destruct (int_of_char a =? 10); simpl; lia. Qed.

Lemma skipn_head_In {A} (l : list A) : forall j,
  (j < length l)%nat -> exists b r, skipn j l = b :: r /\ In b l.
Proof.
  induction l as [|a l IH]; intros j Hj; [simpl in Hj; lia|].
  destruct j as [|j].
  - exists a, l. simpl. auto.
  - destruct (IH j) as (b & r & Hs & Hin); [simpl in Hj; lia|].
    exists b, r. simpl. auto.
Qed.

Lemma key_char_not_space_or_equals b :
  key_char b = true -> isspace (int_of_char b) = false /\ (61 =? int_of_char b) = false.
Proof.
  unfold key_char, isalnum, isalpha, isupper, islower, isdigit, IsSpecialSymbol,
    isspace. lia.
Qed.

(** After a key that runs to the end of the input, the check for [=] reads
    a byte of the key again and fails. *)
Lemma key_tail_no_equals d p l q fuel f3 :
  skipn p d = l -> l <> [] -> forallb key_char l = true ->
  (p <= q <= length d)%nat ->
  consumeSpace fuel (mkFILE d q) = Some f3 ->
  fst (expect f3 61) = -1.
Proof.
  intros Hs Hne Hl Hq Hcs.
  assert (Hpos : (0 < length l)%nat) by (destruct l; [congruence | simpl; lia]).
  assert (Hlen : (length d = p + length l)%nat).
  { pose proof (length_skipn p d) as H. rewrite Hs in H. lia. }
  assert (Hkey : forall i, (p <= i < length d)%nat ->
            exists b r, skipn i d = b :: r /\ key_char b = true).
  { intros i Hi.
    destruct (skipn_head_In l (i - p)) as (b & r & Hb & Hin); [lia|].
    exists b, r. split.
    - replace i with ((i - p) + p)%nat by lia. rewrite <- skipn_skipn, Hs. exact Hb.
    - rewrite forallb_forall in Hl. apply Hl. exact Hin. }
  assert (Hexp : forall i, (p <= i < length d)%nat ->
            fst (expect (mkFILE d i) 61) = -1).
  { intros i Hi. destruct (Hkey i Hi) as (b & r & Hb & Hkb).
    unfold expect. rewrite (fgetc_cons _ _ _ _ Hb).
    destruct (key_char_not_space_or_equals _ Hkb) as [_ ->]. reflexivity. }
  destruct fuel as [|n]; [discriminate|]. cbn [consumeSpace] in Hcs.
  destruct (Nat.eq_dec q (length d)) as [Heq|Hneq].
  - rewrite fgetc_nil in Hcs by (apply skipn_all2; lia).
    simpl in Hcs. injection Hcs as <-.
    unfold pushback. cbn [pos data].
    replace (1 <=? q)%nat with true by (symmetry; apply Nat.leb_le; lia).
    apply Hexp. lia.
  - destruct (Hkey q) as (b & r & Hb & Hkb); [lia|].
    rewrite (fgetc_cons _ _ _ _ Hb) in Hcs.
    destruct (key_char_not_space_or_equals _ Hkb) as [Hsp _].
    rewrite Hsp, pushback_S in Hcs. simpl in Hcs. injection Hcs as <-.
    apply Hexp. lia.
Qed.

(** [ParseString] on a letter: the key it returns is well formed, or the
    key ran into the end of the input and the check for [=] fails. *)
Lemma ParseString_key fuel d p a r f1 key :
  skipn p d = a :: r ->
  isalpha (int_of_char a) = true ->
  ParseString fuel (mkFILE d p) = Some (f1, Some key) ->
  is_key key = true
  \/ (forall f3, consumeSpace fuel f1 = Some f3 -> fst (expect f3 61) = -1).
Proof.
  intros Hs Ha. unfold ParseString, consumeLetter.
  rewrite (fgetc_cons _ _ _ _ Hs), Ha. cbn [negb]. cbv iota.
  change (1 <? 0) with false. cbv iota.
  destruct (ParseString_loop fuel (mkFILE d (S p)) 1) as [[f2 len]|] eqn:E;
    [|discriminate].
  destruct (ParseString_loop_inv _ _ _ _ _ _ E) as (ks & Hks & -> & Hcase).
  pose proof (skipn_cons_S _ _ _ _ Hs) as Hs'.
  assert (Hall : forallb key_char (a :: ks) = true)
    by (simpl; rewrite (isalpha_key_char _ Ha); exact Hks).
  destruct Hcase as [(c & rest & Hr & Hc & ->) | (Hr & ->)].
  - replace (S p + length ks)%nat with (p + (1 + length ks))%nat by lia.
    rewrite pushback_add.
    assert (Htok : skipn p d = (a :: ks) ++ c :: rest)
      by (rewrite Hs; simpl; f_equal; rewrite <- Hr; symmetry; exact Hs').
    change (1 + length ks)%nat with (length (a :: ks)).
    rewrite (fgets_token d p (a :: ks) _ Htok)
      by (apply forallb_removelast; eapply forallb_impl; [|exact Hall];
          apply key_char_not_newline).
    rewrite cstring_no_nul
      by (eapply forallb_impl; [|exact Hall]; apply key_char_not_nul).
    intros H. injection H as _ <-. left. simpl. rewrite Ha. exact Hks.
  - right. intros f3 Hcs.
    assert (Hd : skipn p d = a :: ks) by (rewrite Hs; f_equal; rewrite <- Hr; symmetry; exact Hs').
    assert (Hlen : (length d = p + S (length ks))%nat).
    { pose proof (length_skipn p d) as Hl. rewrite Hd in Hl. simpl in Hl. lia. }
    replace (S p + length ks)%nat with (S (p + length ks)) in H by lia.
    rewrite pushback_S in H.
    unfold fgets in H. cbn [data pos] in H.
    set (q0 := pos (pushback (mkFILE d (p + length ks)) (1 + length ks))) in *.
    assert (Hpb : pushback (mkFILE d (p + length ks)) (1 + length ks) = mkFILE d q0
                  /\ ((p = 0%nat /\ q0 = length ks) \/ (p = S q0))).
    { unfold q0, pushback. cbn [pos data].
      destruct (1 + length ks <=? p + length ks)%nat eqn:El.
      - apply Nat.leb_le in El. cbn [pos]. split; [reflexivity|]. right. lia.
      - apply Nat.leb_gt in El. cbn [pos]. split; [reflexivity|]. left. lia. }
    destruct Hpb as [Hpb Hq0]. rewrite Hpb in H. cbn [data pos] in H.
    clearbody q0. injection H as <- _.
    eapply (key_tail_no_equals d p (a :: ks) _ fuel f3 Hd);
      [discriminate | exact Hall | | exact Hcs].
    replace (length ks + 1 - 0)%nat with (S (length ks)) by lia.
    pose proof (fgets_read_length (S (length ks)) (skipn q0 d)) as Hle.
    rewrite length_skipn in Hle.
    destruct Hq0 as [[-> ->] | ->].
    + lia.
    + split; [|lia].
      destruct (skipn q0 d) as [|x t] eqn:Hx.
      * exfalso. apply (f_equal (@length ascii)) in Hx.
        rewrite length_skipn in Hx. simpl in Hx. lia.
      * pose proof (fgets_read_nonempty (length ks) x t). lia.
Qed.

(** *** The statement and the document *)

Lemma ParseConfigLine_wf fuel d p a r f' e :
  skipn p d = a :: r ->
  isalpha (int_of_char a) = true ->
  ParseConfigLine fuel (mkFILE d p) = Some (f', Ok e) ->
  wf_entry e.
Proof.
  intros Hs Ha. unfold ParseConfigLine.
  destruct (ParseString fuel (mkFILE d p)) as [[f1 [key|]]|] eqn:E;
    [| discriminate | discriminate].
  pose proof (ParseString_key _ _ _ _ _ _ _ Hs Ha E) as Hkey.
  destruct (consumeSpace fuel f1) as [f2|] eqn:E2; [|discriminate].
  destruct (expect f2 61) as [r1 f3] eqn:E3.
  destruct (r1 <? 0) eqn:Hr1; [discriminate|].
  destruct Hkey as [Hkey | Hbad].
  2:{ specialize (Hbad _ eq_refl). rewrite E3 in Hbad. simpl in Hbad. subst r1.
      discriminate. }
  destruct (consumeSpace fuel f3) as [f4|]; [|discriminate].
  destruct (fgetc f4) as [ch f5].
  destruct (ch =? EOF); [discriminate|].
  destruct (ch =? 91).
  - destruct (ParseVector fuel f5) as [[f6 q]|] eqn:E4; [|discriminate].
    destruct (consumeSpace fuel f6) as [f7|]; [|discriminate].
    destruct (expect f7 59) as [r2 f8].
    destruct (r2 <? 0); [discriminate|].
    destruct q as [vec|st]; [|discriminate].
    intros H. injection H as _ <-.
    destruct (ParseVector_loop_wf _ _ _ _ _ _ E4 eq_refl (Forall_nil _)) as [Hlen Hwf].
    split; [exact Hkey|]. simpl. auto.
  - destruct (pushback f5 1) as [d' p'].
    destruct (ParseValue fuel (mkFILE d' p')) as [[f6 q]|] eqn:E4; [|discriminate].
    destruct (consumeSpace fuel f6) as [f7|]; [|discriminate].
    destruct (expect f7 59) as [r2 f8].
    destruct (r2 <? 0); [discriminate|].
    destruct q as [pv|st]; [|discriminate].
    intros H. injection H as _ <-.
    split; [exact Hkey|]. simpl. split; [reflexivity|].
    eapply ParseValue_wf. exact E4.
Qed.

Lemma ParseCfg_wf fuel : forall d p f' e,
  ParseCfg fuel (mkFILE d p) = Some (f', Ok (Some e)) -> wf_entry e.
Proof.
  induction fuel as [|n IH]; intros d p f' e H; [discriminate|].
  cbn [ParseCfg] in H.
  destruct (fgetc (mkFILE d p)) as [c f1] eqn:Hc.
  destruct (c =? EOF) eqn:He; [discriminate|].
  destruct (fgetc_inv _ _ _ _ Hc He) as (a & r & Hs & -> & ->).
  destruct (int_of_char a =? 10); [discriminate|].
  destruct (isspace (int_of_char a)); [eauto|].
  destruct (int_of_char a =? 35).
  - destruct (ParseComment n (mkFILE d (S p))); discriminate.
  - destruct (isalpha (int_of_char a)) eqn:Ha; [|discriminate].
    rewrite pushback_S in H.
    destruct (ParseConfigLine n (mkFILE d p)) as [[f2 [e0|st]]|] eqn:E;
      [| discriminate | discriminate].
    simpl in H. injection H as _ <-.
    eapply ParseConfigLine_wf; eauto.
Qed.

Lemma turns_wf f es f' : turns f es f' -> Forall wf_entry es.
Proof.
  induction 1 as [f | f c f1 es f' Hc Hsp _ IH
                    | f c f1 fuel0 f2 es f' Hc He Hsp Hcfg _ IH
                    | f c f1 fuel0 f2 e es f' Hc He Hsp Hcfg _ IH]; auto.
  constructor; [|exact IH].
  destruct (pushback f1 1) as [d p]. eapply ParseCfg_wf. exact Hcfg.
Qed.

(** Every parsed document is well formed: keys are identifiers, kinds and
    values agree, array lengths are right, integers lie between 0 and
    [LONG_MAX], strings hold no quote. *)
Lemma parses_wf src config :
  parses src (Ok config) ->
  Entries config = length (List_ config) /\ Forall wf_entry (List_ config).
Proof.
  intros H. apply parses_turns in H.
  destruct H as (es & f' & o & Ht & _ & Hr).
  destruct o as [s|]; [discriminate|]. simpl in Hr. injection Hr as ->.
  simpl. split; [reflexivity|]. eapply turns_wf. exact Ht.
Qed.

(** C4, as the code has it: a document that parses successfully and whose
    float values are printed by [%lf] without loss (reading the six-digit
    text back gives the same double) is read back from its serialization
    as the same document: same keys, kinds, values, count and order.  No
    condition on strings or on trailing commas is needed: a parsed string
    never holds a quote, and a trailing comma leaves no trace in the
    document. *)
Theorem C4_roundtrip_when_floats_survive src config :
  parses src (Ok config) ->
  floats_stable config ->
  parses (DumpConfig config) (Ok config).
Proof.
  intros Hparse Hst.
  destruct (parses_wf _ _ Hparse) as [Hlen Hwf].
  destruct config as [n es]. simpl in *. subst n.
  apply parses_dumped; assumption.
Qed.

(** C4 as claimed fails: [k = 0.0000001;] has no string and no array; it
    parses to the double nearest to 1e-7, which is printed as [0.000000],
    and that text parses to zero. *)
Lemma C4_counterexample :
  let d := DFinite 7555786372591432 (-76) in
  let parsed := mkConfig 1 [entry_k (Primitive (Decimal d)) PRIMITIVE_TYPE] in
  let reread :=
    mkConfig 1 [entry_k (Primitive (Decimal (DFinite 0 (-1074)))) PRIMITIVE_TYPE] in
  parses src_small_float (Ok parsed)
  /\ DumpConfig parsed = bytes "k = 0.000000;" ++ [LF]
  /\ parses (DumpConfig parsed) (Ok reread)
  /\ ~ parses (DumpConfig parsed) (Ok parsed).
Proof.
  cbv zeta.
  assert (H1 : parses src_small_float
                 (Ok (mkConfig 1 [entry_k (Primitive (Decimal
                        (DFinite 7555786372591432 (-76)))) PRIMITIVE_TYPE])))
    by (exists 20%nat; vm_compute; reflexivity).
  assert (H2 : parses (DumpConfig (mkConfig 1 [entry_k (Primitive (Decimal
                        (DFinite 7555786372591432 (-76)))) PRIMITIVE_TYPE]))
                 (Ok (mkConfig 1 [entry_k (Primitive (Decimal
                        (DFinite 0 (-1074)))) PRIMITIVE_TYPE])))
    by (exists 20%nat; vm_compute; reflexivity).
  split; [exact H1|]. split; [vm_compute; reflexivity|]. split; [exact H2|].
  intros H3. pose proof (parses_functional _ _ _ H2 H3). discriminate.
Qed.

Lemma C4_roundtrip_when_floats_survive_witness :
  parses
    (DumpConfig
       (mkConfig 2 [entry_k (Array (mkVector 3 [String (bytes "x");
                                                Decimal (DFinite 6755399441055744 (-52));
                                                Number 3])) ARRAY_TYPE;
                    mkConfigEntry (bytes "j.1") (Primitive (Number 31)) PRIMITIVE_TYPE]))
    (Ok (mkConfig 2 [entry_k (Array (mkVector 3 [String (bytes "x");
                                                 Decimal (DFinite 6755399441055744 (-52));
                                                 Number 3])) ARRAY_TYPE;
                     mkConfigEntry (bytes "j.1") (Primitive (Number 31)) PRIMITIVE_TYPE])).
Proof.
  apply (C4_roundtrip_when_floats_survive
           (bytes "k = [ 'x' , 1.5, 3, ] ; # note" ++ LF :: bytes "j.1 = 0x1F;")).
  - exists 40%nat. vm_compute. reflexivity.
  - unfold floats_stable. cbn [List_].
    constructor; [|constructor; [exact I | constructor]].
    unfold stable_entry, entry_k. cbn [Value_ Data].
    constructor; [exact I|].
    constructor; [|constructor; [exact I | constructor]].
    unfold stable_primitive, lf_stable. vm_compute. reflexivity.
Defined.

(** ** Commas in an array *)

Lemma ParseVector_loop_comma d p r fuel vec more :
  skipn p d = ","%char :: r ->
  (0 < fuel)%nat ->
  ParseVector_loop (S fuel) (mkFILE d p) vec more
  = ParseVector_loop fuel (mkFILE d (S p)) vec true.
Proof.
  intros H Hfuel. cbn [ParseVector_loop].
  rewrite (consumeSpace_stay d p _ _ fuel H eq_refl Hfuel).
  rewrite (fgetc_cons _ _ _ _ H), int_of_char_not_EOF.
  change (int_of_char ","%char =? 93) with false.
  change (int_of_char ","%char =? 44) with true. reflexivity.
Qed.

(** C9: a leading comma and a doubled comma are accepted: [k = [,1];]
    parses to an array of length 1 and [k = [1,,2];] to one of length 2.
    Whatever the flag [more] holds, a comma at the top of the loop of
    [ParseVector] only sets it and goes round again. *)
Theorem C9_leading_and_doubled_comma d p r fuel vec more :
  skipn p d = ","%char :: r ->
  (0 < fuel)%nat ->
  ParseVector_loop (S fuel) (mkFILE d p) vec more
  = ParseVector_loop fuel (mkFILE d (S p)) vec true
  /\ parses (bytes "k = [,1];")
       (Ok (mkConfig 1 [entry_k (Array (mkVector 1 [Number 1])) ARRAY_TYPE]))
  /\ parses (bytes "k = [1,,2];")
       (Ok (mkConfig 1 [entry_k (Array (mkVector 2 [Number 1; Number 2])) ARRAY_TYPE])).
Proof.
  intros H Hfuel. splits.
  - apply (ParseVector_loop_comma d p r fuel vec more H Hfuel).
  - exists 20%nat; vm_compute; reflexivity.
  - exists 20%nat; vm_compute; reflexivity.
Qed.

Lemma C9_leading_and_doubled_comma_witness :
  ParseVector_loop (S 10) (mkFILE (bytes "k = [1,,2];") 7) (mkVector 1 [Number 1]) true
  = ParseVector_loop 10 (mkFILE (bytes "k = [1,,2];") (S 7)) (mkVector 1 [Number 1]) true
  /\ parses (bytes "k = [,1];")
       (Ok (mkConfig 1 [entry_k (Array (mkVector 1 [Number 1])) ARRAY_TYPE]))
  /\ parses (bytes "k = [1,,2];")
       (Ok (mkConfig 1 [entry_k (Array (mkVector 2 [Number 1; Number 2])) ARRAY_TYPE])).
Proof.
  apply (C9_leading_and_doubled_comma (bytes "k = [1,,2];") 7 (bytes "2];") 10
           (mkVector 1 [Number 1]) true); [reflexivity | lia].
Defined.

(** ** An input on which the parser does not return

    After the comma of [k = [1,] the loop of [ParseVector] skips white
    space, which at the end of the input un-reads the comma, and reads the
    comma again, for ever. *)

Lemma ParseVector_loop_open_array fuel : forall vec,
  ParseVector_loop fuel (mkFILE src_open_array 7) vec true = None.
Proof.
  induction fuel as [|n IH]; intros vec; [reflexivity|].
  cbn [ParseVector_loop]. destruct n as [|m]; [reflexivity|].
  cbn [consumeSpace].
  rewrite (fgetc_nil src_open_array 7 eq_refl).
  change (negb (isspace EOF)) with true. cbv iota.
  change (pushback (mkFILE src_open_array 7) 1) with (mkFILE src_open_array 6).
  rewrite (fgetc_cons src_open_array 6 ","%char [] eq_refl).
  change (int_of_char ","%char =? EOF) with false.
  change (int_of_char ","%char =? 93) with false.
  change (int_of_char ","%char =? 44) with true. cbv iota.
  apply IH.
Qed.

Lemma ParseVector_open_array fuel :
  ParseVector fuel (mkFILE src_open_array 5) = None.
Proof.
  destruct fuel as [|[|[|[|n]]]]; [vm_compute; reflexivity .. |].
  assert (H5 : skipn 5 src_open_array = PrintPrimitive (Number 1) ++ [","%char])
    by (vm_compute; reflexivity).
  assert (Hl : (5 + length (PrintPrimitive (Number 1)))%nat = 6%nat)
    by (vm_compute; reflexivity).
  assert (Hlen : length (PrintPrimitive (Number 1)) = 1%nat)
    by (vm_compute; reflexivity).
  unfold ParseVector.
  rewrite (ParseVector_loop_element src_open_array 5 (Number 1) ","%char [] _
             (mkVector 0 []) H5);
    [| unfold wf_primitive, LONG_MAX; lia | exact I | reflexivity | rewrite Hlen; lia].
  rewrite Hl.
  rewrite (ParseVector_loop_comma src_open_array 6 [] _ _ false eq_refl) by lia.
  apply ParseVector_loop_open_array.
Qed.

Lemma ParseConfigLine_open_array fuel :
  ParseConfigLine fuel (mkFILE src_open_array 0) = None.
Proof.
  destruct fuel as [|[|n]]; [vm_compute; reflexivity .. |].
  unfold ParseConfigLine.
  rewrite (ParseString_run src_open_array 0 (bytes "k") (bytes " = [1,") _ eq_refl eq_refl)
    by (first [simpl; lia | exists " "%char; eexists; split; reflexivity]).
  change (0 + length (bytes "k"))%nat with 1%nat.
  rewrite (consumeSpace_run src_open_array (bytes " ") 1 (bytes "= [1,") _ eq_refl eq_refl)
    by (first [simpl; lia | exists "="%char; eexists; split; reflexivity]).
  change (1 + length (bytes " "))%nat with 2%nat.
  rewrite (expect_run src_open_array 2 "="%char (bytes " [1,") eq_refl : expect _ 61 = _).
  change (1 <? 0) with false. cbv iota.
  rewrite (consumeSpace_run src_open_array (bytes " ") 3 (bytes "[1,") _ eq_refl eq_refl)
    by (first [simpl; lia | exists "["%char; eexists; split; reflexivity]).
  change (3 + length (bytes " "))%nat with 4%nat.
  rewrite (fgetc_cons src_open_array 4 "["%char (bytes "1,") eq_refl).
  change (int_of_char "["%char =? EOF) with false.
  change (int_of_char "["%char =? 91) with true. cbv iota.
  rewrite ParseVector_open_array. reflexivity.
Qed.

Lemma open_array_diverges : diverges src_open_array.
Proof.
  intros fuel. unfold ParseConfig, fopen.
  destruct fuel as [|n]; [reflexivity|].
  cbn [ParseConfig_loop].
  rewrite (fgetc_cons src_open_array 0 "k"%char _ eq_refl).
  change (int_of_char "k"%char =? EOF) with false.
  change (isspace (int_of_char "k"%char)) with false. cbv iota.
  rewrite pushback_S.
  destruct n as [|m]; [reflexivity|].
  rewrite (ParseCfg_run_line src_open_array 0 (bytes "k") _ _ eq_refl eq_refl).
  rewrite ParseConfigLine_open_array. reflexivity.
Qed.

(** * Further properties *)

(** ** What every parsed document satisfies *)

(** X1: the document of a successful parse is well formed: the count
    [Entries] is the number of entries of the list; every key is a letter
    followed by letters, digits, [$], [.] and [_]; the kind tag of an entry
    names the member of its value that is set; the [Length] of an array is
    the number of its elements; every integer lies between 0 and
    [LONG_MAX]; no string holds a quote or a NUL, and a newline only as its
    last byte. *)
Theorem parsed_document_well_formed src config :
  parses src (Ok config) ->
  Entries config = length (List_ config)
  /\ Forall wf_entry (List_ config).
Proof. apply parses_wf. Qed.

Lemma parsed_document_well_formed_witness :
  Entries (mkConfig 2 [integer_entry (bytes "a") 1; integer_entry (bytes "k") 42])
  = length (List_ (mkConfig 2 [integer_entry (bytes "a") 1;
                               integer_entry (bytes "k") 42]))
  /\ Forall wf_entry
       (List_ (mkConfig 2 [integer_entry (bytes "a") 1; integer_entry (bytes "k") 42])).
Proof.
  apply (parsed_document_well_formed src_two_statements).
  exists 30%nat. vm_compute. reflexivity.
Defined.

(** ** The accessors on a parsed document *)

Lemma parsed_entry_wf src config e :
  parses src (Ok config) -> In e (List_ config) -> wf_entry e.
Proof.
  intros Hp Hin. destruct (parses_wf _ _ Hp) as [_ Hwf].
  rewrite Forall_forall in Hwf. auto.
Qed.

(** X2: [GetElement] on an array of a parsed document: an index below
    [Length] gives the element at that index of [Data], a well-formed
    primitive; an index at or above [Length] gives [NULL]. *)
Theorem GetElement_of_parsed_array src config e vec idx :
  parses src (Ok config) -> In e (List_ config) -> Value_ e = Array vec ->
  ((idx < Length vec)%nat ->
   exists pv, GetElement vec idx = Some pv
              /\ nth_error (Data vec) idx = Some pv /\ wf_primitive pv)
  /\ ((Length vec <= idx)%nat -> GetElement vec idx = None).
Proof.
  intros Hp Hin Hv.
  pose proof (parsed_entry_wf _ _ _ Hp Hin) as [_ Hwf].
  rewrite Hv in Hwf. destruct Hwf as (_ & Hlen & Hall).
  unfold GetElement. split; intros Hi.
  - destruct (nth_error (Data vec) idx) as [pv|] eqn:E.
    + exists pv. replace (Length vec <=? idx)%nat with false
        by (symmetry; apply Nat.leb_gt; exact Hi).
      splits; auto. rewrite Forall_forall in Hall.
      apply Hall. eapply nth_error_In; eauto.
    + apply nth_error_None in E. lia.
  - replace (Length vec <=? idx)%nat with true
      by (symmetry; apply Nat.leb_le; exact Hi).
    reflexivity.
Qed.

Lemma GetElement_of_parsed_array_witness :
  ((1 < 2)%nat ->
   exists pv, GetElement (mkVector 2 [Number 1; Number 2]) 1 = Some pv
              /\ nth_error [Number 1; Number 2] 1 = Some pv /\ wf_primitive pv)
  /\ ((2 <= 1)%nat -> GetElement (mkVector 2 [Number 1; Number 2]) 1 = None).
Proof.
  apply (GetElement_of_parsed_array (bytes "k = [1,2];")
           (mkConfig 1 [entry_k (Array (mkVector 2 [Number 1; Number 2])) ARRAY_TYPE])
           (entry_k (Array (mkVector 2 [Number 1; Number 2])) ARRAY_TYPE)
           (mkVector 2 [Number 1; Number 2]) 1%nat).
  - exists 30%nat. vm_compute. reflexivity.
  - left. reflexivity.
  - reflexivity.
Defined.

(** X3: what [FindValue] returns on a parsed document has the kind that
    was asked for: with [PRIMITIVE_TYPE] a well-formed primitive, with
    [ARRAY_TYPE] an array whose [Length] is the number of its elements; the
    key that was found is an identifier.  So a search with any other kind
    tag, or for a key that is no identifier, returns [NULL]. *)
Theorem FindValue_of_parsed_document src config ty key v :
  parses src (Ok config) ->
  FindValue config ty key = Some v ->
  is_key key = true
  /\ match v with
     | Primitive pv => ty = PRIMITIVE_TYPE /\ wf_primitive pv
     | Array vec =>
         ty = ARRAY_TYPE /\ Length vec = length (Data vec)
         /\ Forall wf_primitive (Data vec)
     end.
Proof.
  intros Hp Hf. unfold FindValue in Hf.
  apply FindValue_loop_Some in Hf.
  destruct Hf as (i & e & _ & Hn & [Hk Ht] & -> & _).
  apply nth_error_In in Hn.
  pose proof (parsed_entry_wf _ _ _ Hp Hn) as [Hkey Hwf].
  rewrite <- Hk, <- Ht. split; [exact Hkey|].
  destruct (Value_ e); tauto.
Qed.

Lemma FindValue_of_parsed_document_witness :
  is_key (bytes "k") = true
  /\ (PRIMITIVE_TYPE = PRIMITIVE_TYPE /\ wf_primitive (Number 42)).
Proof.
  apply (FindValue_of_parsed_document src_two_statements
           (mkConfig 2 [integer_entry (bytes "a") 1; integer_entry (bytes "k") 42])
           PRIMITIVE_TYPE (bytes "k") (Primitive (Number 42))).
  - exists 30%nat. vm_compute. reflexivity.
  - vm_compute. reflexivity.
Defined.

(** ** The statuses of a failed parse *)

Lemma ParseConfigLine_failures fuel f f' s :
  ParseConfigLine fuel f = Some (f', Err s) ->
  s = INVALID_CONFIG_KEY \/ In s parse_failures.
Proof.
  unfold ParseConfigLine, parse_failures.
  destruct (ParseString fuel f) as [[f1 [key|]]|]; [| |discriminate].
  2:{ intros H. injection H as <- <-. auto. }
  destruct (consumeSpace fuel f1) as [f4|]; [|discriminate].
  destruct (expect f4 61) as [r f5].
  destruct (r <? 0); [intros H; injection H as <- <-; simpl; auto|].
  destruct (consumeSpace fuel f5) as [f6|]; [|discriminate].
  destruct (fgetc f6) as [ch f7].
  destruct (ch =? EOF); [intros H; injection H as <- <-; simpl; auto|].
  destruct (ch =? 91).
  - destruct (ParseVector fuel f7) as [[f8 q]|] eqn:E; [|discriminate].
    destruct (consumeSpace fuel f8) as [f9|]; [|discriminate].
    destruct (expect f9 59) as [r2 f10].
    destruct (r2 <? 0); [intros H; injection H as <- <-; simpl; auto|].
    destruct q as [vec|s1]; [discriminate|].
    intros H. injection H as <- <-.
    apply ParseVector_loop_status in E.
    destruct E as [-> | [-> | ->]]; simpl; auto 10.
  - destruct (ParseValue fuel (pushback f7 1)) as [[f8 q]|] eqn:E; [|discriminate].
    destruct (consumeSpace fuel f8) as [f9|]; [|discriminate].
    destruct (expect f9 59) as [r2 f10].
    destruct (r2 <? 0); [intros H; injection H as <- <-; simpl; auto|].
    destruct q as [pv|s1]; [discriminate|].
    intros H. injection H as <- <-.
    apply ParseValue_status in E.
    destruct E as [-> | [-> | [-> | ->]]]; simpl; auto 10.
Qed.

Lemma ParseCfg_failures fuel : forall f f' s,
  ParseCfg fuel f = Some (f', Err s) -> In s parse_failures.
Proof.
  intros f f' s H. pose proof (ParseCfg_status _ _ _ _ H) as Hkey.
  revert f f' s H Hkey.
  induction fuel as [|n IH]; intros f f' s H Hkey; [discriminate|].
  simpl in H. destruct (fgetc f) as [c f1] eqn:Hc.
  destruct (c =? EOF) eqn:He; [injection H as <- <-; simpl; auto|].
  destruct (c =? 10); [discriminate|].
  destruct (isspace c); [eauto|].
  destruct (c =? 35).
  - destruct (ParseComment n f1); discriminate.
  - destruct (isalpha c) eqn:Ha; [|injection H as <- <-; simpl; auto].
    destruct (ParseConfigLine n (pushback f1 1)) as [[f2 [e|s1]]|] eqn:E;
      [discriminate| |discriminate].
    injection H as <- <-.
    apply ParseConfigLine_failures in E.
    destruct E as [-> | E]; [contradiction Hkey; reflexivity | exact E].
Qed.

Lemma parses_failures src s : parses src (Err s) -> In s parse_failures.
Proof.
  intros H. apply parses_turns in H.
  destruct H as (es & f' & o & _ & Hl & Hr).
  destruct Hl as [f0 _ | f0 c f1 fuel f2 s0 Hc He Hsp Hcfg]; [discriminate|].
  simpl in Hr. injection Hr as <-.
  eapply ParseCfg_failures; eauto.
Qed.

(** X4: the statuses with which [ParseConfig] fails.  On a file that was
    opened they are exactly [UNEXPECTED_EOF], [UNEXPECTED_TOKEN],
    [INVALID_ARRAY_ELEMENT], [INVALID_INTEGER_LITERAL] and
    [INVALID_DECIMAL_LITERAL]: each of them is returned for some source,
    and no other is returned for any ([OUT_OF_MEMORY] and
    [INVALID_CONFIG_KEY] never).  [FILE_NO_ACCESS] is returned exactly when
    the file was not opened.  For each status that [ParseConfig] returns,
    [ErrToString] has a message of its own, never [Unknown error.]. *)
Theorem ParseConfig_failure_statuses s :
  ((exists src, parses src (Err s)) <-> In s parse_failures)
  /\ (forall fuel contents,
        ParseConfig fuel contents = Some (Err s) ->
        (contents = None <-> s = FILE_NO_ACCESS)
        /\ ErrToString s <> "Unknown error."%string).
Proof.
  split; [split|].
  - intros [src H]. eapply parses_failures; eauto.
  - unfold parse_failures. simpl.
    intros [<- | [<- | [<- | [<- | [<- | []]]]]].
    + exists (bytes "k = 'abc;"). exists 30%nat. vm_compute. reflexivity.
    + exists (bytes "k 1;"). exists 30%nat. vm_compute. reflexivity.
    + exists (bytes "k = [x;"). exists 30%nat. vm_compute. reflexivity.
    + exists (bytes "k = 12ab;"). exists 30%nat. vm_compute. reflexivity.
    + exists (bytes "k = 1.5x;"). exists 30%nat. vm_compute. reflexivity.
  - intros fuel [src|] H.
    + assert (Hin : In s parse_failures) by (apply (parses_failures src); exists fuel; exact H).
      unfold parse_failures in Hin. simpl in Hin.
      destruct Hin as [<- | [<- | [<- | [<- | [<- | []]]]]];
        (split; [split; discriminate | vm_compute; discriminate]).
    + simpl in H. injection H as <-.
      split; [split; reflexivity | vm_compute; discriminate].
Qed.

(** ** White space and comments *)

(** At end of input [consumeSpace] un-reads the last byte of the file. *)
Lemma consumeSpace_eof d ws : forall p fuel,
  skipn p d = ws ->
  forallb space_char ws = true ->
  (length ws < fuel)%nat ->
  consumeSpace fuel (mkFILE d p) = Some (pushback (mkFILE d (p + length ws)) 1).
Proof.
  induction ws as [|a ws IH]; intros p fuel H Hws Hfuel.
  - destruct fuel as [|fuel]; [simpl in Hfuel; lia|].
    cbn [consumeSpace]. rewrite (fgetc_nil _ _ H).
    change (negb (isspace EOF)) with true. cbv iota.
    simpl length. rewrite Nat.add_0_r. reflexivity.
  - destruct fuel as [|fuel]; [simpl in Hfuel; lia|].
    apply forallb_cons_inv in Hws. destruct Hws as [Ha Hws].
    cbn [consumeSpace]. rewrite (fgetc_cons _ _ _ _ H).
    unfold space_char in Ha. rewrite Ha. simpl negb. cbv iota.
    rewrite (IH (S p) fuel).
    + do 2 f_equal. f_equal. simpl. lia.
    + eapply skipn_cons_S. exact H.
    + exact Hws.
    + simpl in Hfuel. lia.
Qed.

Lemma ParseComment_run d text : forall p rest fuel,
  skipn p d = text ++ LF :: rest ->
  forallb (fun a => negb (is_char 10 a)) text = true ->
  (length text < fuel)%nat ->
  ParseComment fuel (mkFILE d p) = Some (mkFILE d (p + length text + 1)).
Proof.
  induction text as [|a text IH]; intros p rest fuel H Ht Hfuel.
  - destruct fuel as [|fuel]; [simpl in Hfuel; lia|].
    simpl in H. cbn [ParseComment]. rewrite (fgetc_cons _ _ _ _ H).
    change (int_of_char LF =? 10) with true. simpl.
    do 2 f_equal. lia.
  - destruct fuel as [|fuel]; [simpl in Hfuel; lia|].
    apply forallb_cons_inv in Ht. destruct Ht as [Ha Ht].
    simpl in H. cbn [ParseComment]. rewrite (fgetc_cons _ _ _ _ H).
    unfold is_char in Ha. apply negb_true_iff in Ha. rewrite Ha.
    rewrite int_of_char_not_EOF. simpl orb. cbv iota.
    rewrite (IH (S p) rest fuel).
    + do 2 f_equal. simpl. lia.
    + eapply skipn_cons_S. exact H.
    + exact Ht.
    + simpl in Hfuel. lia.
Qed.

Lemma ParseComment_eof d text : forall p fuel,
  skipn p d = text ->
  forallb (fun a => negb (is_char 10 a)) text = true ->
  (length text < fuel)%nat ->
  ParseComment fuel (mkFILE d p) = Some (mkFILE d (p + length text)).
Proof.
  induction text as [|a text IH]; intros p fuel H Ht Hfuel.
  - destruct fuel as [|fuel]; [simpl in Hfuel; lia|].
    cbn [ParseComment]. rewrite (fgetc_nil _ _ H).
    change (EOF =? 10) with false. change (EOF =? EOF) with true. simpl.
    rewrite Nat.add_0_r. reflexivity.
  - destruct fuel as [|fuel]; [simpl in Hfuel; lia|].
    apply forallb_cons_inv in Ht. destruct Ht as [Ha Ht].
    cbn [ParseComment]. rewrite (fgetc_cons _ _ _ _ H).
    unfold is_char in Ha. apply negb_true_iff in Ha. rewrite Ha.
    rewrite int_of_char_not_EOF. simpl orb. cbv iota.
    rewrite (IH (S p) fuel).
    + do 2 f_equal. simpl. lia.
    + eapply skipn_cons_S. exact H.
    + exact Ht.
    + simpl in Hfuel. lia.
Qed.

Lemma ParseCfg_comment d p r fuel :
  skipn p d = "#"%char :: r ->
  ParseCfg (S fuel) (mkFILE d p)
  = match ParseComment fuel (mkFILE d (S p)) with
    | Some file => Some (file, Ok None)
    | None => None
    end.
Proof.
  intros H. cbn [ParseCfg]. rewrite (fgetc_cons _ _ _ _ H). reflexivity.
Qed.

Lemma turns_comment d p text rest :
  skipn p d = "#"%char :: text ++ LF :: rest ->
  forallb (fun a => negb (is_char 10 a)) text = true ->
  turns (mkFILE d p) [] (mkFILE d (p + length text + 2)).
Proof.
  intros H Ht.
  eapply (turns_blank _ _ _ (S (S (length text)))).
  - apply (fgetc_cons _ _ _ _ H).
  - reflexivity.
  - reflexivity.
  - rewrite pushback_S, (ParseCfg_comment _ _ _ _ H).
    rewrite (ParseComment_run d text (S p) rest); [reflexivity| |exact Ht|lia].
    eapply skipn_cons_S. exact H.
  - replace (S p + length text + 1)%nat with (p + length text + 2)%nat by lia.
    constructor.
Qed.

Lemma turns_comment_eof d p text :
  skipn p d = "#"%char :: text ->
  forallb (fun a => negb (is_char 10 a)) text = true ->
  turns (mkFILE d p) [] (mkFILE d (p + length text + 1)).
Proof.
  intros H Ht.
  eapply (turns_blank _ _ _ (S (S (length text)))).
  - apply (fgetc_cons _ _ _ _ H).
  - reflexivity.
  - reflexivity.
  - rewrite pushback_S, (ParseCfg_comment _ _ _ _ H).
    rewrite (ParseComment_eof d text (S p)); [reflexivity| |exact Ht|lia].
    eapply skipn_cons_S. exact H.
  - replace (S p + length text)%nat with (p + length text + 1)%nat by lia.
    constructor.
Qed.

Lemma turns_skipped pre :
  skipped pre ->
  forall d p rest, skipn p d = pre ++ rest ->
                   turns (mkFILE d p) [] (mkFILE d (p + length pre)).
Proof.
  induction 1 as [|a l Ha Hl IH|text l Ht Hl IH]; intros d p rest H.
  - simpl. rewrite Nat.add_0_r. constructor.
  - simpl in H. eapply turns_space.
    + apply (fgetc_cons _ _ _ _ H).
    + exact Ha.
    + replace (p + length (a :: l))%nat with (S p + length l)%nat by (simpl; lia).
      apply (IH d (S p) rest). eapply skipn_cons_S. exact H.
  - assert (H1 : skipn p d = "#"%char :: text ++ LF :: l ++ rest).
    { rewrite H. simpl. rewrite <- app_assoc. reflexivity. }
    apply (turns_app _ [] (mkFILE d (p + length text + 2)) []).
    + eapply turns_comment; eauto.
    + replace (p + length ("#"%char :: text ++ LF :: l))%nat
        with (p + length text + 2 + length l)%nat
        by (simpl; rewrite length_app; simpl; lia).
      apply (IH d _ rest).
      replace (p + length text + 2)%nat
        with (p + length ("#"%char :: text ++ [LF]))%nat
        by (simpl; rewrite length_app; simpl; lia).
      apply skipn_app_length. rewrite H1. simpl. rewrite <- app_assoc. reflexivity.
Qed.

Lemma skipn_all_nil {A} (l : list A) : skipn (length l) l = [].
Proof. apply skipn_all. Qed.

(** X5: white space and comment lines add nothing to the document.  When
    the builder is at its top before such text it comes back to its top
    right after it with no entry added; so the parse of a source that
    starts with it is the run of the loop from the end of that text on the
    empty document.  A source that holds nothing else parses to the empty
    document, also when it ends inside a comment that no newline closes. *)
Theorem comments_and_blanks_are_skipped pre :
  skipped pre ->
  (forall d p rest,
     skipn p d = pre ++ rest ->
     turns (mkFILE d p) [] (mkFILE d (p + length pre)))
  /\ (forall rest r,
        parses (pre ++ rest) r <->
        exists fuel,
          ParseConfig_loop fuel (mkFILE (pre ++ rest) (length pre)) (mkConfig 0 [])
          = Some r)
  /\ parses pre (Ok (mkConfig 0 []))
  /\ (forall text,
        forallb (fun a => negb (is_char 10 a)) text = true ->
        parses (pre ++ "#"%char :: text) (Ok (mkConfig 0 []))).
Proof.
  intros Hs. pose proof (turns_skipped pre Hs) as Ht. splits.
  - exact Ht.
  - intros rest r.
    pose proof (Ht (pre ++ rest) 0%nat rest eq_refl) as Hturn. simpl in Hturn.
    split.
    + intros [fuel H]. unfold ParseConfig in H.
      exact (loop_follows_turns _ _ _ Hturn fuel (mkConfig 0 []) r H).
    + intros H. unfold parses, ParseConfig.
      exact (loop_along_turns _ _ _ Hturn (mkConfig 0 []) r H).
  - apply parses_turns. exists [], (mkFILE pre (length pre)), None. splits.
    + apply (Ht pre 0%nat []). simpl. rewrite app_nil_r. reflexivity.
    + apply leaves_at_end. apply skipn_all_nil.
    + reflexivity.
  - intros text Htext. apply parses_turns.
    exists [], (mkFILE (pre ++ "#"%char :: text) (length pre + length text + 1)), None.
    splits.
    + apply (turns_app _ [] (mkFILE (pre ++ "#"%char :: text) (length pre)) []).
      * apply (Ht _ 0%nat ("#"%char :: text)). reflexivity.
      * apply turns_comment_eof; [|exact Htext].
        replace (length pre) with (0 + length pre)%nat by lia.
        apply skipn_app_length. reflexivity.
    + apply leaves_at_end.
      replace (length pre + length text + 1)%nat
        with (length (pre ++ "#"%char :: text))
        by (rewrite length_app; simpl; lia).
      apply skipn_all_nil.
    + reflexivity.
Qed.

Lemma comments_and_blanks_are_skipped_witness :
  (forall d p rest,
     skipn p d = src_comment_line ++ rest ->
     turns (mkFILE d p) [] (mkFILE d (p + length src_comment_line)))
  /\ (forall rest r,
        parses (src_comment_line ++ rest) r <->
        exists fuel,
          ParseConfig_loop fuel (mkFILE (src_comment_line ++ rest)
                                        (length src_comment_line)) (mkConfig 0 [])
          = Some r)
  /\ parses src_comment_line (Ok (mkConfig 0 []))
  /\ (forall text,
        forallb (fun a => negb (is_char 10 a)) text = true ->
        parses (src_comment_line ++ "#"%char :: text) (Ok (mkConfig 0 []))).
Proof.
  apply (comments_and_blanks_are_skipped src_comment_line).
  apply skipped_space; [reflexivity|].
  apply (skipped_comment (bytes "note") []); [reflexivity|].
  apply skipped_nil.
Defined.

(** ** Primitive statements *)

Lemma ends_number_inv c :
  ends_number c = true -> number_char c = false /\ is_char 46 c = false.
Proof.
  unfold ends_number. intros H. apply andb_true_iff in H.
  destruct H as [H1 H2]. apply negb_true_iff in H1. apply negb_true_iff in H2. auto.
Qed.

Lemma space_ends_number a : space_char a = true -> ends_number a = true.
Proof.
  intros H. apply space_not_number_or_point in H.
  apply orb_false_iff in H. destruct H as [H1 H2].
  unfold ends_number. rewrite H1, H2. reflexivity.
Qed.

Lemma ParseValue_reads d p V pv rest fuel :
  skipn p d = V ++ rest ->
  reads_as V pv -> value_stops pv rest ->
  (length V < fuel)%nat ->
  ParseValue fuel (mkFILE d p) = Some (mkFILE d (p + length V), Ok pv).
Proof.
  intros H Hr Hstop Hfuel.
  destruct Hr as [N n HN | a ip fp x Ha Hip Hfp Hx | s Hs].
  - destruct Hstop as (c & r & -> & Hc). apply ends_number_inv in Hc.
    destruct (int_literal_chars _ _ HN) as (Hchars & a & N' & -> & Ha).
    unfold ParseValue. simpl in H. rewrite (fgetc_cons _ _ _ _ H).
    rewrite int_of_char_not_EOF.
    replace (int_of_char a =? 39) with false by (unfold isdigit in Ha; lia).
    rewrite Ha, pushback_S.
    rewrite (ParseGenericNumber_run_integer d p (a :: N') (c :: r) fuel H Hchars)
      by (first [exact Hfuel | exists c, r; tauto]).
    rewrite (strtol_literal _ _ HN). reflexivity.
  - destruct Hstop as (c & r & -> & Hc). apply ends_number_inv in Hc.
    assert (H' : skipn p d = (a :: ip) ++ "."%char :: fp ++ c :: r).
    { rewrite H, <- app_assoc. reflexivity. }
    unfold ParseValue. rewrite (fgetc_cons d p a _ H'), int_of_char_not_EOF.
    replace (int_of_char a =? 39) with false by (unfold isdigit in Ha; lia).
    rewrite Ha, pushback_S.
    rewrite (ParseGenericNumber_run_decimal d p (a :: ip) fp (c :: r) fuel H').
    + rewrite Hx. reflexivity.
    + simpl. unfold number_char at 1. rewrite Ha. exact Hip.
    + exact Hfp.
    + exists c, r. tauto.
    + rewrite length_app in Hfuel. simpl in *. lia.
  - unfold ParseValue.
    change (("'"%char :: s ++ ["'"%char]) ++ rest)
      with ("'"%char :: (s ++ ["'"%char]) ++ rest) in H.
    rewrite (fgetc_cons _ _ _ _ H), int_of_char_not_EOF.
    change (int_of_char "'"%char =? 39) with true. cbv iota.
    apply skipn_cons_S in H. rewrite <- app_assoc in H.
    rewrite (ParseQuotedString_run d (S p) s _ fuel H Hs).
    + simpl. do 3 f_equal. rewrite length_app. simpl. lia.
    + simpl in Hfuel. rewrite length_app in Hfuel. simpl in Hfuel. lia.
Qed.

(** [ParseConfigLine] up to the value of a primitive statement: the key,
    [=] and the white space around it are read, and the line ends as
    [ParseValue], the white space after it and the check for [;] say. *)
Lemma ParseConfigLine_at_value d p k ws1 ws2 a v fuel :
  skipn p d = k ++ ws1 ++ "="%char :: ws2 ++ a :: v ->
  is_key k = true ->
  forallb space_char ws1 = true ->
  forallb space_char ws2 = true ->
  space_char a = false -> is_char 91 a = false ->
  (length k + length ws1 + length ws2 < fuel)%nat ->
  ParseConfigLine fuel (mkFILE d p)
  = match ParseValue fuel (mkFILE d (p + length k + length ws1 + 1 + length ws2)) with
    | Some (file, r) =>
        match consumeSpace fuel file with
        | Some file =>
            let (r2, file) := expect file 59 in
            if r2 <? 0 then Some (file, Err UNEXPECTED_TOKEN)
            else Some (file, map_result (primitive_entry k) r)
        | None => None
        end
    | None => None
    end.
Proof.
  intros H Hk H1 H2 Hasp Hab Hfuel.
  unfold ParseConfigLine.
  rewrite (ParseString_run d p k _ fuel H Hk) by
    (first [lia | apply head_of_ws_app;
                  [exact H1 | apply space_not_key_char | reflexivity]]).
  apply skipn_app_length in H.
  rewrite (consumeSpace_run d ws1 _ _ fuel H H1) by
    (first [lia | exists "="%char; eexists; split; reflexivity]).
  apply skipn_app_length in H.
  rewrite (expect_run _ _ _ _ H : expect _ 61 = _). change (1 <? 0) with false. cbv iota.
  apply skipn_cons_S in H.
  replace (S (p + length k + length ws1)) with (p + length k + length ws1 + 1)%nat
    in * by lia.
  rewrite (consumeSpace_run d ws2 _ _ fuel H H2) by
    (first [lia | exists a; eexists; split; [reflexivity | exact Hasp]]).
  apply skipn_app_length in H.
  rewrite (fgetc_cons _ _ _ _ H), int_of_char_not_EOF.
  unfold is_char in Hab. rewrite Hab, pushback_S.
  destruct (ParseValue fuel (mkFILE d (p + length k + length ws1 + 1 + length ws2)))
    as [[f r]|]; reflexivity.
Qed.

Lemma expect_other d p a r c :
  skipn p d = a :: r -> is_char c a = false ->
  expect (mkFILE d p) c = (-1, mkFILE d (S p)).
Proof.
  intros H Ha. unfold expect. rewrite (fgetc_cons _ _ _ _ H).
  unfold is_char in Ha. rewrite Z.eqb_sym, Ha. reflexivity.
Qed.

Lemma space_not_semicolon a : space_char a = true -> is_char 59 a = false.
Proof. unfold space_char, isspace, is_char. lia. Qed.

Lemma skipn_last_byte {A} (d : list A) q l z :
  skipn q d = l ++ [z] -> skipn (q + length l) d = [z].
Proof. apply skipn_app_length. Qed.

Lemma ParseConfigLine_end d p k ws1 ws2 a v fuel q r ws3 :
  skipn p d = statement_head k ws1 ws2 (a :: v) ->
  is_key k = true ->
  forallb space_char ws1 = true ->
  forallb space_char ws2 = true ->
  space_char a = false -> is_char 91 a = false ->
  ParseValue fuel (mkFILE d (p + length k + length ws1 + 1 + length ws2))
  = Some (mkFILE d q, r) ->
  forallb space_char ws3 = true ->
  (length k + length ws1 + length ws2 + length ws3 < fuel)%nat ->
  (forall post,
     skipn q d = ws3 ++ ";"%char :: post ->
     ParseConfigLine fuel (mkFILE d p)
     = Some (mkFILE d (q + length ws3 + 1), map_result (primitive_entry k) r))
  /\ (forall c post,
        skipn q d = ws3 ++ c :: post ->
        space_char c = false -> is_char 59 c = false ->
        ParseConfigLine fuel (mkFILE d p)
        = Some (mkFILE d (q + length ws3 + 1), Err UNEXPECTED_TOKEN))
  /\ (skipn q d = ws3 -> ws3 <> [] ->
      ParseConfigLine fuel (mkFILE d p)
      = Some (mkFILE d (q + length ws3), Err UNEXPECTED_TOKEN))
  /\ (forall d' z,
        d = d' ++ [z] -> q = length d ->
        ParseConfigLine fuel (mkFILE d p)
        = Some (mkFILE d q,
                if is_char 59 z then map_result (primitive_entry k) r
                else Err UNEXPECTED_TOKEN)).
Proof.
  intros H Hk H1 H2 Hasp Hab Hval H3 Hfuel. unfold statement_head in H.
  pose proof (ParseConfigLine_at_value d p k ws1 ws2 a v fuel H Hk H1 H2 Hasp Hab)
    as Hline.
  rewrite Hval in Hline. rewrite Hline by lia. clear Hline. splits.
  - intros post Hq.
    rewrite (consumeSpace_run d ws3 _ _ fuel Hq H3) by
      (first [lia | exists ";"%char; eexists; split; reflexivity]).
    apply skipn_app_length in Hq.
    rewrite (expect_run _ _ _ _ Hq : expect _ 59 = _).
    change (1 <? 0) with false. cbv iota. do 3 f_equal. lia.
  - intros c post Hq Hc Hsemi.
    rewrite (consumeSpace_run d ws3 _ _ fuel Hq H3) by
      (first [lia | exists c; eexists; split; [reflexivity | exact Hc]]).
    apply skipn_app_length in Hq.
    rewrite (expect_other _ _ _ _ 59 Hq Hsemi).
    change (-1 <? 0) with true. cbv iota. do 3 f_equal. lia.
  - intros Hq Hne.
    rewrite (consumeSpace_eof d ws3 _ fuel Hq H3) by lia.
    destruct (exists_last Hne) as (l & z & ->).
    rewrite length_app. simpl length.
    replace (q + (length l + 1))%nat with (S (q + length l)) by lia.
    rewrite pushback_S.
    pose proof (skipn_last_byte _ _ _ _ Hq) as Hz.
    rewrite forallb_app in H3. apply andb_true_iff in H3. destruct H3 as [_ H3].
    simpl in H3. rewrite andb_true_r in H3.
    rewrite (expect_other _ _ _ _ 59 Hz (space_not_semicolon _ H3)).
    reflexivity.
  - intros d' z Hd Hq.
    assert (Hend : skipn q d = []) by (apply skipn_all2; lia).
    rewrite (consumeSpace_eof d [] q fuel Hend eq_refl) by (simpl; lia).
    simpl length. rewrite Nat.add_0_r.
    assert (Hq' : q = S (length d')).
    { rewrite Hq, Hd, length_app. simpl. lia. }
    rewrite Hq', pushback_S.
    assert (Hz : skipn (length d') d = [z]).
    { rewrite Hd. replace (length d') with (0 + length d')%nat by lia.
      apply skipn_app_length. reflexivity. }
    unfold expect. rewrite (fgetc_cons _ _ _ _ Hz).
    unfold is_char. rewrite (Z.eqb_sym 59).
    destruct (int_of_char z =? 59); reflexivity.
Qed.

(** X6: how a primitive statement ends.  [ParseConfigLine] has read the
    key and [=], and [ParseValue] has stopped at position [q] with the
    result [r], a value or a failure.  If white space and [;] follow, the
    line returns what [ParseValue] returned, the entry or the status of the
    failure, and the stream is after the [;].  If white space and another
    byte follow, the line returns [UNEXPECTED_TOKEN] whatever [ParseValue]
    returned.  At the end of the input after white space also
    [UNEXPECTED_TOKEN].  When [ParseValue] itself stopped at the end of the
    input, the check for [;] reads the last byte of the file once more: the
    line returns what [ParseValue] returned when that byte is [;], and
    [UNEXPECTED_TOKEN] otherwise. *)
Theorem statement_end_decides_status d p k ws1 ws2 a v fuel q r ws3 :
  skipn p d = statement_head k ws1 ws2 (a :: v) ->
  is_key k = true ->
  forallb space_char ws1 = true ->
  forallb space_char ws2 = true ->
  space_char a = false -> is_char 91 a = false ->
  ParseValue fuel (mkFILE d (p + length k + length ws1 + 1 + length ws2))
  = Some (mkFILE d q, r) ->
  forallb space_char ws3 = true ->
  (length k + length ws1 + length ws2 + length ws3 < fuel)%nat ->
  (forall post,
     skipn q d = ws3 ++ ";"%char :: post ->
     ParseConfigLine fuel (mkFILE d p)
     = Some (mkFILE d (q + length ws3 + 1), map_result (primitive_entry k) r))
  /\ (forall c post,
        skipn q d = ws3 ++ c :: post ->
        space_char c = false -> is_char 59 c = false ->
        ParseConfigLine fuel (mkFILE d p)
        = Some (mkFILE d (q + length ws3 + 1), Err UNEXPECTED_TOKEN))
  /\ (skipn q d = ws3 -> ws3 <> [] ->
      ParseConfigLine fuel (mkFILE d p)
      = Some (mkFILE d (q + length ws3), Err UNEXPECTED_TOKEN))
  /\ (forall d' z,
        d = d' ++ [z] -> q = length d ->
        ParseConfigLine fuel (mkFILE d p)
        = Some (mkFILE d q,
                if is_char 59 z then map_result (primitive_entry k) r
                else Err UNEXPECTED_TOKEN)).
Proof. apply ParseConfigLine_end. Qed.

Lemma statement_end_decides_status_witness :
  let d := src_bad_integer in
  let r : result PrimitiveValue := Err INVALID_INTEGER_LITERAL in
  (forall post,
     skipn 8 d = [] ++ ";"%char :: post ->
     ParseConfigLine 20 (mkFILE d 0)
     = Some (mkFILE d (8 + length (@nil ascii) + 1),
             map_result (primitive_entry (bytes "k")) r))
  /\ (forall c post,
        skipn 8 d = [] ++ c :: post ->
        space_char c = false -> is_char 59 c = false ->
        ParseConfigLine 20 (mkFILE d 0)
        = Some (mkFILE d (8 + length (@nil ascii) + 1), Err UNEXPECTED_TOKEN))
  /\ (skipn 8 d = [] -> @nil ascii <> [] ->
      ParseConfigLine 20 (mkFILE d 0)
      = Some (mkFILE d (8 + length (@nil ascii)), Err UNEXPECTED_TOKEN))
  /\ (forall d' z,
        d = d' ++ [z] -> 8%nat = length d ->
        ParseConfigLine 20 (mkFILE d 0)
        = Some (mkFILE d 8,
                if is_char 59 z then map_result (primitive_entry (bytes "k")) r
                else Err UNEXPECTED_TOKEN)).
Proof.
  apply (statement_end_decides_status src_bad_integer 0 (bytes "k") (bytes " ")
           (bytes " ") "1"%char (bytes "2ab;") 20 8 (Err INVALID_INTEGER_LITERAL) []).
  - reflexivity.
  - reflexivity.
  - reflexivity.
  - reflexivity.
  - reflexivity.
  - reflexivity.
  - vm_compute. reflexivity.
  - reflexivity.
  - simpl. lia.
Defined.

(** ** Primitive statements in a document *)

Lemma leaves_line d p k rest fuel f' s :
  skipn p d = k ++ rest ->
  is_key k = true ->
  ParseConfigLine fuel (mkFILE d p) = Some (f', Err s) ->
  leaves (mkFILE d p) (Some s).
Proof.
  intros H Hk Hline.
  pose proof (ParseCfg_run_line d p k rest fuel H Hk) as Hcfg.
  rewrite Hline in Hcfg. cbn [map_result] in Hcfg.
  destruct k as [|a k]; [discriminate|].
  simpl in Hk. apply andb_true_iff in Hk. destruct Hk as [Ha _].
  destruct (isalpha_dispatch _ Ha) as (He & Hnl & Hsp & Hc).
  simpl in H.
  eapply leaves_fail.
  - apply (fgetc_cons _ _ _ _ H).
  - exact He.
  - exact Hsp.
  - rewrite pushback_S. exact Hcfg.
Qed.

Lemma parses_fails_at src es f s :
  turns (fopen src) es f -> leaves f (Some s) -> parses src (Err s).
Proof.
  intros Ht Hl. apply parses_turns. exists es, f, (Some s). splits; auto.
Qed.


Lemma isdigit_head a :
  isdigit (int_of_char a) = true ->
  space_char a = false /\ is_char 91 a = false /\ is_char 39 a = false.
Proof. unfold isdigit, space_char, isspace, is_char. lia. Qed.

Lemma reads_as_head V pv :
  reads_as V pv ->
  exists a v, V = a :: v /\ space_char a = false /\ is_char 91 a = false.
Proof.
  intros [N n HN | a ip fp x Ha _ _ _ | s _].
  - destruct (int_literal_chars _ _ HN) as (_ & a & N' & -> & Ha).
    exists a, N'. destruct (isdigit_head _ Ha) as (? & ? & _). auto.
  - eexists a, _. destruct (isdigit_head _ Ha) as (? & ? & _).
    split; [reflexivity | auto].
  - eexists "'"%char, _. split; [reflexivity | split; reflexivity].
Qed.

Lemma value_stops_after_spaces pv ws rest :
  forallb space_char ws = true ->
  (ws = [] -> value_stops pv rest) ->
  value_stops pv (ws ++ rest).
Proof.
  intros Hws Hrest. destruct ws as [|b ws]; [apply Hrest; reflexivity|].
  apply forallb_cons_inv in Hws. destruct Hws as [Hb _].
  destruct pv; simpl; auto; exists b; eexists; (split; [reflexivity|]);
    apply space_ends_number; exact Hb.
Qed.

Lemma value_stops_semicolon pv post : value_stops pv (";"%char :: post).
Proof.
  destruct pv; simpl; auto; exists ";"%char, post; split; reflexivity.
Qed.

Lemma statement_head_app k ws1 ws2 V T :
  statement_head k ws1 ws2 V ++ T = statement_head k ws1 ws2 (V ++ T).
Proof.
  unfold statement_head. rewrite <- !app_assoc. simpl. rewrite <- !app_assoc.
  reflexivity.
Qed.

Lemma statement_head_length k ws1 ws2 V :
  length (statement_head k ws1 ws2 V)
  = (length k + length ws1 + 1 + length ws2 + length V)%nat.
Proof. unfold statement_head. rewrite !length_app. simpl. rewrite length_app. lia. Qed.

Lemma skipn_statement_head d p k ws1 ws2 X :
  skipn p d = statement_head k ws1 ws2 X ->
  skipn (p + length k + length ws1 + 1 + length ws2) d = X.
Proof.
  unfold statement_head. intros H.
  apply skipn_app_length in H. apply skipn_app_length in H.
  apply skipn_cons_S in H.
  replace (S (p + length k + length ws1)) with (p + length k + length ws1 + 1)%nat
    in H by lia.
  apply skipn_app_length in H. exact H.
Qed.

(** The line of a complete primitive statement. *)
Lemma ParseConfigLine_reads d p k ws1 ws2 V pv ws3 post fuel :
  is_key k = true ->
  forallb space_char ws1 = true ->
  forallb space_char ws2 = true ->
  forallb space_char ws3 = true ->
  reads_as V pv ->
  skipn p d = statement_head k ws1 ws2 V ++ ws3 ++ ";"%char :: post ->
  (length k + length ws1 + length ws2 + length V + length ws3 < fuel)%nat ->
  ParseConfigLine fuel (mkFILE d p)
  = Some (mkFILE d (p + length (statement_head k ws1 ws2 V) + length ws3 + 1),
          Ok (primitive_entry k pv)).
Proof.
  intros Hk H1 H2 H3 Hr H Hfuel.
  destruct (reads_as_head _ _ Hr) as (a & v & HV & Hasp & Hab).
  rewrite statement_head_app in H.
  pose proof (skipn_statement_head _ _ _ _ _ _ H) as Hv.
  assert (Hval : ParseValue fuel (mkFILE d (p + length k + length ws1 + 1 + length ws2))
                 = Some (mkFILE d (p + length k + length ws1 + 1 + length ws2 + length V),
                         Ok pv)).
  { apply (ParseValue_reads _ _ _ _ _ _ Hv Hr); [|lia].
    apply value_stops_after_spaces; [exact H3|]. intros _. apply value_stops_semicolon. }
  rewrite HV in H. simpl app in H.
  destruct (ParseConfigLine_end d p k ws1 ws2 a _ fuel _ _ ws3 H Hk H1 H2 Hasp Hab Hval H3)
    as (Hend & _); [lia|].
  rewrite (Hend post) by (apply skipn_app_length in Hv; exact Hv).
  rewrite statement_head_length. simpl map_result.
  do 3 f_equal. lia.
Qed.

Lemma turns_primitive_statement src p k ws1 ws2 V pv ws3 post :
  is_key k = true ->
  forallb space_char ws1 = true ->
  forallb space_char ws2 = true ->
  forallb space_char ws3 = true ->
  reads_as V pv ->
  skipn p src = statement_head k ws1 ws2 V ++ ws3 ++ ";"%char :: post ->
  turns (mkFILE src p) [primitive_entry k pv]
        (mkFILE src (p + length (statement_head k ws1 ws2 V) + length ws3 + 1)).
Proof.
  intros Hk H1 H2 H3 Hr H.
  eapply (turns_line src p k _
            (S (length k + length ws1 + length ws2 + length V + length ws3))).
  - unfold statement_head in H. rewrite <- app_assoc in H. exact H.
  - exact Hk.
  - eapply ParseConfigLine_reads; eauto.
Qed.



(** X8: an integer literal whose value is above [LONG_MAX] is not
    rejected: [strtol] saturates, the scan of the literal is complete, and
    the statement is parsed into an entry with the value [LONG_MAX]. *)
Theorem integer_literal_saturates src p k ws1 ws2 N n ws3 post :
  is_key k = true ->
  forallb space_char ws1 = true ->
  forallb space_char ws2 = true ->
  forallb space_char ws3 = true ->
  int_literal N n -> LONG_MAX < n ->
  skipn p src = statement_head k ws1 ws2 N ++ ws3 ++ ";"%char :: post ->
  turns (mkFILE src p) [integer_entry k LONG_MAX]
        (mkFILE src (p + length (statement_head k ws1 ws2 N) + length ws3 + 1)).
Proof.
  intros Hk H1 H2 H3 HN Hn H.
  pose proof (turns_primitive_statement _ _ _ _ _ _ _ _ _ Hk H1 H2 H3
                (reads_integer _ _ HN) H) as Ht.
  rewrite Z.min_r in Ht by lia. exact Ht.
Qed.

Lemma integer_literal_saturates_witness :
  turns (mkFILE src_huge_integer 0) [integer_entry (bytes "n") LONG_MAX]
        (mkFILE src_huge_integer
           (0 + length (statement_head (bytes "n") (bytes " ") (bytes " ")
                                       (bytes "9223372036854775808"))
            + length (@nil ascii) + 1)).
Proof.
  apply (integer_literal_saturates src_huge_integer 0 (bytes "n") (bytes " ") (bytes " ")
           (bytes "9223372036854775808")
           (value_in_base 10 (bytes "9223372036854775808")) [] []).
  - reflexivity.
  - reflexivity.
  - reflexivity.
  - reflexivity.
  - apply (lit_decimal "9"%char (bytes "223372036854775808")); reflexivity.
  - vm_compute. reflexivity.
  - reflexivity.
Defined.

(** ** Statements that are not complete *)




Lemma length_from_skipn {A} (d : list A) p l :
  skipn p d = l -> l <> [] -> length d = (p + length l)%nat.
Proof.
  intros H Hne. pose proof (length_skipn p d) as Hl. rewrite H in Hl.
  destruct l; [congruence|]. simpl in *. lia.
Qed.




Lemma after_spaces_split l :
  exists ws,
    l = ws ++ after_spaces l /\ forallb space_char ws = true
    /\ head_is (fun c => negb (space_char c)) (after_spaces l) = true.
Proof.
  induction l as [|a l (ws & Hl & Hws & Hh)].
  - exists []. splits; reflexivity.
  - simpl. destruct (space_char a) eqn:Ha.
    + exists (a :: ws). splits.
      * simpl. f_equal. exact Hl.
      * simpl. rewrite Ha. exact Hws.
      * exact Hh.
    + exists []. splits; try reflexivity. simpl. rewrite Ha. reflexivity.
Qed.

Lemma pushback_same_data f n : exists q, pushback f n = mkFILE (data f) q.
Proof.
  unfold pushback. destruct (n <=? pos f)%nat; [eexists; reflexivity|].
  exists (pos f). destruct f; reflexivity.
Qed.

(** [consumeSpace] returns when its budget is above the number of bytes
    that are left. *)
Lemma consumeSpace_total d p fuel :
  (length (skipn p d) < fuel)%nat ->
  exists q, consumeSpace fuel (mkFILE d p) = Some (mkFILE d q).
Proof.
  intros Hfuel.
  destruct (after_spaces_split (skipn p d)) as (ws & Hl & Hws & Hh).
  assert (Hlen : (length ws <= length (skipn p d))%nat).
  { pose proof (f_equal (@length ascii) Hl) as Hl2.
    rewrite length_app in Hl2. lia. }
  destruct (after_spaces (skipn p d)) as [|c r].
  - rewrite app_nil_r in Hl.
    rewrite (consumeSpace_eof d ws p fuel Hl Hws) by lia.
    destruct (pushback_same_data (mkFILE d (p + length ws)) 1) as [q ->].
    exists q. reflexivity.
  - simpl in Hh. apply negb_true_iff in Hh.
    rewrite (consumeSpace_run d ws p (c :: r) fuel Hl Hws) by (first [lia | eauto]).
    eexists. reflexivity.
Qed.

Lemma ParseString_loop_eof d ks : forall p fuel len,
  skipn p d = ks ->
  forallb key_char ks = true ->
  (length ks < fuel)%nat ->
  ParseString_loop fuel (mkFILE d p) len
  = Some (pushback (mkFILE d (p + length ks)) 1, (len + length ks)%nat).
Proof.
  induction ks as [|a ks IH]; intros p fuel len H Hk Hfuel;
    (destruct fuel as [|fuel]; [simpl in Hfuel; lia|]).
  - cbn [ParseString_loop]. rewrite (fgetc_nil _ _ H).
    change (negb (isalnum EOF) && negb (IsSpecialSymbol EOF)) with true. cbv iota.
    simpl length. rewrite !Nat.add_0_r. reflexivity.
  - apply forallb_cons_inv in Hk. destruct Hk as [Ha Hk].
    cbn [ParseString_loop]. rewrite (fgetc_cons _ _ _ _ H).
    unfold key_char in Ha. apply orb_true_iff in Ha.
    replace (negb (isalnum (int_of_char a)) && negb (IsSpecialSymbol (int_of_char a)))
      with false by (destruct Ha as [-> | ->]; simpl; rewrite ?andb_false_r; reflexivity).
    rewrite (IH (S p) fuel (S len)).
    + simpl length.
      replace (S p + length ks)%nat with (p + S (length ks))%nat by lia.
      replace (S len + length ks)%nat with (len + S (length ks))%nat by lia.
      reflexivity.
    + eapply skipn_cons_S. exact H.
    + exact Hk.
    + simpl in Hfuel. lia.
Qed.

(** A key that runs into the end of the input: [ParseString] returns, and
    leaves the stream inside or right after the key. *)
Lemma ParseString_at_end fuel d p a ks :
  skipn p d = a :: ks ->
  isalpha (int_of_char a) = true ->
  forallb key_char ks = true ->
  (length ks < fuel)%nat ->
  exists q key,
    ParseString fuel (mkFILE d p) = Some (mkFILE d q, Some key)
    /\ (p <= q <= length d)%nat.
Proof.
  intros Hs Ha Hks Hfuel. unfold ParseString, consumeLetter.
  rewrite (fgetc_cons _ _ _ _ Hs), Ha. cbn [negb]. cbv iota.
  change (1 <? 0) with false. cbv iota.
  pose proof (skipn_cons_S _ _ _ _ Hs) as Hs'.
  rewrite (ParseString_loop_eof d ks (S p) fuel 1 Hs' Hks Hfuel).
  assert (Hlen : (length d = p + S (length ks))%nat).
  { pose proof (length_skipn p d) as Hl. rewrite Hs in Hl. simpl in Hl. lia. }
  replace (S p + length ks)%nat with (S (p + length ks)) by lia.
  rewrite pushback_S.
  unfold fgets. cbn [data pos].
  set (q0 := pos (pushback (mkFILE d (p + length ks)) (1 + length ks))).
  assert (Hpb : pushback (mkFILE d (p + length ks)) (1 + length ks) = mkFILE d q0
                /\ ((p = 0%nat /\ q0 = length ks) \/ (p = S q0))).
  { unfold q0, pushback. cbn [pos data].
    destruct (1 + length ks <=? p + length ks)%nat eqn:El.
    - apply Nat.leb_le in El. cbn [pos]. split; [reflexivity|]. right. lia.
    - apply Nat.leb_gt in El. cbn [pos]. split; [reflexivity|]. left. lia. }
  destruct Hpb as [Hpb Hq0]. rewrite Hpb. cbn [data pos].
  clearbody q0. eexists. eexists. split; [reflexivity|].
  replace (1 + length ks + 1 - 1)%nat with (S (length ks)) by lia.
  pose proof (fgets_read_length (S (length ks)) (skipn q0 d)) as Hle.
  rewrite length_skipn in Hle.
  destruct Hq0 as [[-> ->] | ->].
  - lia.
  - split; [|lia].
    destruct (skipn q0 d) as [|x t] eqn:Hx.
    + exfalso. apply (f_equal (@length ascii)) in Hx.
      rewrite length_skipn in Hx. simpl in Hx. lia.
    + pose proof (fgets_read_nonempty (length ks) x t). lia.
Qed.

(** The line of a statement whose [=] is missing. *)
Lemma ParseConfigLine_no_equals d p k tail :
  is_key k = true ->
  skipn p d = k ++ tail ->
  head_is (fun c => negb (key_char c)) tail = true ->
  head_is (fun c => negb (is_char 61 c)) (after_spaces tail) = true ->
  exists f',
    ParseConfigLine (S (length d)) (mkFILE d p) = Some (f', Err UNEXPECTED_TOKEN).
Proof.
  intros Hk H Hhead Heq.
  assert (Hlen : (length d = p + length (k ++ tail))%nat).
  { apply length_from_skipn; [exact H|]. destruct k; discriminate. }
  rewrite length_app in Hlen.
  set (fuel := S (length d)). unfold ParseConfigLine.
  destruct tail as [|t0 tail0].
  - (* the key is the last thing in the file *)
    rewrite app_nil_r in H. destruct k as [|a ks]; [discriminate|].
    simpl in Hk. apply andb_true_iff in Hk. destruct Hk as [Ha Hks].
    destruct (ParseString_at_end fuel d p a ks H Ha Hks) as (q & key & -> & Hq).
    { unfold fuel. simpl in Hlen. lia. }
    destruct (consumeSpace_total d q fuel) as [q' Hcs].
    { rewrite length_skipn. unfold fuel. lia. }
    rewrite Hcs.
    assert (Hexp : fst (expect (mkFILE d q') 61) = -1).
    { apply (key_tail_no_equals d p (a :: ks) q fuel _ H);
        [discriminate | | exact Hq | exact Hcs].
      simpl. rewrite (isalpha_key_char _ Ha). exact Hks. }
    destruct (expect (mkFILE d q') 61) as [r f5]. simpl in Hexp. subst r.
    eexists. reflexivity.
  - assert (Hrest : exists c r, t0 :: tail0 = c :: r /\ key_char c = false).
    { exists t0, tail0. split; [reflexivity|].
      simpl in Hhead. apply negb_true_iff in Hhead. exact Hhead. }
    remember (t0 :: tail0) as tail eqn:Etail. clear Etail Hhead.
    rewrite (ParseString_run d p k tail fuel H Hk Hrest) by (unfold fuel; lia).
    apply skipn_app_length in H.
    destruct (after_spaces_split tail) as (ws & Hl & Hws & Hh).
    assert (Hwl : (length ws <= length tail)%nat).
    { pose proof (f_equal (@length ascii) Hl) as Hl2.
      rewrite length_app in Hl2. lia. }
    destruct (after_spaces tail) as [|c r].
    + rewrite app_nil_r in Hl. rewrite Hl in H, Hrest, Hlen.
      rewrite (consumeSpace_eof d ws _ fuel H Hws) by (unfold fuel; lia).
      destruct (exists_last (l := ws)) as (l & z & ->).
      { destruct Hrest as (? & ? & -> & _). discriminate. }
      rewrite length_app. simpl length.
      replace (p + length k + (length l + 1))%nat with (S (p + length k + length l))
        by lia.
      rewrite pushback_S.
      pose proof (skipn_last_byte _ _ _ _ H) as Hz.
      rewrite forallb_app in Hws. apply andb_true_iff in Hws. destruct Hws as [_ Hws].
      simpl in Hws. rewrite andb_true_r in Hws.
      rewrite (expect_other _ _ _ _ 61 Hz)
        by (revert Hws; unfold space_char, isspace, is_char; lia).
      eexists. reflexivity.
    + simpl in Hh, Heq. apply negb_true_iff in Hh. apply negb_true_iff in Heq.
      rewrite Hl in H.
      rewrite (consumeSpace_run d ws _ _ fuel H Hws) by (first [unfold fuel; lia | eauto]).
      apply skipn_app_length in H.
      rewrite (expect_other _ _ _ _ 61 H Heq).
      eexists. reflexivity.
Qed.

(** X10: a statement whose [=] is missing fails with [UNEXPECTED_TOKEN]:
    after the key and any white space comes the end of the input or a byte
    other than [=].  The key ends where the first byte that is no key
    character stands, or at the end of the input. *)
Theorem missing_equals_is_unexpected_token src p es k tail :
  turns (fopen src) es (mkFILE src p) ->
  is_key k = true ->
  skipn p src = k ++ tail ->
  head_is (fun c => negb (key_char c)) tail = true ->
  head_is (fun c => negb (is_char 61 c)) (after_spaces tail) = true ->
  parses src (Err UNEXPECTED_TOKEN).
Proof.
  intros Ht Hk H Hhead Heq.
  destruct (ParseConfigLine_no_equals _ _ _ _ Hk H Hhead Heq) as [f' Hline].
  apply (parses_fails_at src es _ _ Ht).
  eapply (leaves_line src p k); [exact H | exact Hk | exact Hline].
Qed.

Lemma missing_equals_is_unexpected_token_witness :
  parses src_no_equals (Err UNEXPECTED_TOKEN).
Proof.
  apply (missing_equals_is_unexpected_token src_no_equals 0 [] (bytes "key")
           (bytes " 1;")).
  - apply turns_done.
  - reflexivity.
  - reflexivity.
  - reflexivity.
  - reflexivity.
Defined.

Lemma starts_no_value_inv c :
  starts_no_value c = true ->
  isdigit (int_of_char c) = false /\ (int_of_char c =? 39) = false
  /\ (int_of_char c =? 91) = false.
Proof.
  unfold starts_no_value, is_char. intros H.
  apply andb_true_iff in H. destruct H as [H H3].
  apply andb_true_iff in H. destruct H as [H1 H2].
  apply negb_true_iff in H1. apply negb_true_iff in H2. apply negb_true_iff in H3.
  auto.
Qed.

Lemma space_starts_no_value a : space_char a = true -> starts_no_value a = true.
Proof.
  unfold space_char, isspace, starts_no_value, is_char, isdigit. lia.
Qed.

(** [ParseValue] on a byte with which no value starts: the byte is read
    and the status is [UNEXPECTED_TOKEN]. *)
Lemma ParseValue_no_value d p c r fuel :
  skipn p d = c :: r -> starts_no_value c = true ->
  ParseValue fuel (mkFILE d p) = Some (mkFILE d (S p), Err UNEXPECTED_TOKEN).
Proof.
  intros H Hc. destruct (starts_no_value_inv _ Hc) as (Hd & Hq & _).
  unfold ParseValue. rewrite (fgetc_cons _ _ _ _ H), int_of_char_not_EOF, Hq, Hd.
  reflexivity.
Qed.

(** The end of a line after a value that failed with [UNEXPECTED_TOKEN]:
    the status is the same whether [;] follows or not. *)
Lemma line_end_after_token d q fuel (k : list ascii) :
  (length d < fuel)%nat ->
  exists f',
    match consumeSpace fuel (mkFILE d q) with
    | Some file =>
        let (r2, file) := expect file 59 in
        if r2 <? 0 then Some (file, Err UNEXPECTED_TOKEN)
        else Some (file, map_result (primitive_entry k) (Err UNEXPECTED_TOKEN))
    | None => None
    end = Some (f', @Err ConfigEntry UNEXPECTED_TOKEN).
Proof.
  intros Hfuel.
  destruct (consumeSpace_total d q fuel) as [q' ->].
  { rewrite length_skipn. lia. }
  destruct (expect (mkFILE d q') 59) as [r2 f].
  destruct (r2 <? 0); eexists; reflexivity.
Qed.

(** The line of a statement that has no value after [=]. *)
Lemma ParseConfigLine_no_value d p k ws1 tail :
  is_key k = true ->
  forallb space_char ws1 = true ->
  skipn p d = k ++ ws1 ++ "="%char :: tail ->
  head_is starts_no_value (after_spaces tail) = true ->
  exists f',
    ParseConfigLine (S (length d)) (mkFILE d p) = Some (f', Err UNEXPECTED_TOKEN).
Proof.
  intros Hk H1 H Hhead.
  assert (Hlen : (length d = p + length (k ++ ws1 ++ "="%char :: tail))%nat).
  { apply length_from_skipn; [exact H|]. destruct k; discriminate. }
  rewrite !length_app in Hlen. simpl length in Hlen.
  set (fuel := S (length d)).
  destruct (after_spaces_split tail) as (ws & Hl & Hws & Hh).
  assert (Hwl : (length ws <= length tail)%nat).
  { pose proof (f_equal (@length ascii) Hl) as Hl2.
    rewrite length_app in Hl2. lia. }
  destruct (after_spaces tail) as [|c r].
  - (* the input ends after [=] and white space *)
    rewrite app_nil_r in Hl. rewrite Hl in H, Hlen. clear Hl Hwl Hh Hhead tail.
    unfold ParseConfigLine.
    rewrite (ParseString_run d p k _ fuel H Hk) by
      (first [unfold fuel; lia
             | apply head_of_ws_app;
               [exact H1 | apply space_not_key_char | reflexivity]]).
    apply skipn_app_length in H.
    rewrite (consumeSpace_run d ws1 _ _ fuel H H1) by
      (first [unfold fuel; lia | exists "="%char; eexists; split; reflexivity]).
    apply skipn_app_length in H.
    rewrite (expect_run _ _ _ _ H : expect _ 61 = _).
    change (1 <? 0) with false. cbv iota.
    pose proof (skipn_cons_S _ _ _ _ H) as H'.
    rewrite (consumeSpace_eof d ws _ fuel H' Hws) by (unfold fuel; lia).
    destruct (exists_last (l := "="%char :: ws)) as (l & z & Hlz); [discriminate|].
    assert (Hz : starts_no_value z = true).
    { assert (Hall : forallb starts_no_value ("="%char :: ws) = true).
      { simpl. eapply forallb_impl; [|exact Hws]. apply space_starts_no_value. }
      rewrite Hlz, forallb_app in Hall. apply andb_true_iff in Hall.
      destruct Hall as [_ Hall]. simpl in Hall. rewrite andb_true_r in Hall.
      exact Hall. }
    assert (Hll : S (length ws) = (length l + 1)%nat).
    { apply (f_equal (@length ascii)) in Hlz. rewrite length_app in Hlz.
      simpl in Hlz. lia. }
    replace (S (p + length k + length ws1) + length ws)%nat
      with (S (p + length k + length ws1 + length l)) by lia.
    rewrite pushback_S.
    rewrite Hlz in H. apply skipn_last_byte in H.
    destruct (starts_no_value_inv _ Hz) as (_ & _ & Hb).
    rewrite (fgetc_cons _ _ _ _ H), int_of_char_not_EOF, Hb, pushback_S.
    rewrite (ParseValue_no_value d _ z [] fuel H Hz).
    apply (line_end_after_token d _ fuel k). unfold fuel. lia.
  - simpl in Hh, Hhead. apply negb_true_iff in Hh.
    rewrite Hl in H.
    destruct (starts_no_value_inv _ Hhead) as (_ & _ & Hb).
    rewrite (ParseConfigLine_at_value d p k ws1 ws c r fuel H Hk H1 Hws Hh Hb)
      by (unfold fuel; lia).
    apply skipn_app_length in H. apply skipn_app_length in H.
    apply skipn_cons_S in H.
    replace (S (p + length k + length ws1)) with (p + length k + length ws1 + 1)%nat
      in H by lia.
    apply skipn_app_length in H.
    rewrite (ParseValue_no_value d _ c r fuel H Hhead).
    apply (line_end_after_token d _ fuel k). unfold fuel. lia.
Qed.

(** X11: a statement without a value fails with [UNEXPECTED_TOKEN]: after
    [key =] and any white space comes the end of the input or a byte that
    is no digit, no quote and no opening bracket, such as a sign, a
    letter or [;].  Negative numbers and bare words are no values. *)
Theorem no_value_is_unexpected_token src p es k ws1 tail :
  turns (fopen src) es (mkFILE src p) ->
  is_key k = true ->
  forallb space_char ws1 = true ->
  skipn p src = k ++ ws1 ++ "="%char :: tail ->
  head_is starts_no_value (after_spaces tail) = true ->
  parses src (Err UNEXPECTED_TOKEN).
Proof.
  intros Ht Hk H1 H Hhead.
  destruct (ParseConfigLine_no_value _ _ _ _ _ Hk H1 H Hhead) as [f' Hline].
  apply (parses_fails_at src es _ _ Ht).
  eapply (leaves_line src p k); [exact H | exact Hk | exact Hline].
Qed.

Lemma no_value_is_unexpected_token_witness :
  parses src_negative (Err UNEXPECTED_TOKEN).
Proof.
  apply (no_value_is_unexpected_token src_negative 0 [] (bytes "k") (bytes " ")
           (bytes " -1;")).
  - apply turns_done.
  - reflexivity.
  - reflexivity.
  - reflexivity.
  - reflexivity.
Defined.

(** ** Strings of more than one line *)

(** [fgets] stops after the first newline, also when more bytes were asked
    for. *)
Lemma fgets_read_line s1 : forall n t,
  forallb (fun a => negb (is_char 10 a)) s1 = true ->
  (length s1 < n)%nat ->
  fgets_read n (s1 ++ LF :: t) = s1 ++ [LF].
Proof.
  induction s1 as [|a s1 IH]; intros n t Hs Hn;
    (destruct n as [|n]; [simpl in Hn; lia|]).
  - reflexivity.
  - apply forallb_cons_inv in Hs. destruct Hs as [Ha Hs].
    unfold is_char in Ha. apply negb_true_iff in Ha.
    simpl. rewrite Ha. f_equal. apply IH; [exact Hs | simpl in Hn; lia].
Qed.

Lemma cstring_line s1 :
  forallb (fun a => negb (is_char 0 a)) s1 = true ->
  cstring (s1 ++ [LF]) = s1 ++ [LF].
Proof.
  intros H. apply cstring_no_nul. rewrite forallb_app, H. reflexivity.
Qed.

Lemma ParseQuotedString_two_lines d p s1 x s2 rest fuel :
  skipn p d = s1 ++ LF :: x :: s2 ++ "'"%char :: rest ->
  forallb (fun a => negb (is_char 39 a)) (s1 ++ LF :: x :: s2) = true ->
  forallb (fun a => negb (is_char 10 a)) s1 = true ->
  forallb (fun a => negb (is_char 0 a)) s1 = true ->
  (length (s1 ++ LF :: x :: s2) < fuel)%nat ->
  ParseQuotedString fuel (mkFILE d p)
  = Some (mkFILE d (p + length s1 + 2), Ok (s1 ++ [LF])).
Proof.
  intros H Hq Hnl Hnul Hfuel. unfold ParseQuotedString.
  assert (H' : skipn p d = (s1 ++ LF :: x :: s2) ++ "'"%char :: rest).
  { rewrite H, <- app_assoc. reflexivity. }
  rewrite (ParseQuotedString_loop_run d _ p rest 0 fuel H' Hq Hfuel).
  replace (p + length (s1 ++ LF :: x :: s2) + 1)%nat
    with (p + (0 + length (s1 ++ LF :: x :: s2) + 1))%nat by lia.
  rewrite pushback_add. simpl Nat.add.
  unfold fgets. cbn [data pos]. rewrite H.
  replace (length (s1 ++ LF :: x :: s2) + 1 - 1)%nat
    with (length (s1 ++ LF :: x :: s2)) by lia.
  rewrite (fgets_read_line s1 _ _ Hnl) by (rewrite length_app; simpl; lia).
  rewrite (cstring_line _ Hnul).
  assert (Hx : skipn (p + length (s1 ++ [LF])) d = x :: s2 ++ "'"%char :: rest).
  { apply skipn_app_length. rewrite H, <- app_assoc. reflexivity. }
  rewrite (fgetc_cons _ _ _ _ Hx).
  do 3 f_equal. rewrite length_app. simpl. lia.
Qed.

(** X12: a quoted string that goes on after a newline.  [fgets] copies
    the string only up to its first newline, and the byte that is dropped
    as the closing quote is the byte after that newline: the value is the
    first line with its newline, and the stream is left on the second byte
    of the second line, not after the closing quote.  What stands there is
    read as the rest of the statement and as further statements. *)
Theorem string_is_cut_after_first_newline d p s1 x s2 rest fuel :
  skipn p d = s1 ++ LF :: x :: s2 ++ "'"%char :: rest ->
  forallb (fun a => negb (is_char 39 a)) (s1 ++ LF :: x :: s2) = true ->
  forallb (fun a => negb (is_char 10 a)) s1 = true ->
  forallb (fun a => negb (is_char 0 a)) s1 = true ->
  (length (s1 ++ LF :: x :: s2) < fuel)%nat ->
  ParseQuotedString fuel (mkFILE d p)
  = Some (mkFILE d (p + length s1 + 2), Ok (s1 ++ [LF]))
  /\ skipn (p + length s1 + 2) d = s2 ++ "'"%char :: rest.
Proof.
  intros H Hq Hnl Hnul Hfuel. split.
  - apply (ParseQuotedString_two_lines d p s1 x s2 rest fuel); assumption.
  - replace (p + length s1 + 2)%nat with (p + length (s1 ++ [LF; x]))%nat
      by (rewrite length_app; simpl; lia).
    apply skipn_app_length. rewrite H, <- app_assoc. reflexivity.
Qed.

Lemma string_is_cut_after_first_newline_witness :
  (ParseQuotedString 20 (mkFILE src_two_line_string 5)
   = Some (mkFILE src_two_line_string (5 + length (bytes "a") + 2),
           Ok (bytes "a" ++ [LF]))
   /\ skipn (5 + length (bytes "a") + 2) src_two_line_string
      = bytes "; c = " ++ "'"%char :: bytes "x';")
  /\ parses src_two_line_string
       (Ok (mkConfig 2 [primitive_entry (bytes "k") (String (bytes "a" ++ [LF]));
                        primitive_entry (bytes "c") (String (bytes "x"))])).
Proof.
  split.
  - apply (string_is_cut_after_first_newline src_two_line_string 5 (bytes "a")
             "b"%char (bytes "; c = ") (bytes "x';") 20).
    + reflexivity.
    + reflexivity.
    + reflexivity.
    + reflexivity.
    + simpl. lia.
  - exists 40%nat. vm_compute. reflexivity.
Defined.

(** ** Arrays *)












(** ** An array whose last byte is a comma *)









(** ** A string that is not closed *)

Lemma ParseValue_open_string d p s fuel :
  skipn p d = "'"%char :: s ->
  forallb (fun a => negb (is_char 39 a)) s = true ->
  (length s < fuel)%nat ->
  ParseValue fuel (mkFILE d p)
  = Some (mkFILE d (S p + length s), Err UNEXPECTED_EOF).
Proof.
  intros H Hs Hfuel. unfold ParseValue.
  rewrite (fgetc_cons _ _ _ _ H), int_of_char_not_EOF.
  change (int_of_char "'"%char =? 39) with true. cbv iota.
  apply skipn_cons_S in H.
  rewrite (ParseQuotedString_unterminated d (S p) fuel); rewrite H; auto.
Qed.

Lemma ParseConfigLine_open_string d p k ws1 ws2 s :
  is_key k = true ->
  forallb space_char ws1 = true ->
  forallb space_char ws2 = true ->
  forallb (fun a => negb (is_char 39 a)) s = true ->
  skipn p d = statement_head k ws1 ws2 ("'"%char :: s) ->
  ParseConfigLine (S (length d)) (mkFILE d p)
  = Some (mkFILE d (length d),
          Err (if is_char 59 (last s "'"%char) then UNEXPECTED_EOF
               else UNEXPECTED_TOKEN)).
Proof.
  intros Hk H1 H2 Hs H.
  assert (Hlen : (length d = p + length (statement_head k ws1 ws2 ("'"%char :: s)))%nat).
  { apply length_from_skipn; [exact H|]. unfold statement_head.
    destruct k; discriminate. }
  rewrite statement_head_length in Hlen. simpl length in Hlen.
  pose proof (skipn_statement_head _ _ _ _ _ _ H) as Hv.
  set (q0 := (p + length k + length ws1 + 1 + length ws2)%nat) in *.
  set (fuel := S (length d)).
  assert (Hval : ParseValue fuel (mkFILE d q0)
                 = Some (mkFILE d (length d), Err UNEXPECTED_EOF)).
  { rewrite (ParseValue_open_string d q0 s fuel Hv Hs) by (unfold fuel; lia).
    do 3 f_equal. unfold q0. lia. }
  destruct (ParseConfigLine_end d p k ws1 ws2 "'"%char s fuel (length d)
              (Err UNEXPECTED_EOF) [] H Hk H1 H2 eq_refl eq_refl Hval eq_refl)
    as (_ & _ & _ & He); [unfold fuel; simpl; lia|].
  assert (Hd : d = (firstn q0 d ++ removelast ("'"%char :: s))
                   ++ [last s "'"%char]).
  { rewrite <- (firstn_skipn q0 d) at 1. rewrite Hv, <- app_assoc. f_equal.
    rewrite (app_removelast_last "'"%char (l := "'"%char :: s)) at 1
      by discriminate.
    f_equal. destruct s; reflexivity. }
  rewrite (He _ _ Hd eq_refl).
  destruct (is_char 59 (last s "'"%char)); reflexivity.
Qed.

(** X15: a primitive statement whose string is not closed: from the quote
    to the end of the input no further quote.  [ParseQuotedString] reads to
    the end of the input and returns [UNEXPECTED_EOF]; the check for [;]
    then reads the last byte of the file once more.  The parse fails with
    [UNEXPECTED_EOF] when that byte is [;], and with [UNEXPECTED_TOKEN]
    otherwise. *)
Theorem open_string_statement_fails src p es k ws1 ws2 s :
  turns (fopen src) es (mkFILE src p) ->
  is_key k = true ->
  forallb space_char ws1 = true ->
  forallb space_char ws2 = true ->
  forallb (fun a => negb (is_char 39 a)) s = true ->
  skipn p src = statement_head k ws1 ws2 ("'"%char :: s) ->
  parses src (Err (if is_char 59 (last s "'"%char) then UNEXPECTED_EOF
                   else UNEXPECTED_TOKEN)).
Proof.
  intros Ht Hk H1 H2 Hs H.
  apply (parses_fails_at src es _ _ Ht).
  eapply (leaves_line src p k); [exact H | exact Hk |].
  apply (ParseConfigLine_open_string src p k ws1 ws2 s); assumption.
Qed.

Lemma open_string_statement_fails_witness :
  parses src_open_string_semicolon
    (Err (if is_char 59 (last (bytes "abc;") "'"%char) then UNEXPECTED_EOF
          else UNEXPECTED_TOKEN)).
Proof.
  apply (open_string_statement_fails src_open_string_semicolon 0 [] (bytes "k")
           (bytes " ") (bytes " ") (bytes "abc;")).
  - apply turns_done.
  - reflexivity.
  - reflexivity.
  - reflexivity.
  - reflexivity.
  - reflexivity.
Defined.

(** ** The stream stays inside the file *)

Lemma within_mk d p : (p <= length d)%nat -> within d (mkFILE d p).
Proof. intros H. split; [reflexivity | exact H]. Qed.

Lemma within_inv d f : within d f -> exists q, f = mkFILE d q /\ (q <= length d)%nat.
Proof. destruct f as [d' q]. intros [Hd Hq]. simpl in *. subst. eauto. Qed.

Lemma fgetc_within d f c f1 : within d f -> fgetc f = (c, f1) -> within d f1.
Proof.
  intros [Hd Hp]. unfold fgetc.
  destruct (nth_error (data f) (pos f)) as [a|] eqn:E; intros H; injection H as <- <-.
  - split; [exact Hd|]. simpl.
    assert (pos f < length (data f))%nat by (apply nth_error_Some; congruence).
    rewrite Hd in *. lia.
  - split; assumption.
Qed.

Lemma pushback_within d f n : within d f -> within d (pushback f n).
Proof.
  intros [Hd Hp]. unfold pushback. destruct (n <=? pos f)%nat; split; simpl; auto; lia.
Qed.

Lemma fgets_within d f n b f1 : within d f -> fgets n f = (b, f1) -> within d f1.
Proof.
  intros [Hd Hp]. unfold fgets. intros H. injection H as <- <-.
  split; [exact Hd|]. simpl.
  pose proof (fgets_read_length (n - 1) (skipn (pos f) (data f))) as Hl.
  rewrite length_skipn in Hl. rewrite Hd in Hl |- *. lia.
Qed.

Lemma fgetc_eof_inv d p c f1 :
  fgetc (mkFILE d p) = (c, f1) -> (c =? EOF) = true ->
  f1 = mkFILE d p /\ (length d <= p)%nat.
Proof.
  unfold fgetc. simpl. destruct (nth_error d p) as [a|] eqn:E; intros H He.
  - injection H as <- <-. rewrite int_of_char_not_EOF in He. discriminate.
  - injection H as <- <-. split; [reflexivity|]. apply nth_error_None. exact E.
Qed.

Lemma ParseComment_within d fuel : forall f f',
  within d f -> ParseComment fuel f = Some f' -> within d f'.
Proof.
  induction fuel as [|n IH]; intros f f' Hw H; [discriminate|].
  simpl in H. destruct (fgetc f) as [c f1] eqn:Hc.
  pose proof (fgetc_within _ _ _ _ Hw Hc) as Hw1.
  destruct ((c =? 10) || (c =? EOF)); [injection H as <-; exact Hw1 | eauto].
Qed.

(** After [consumeSpace] the stream is before the end of the file, also
    when the white space ran into it. *)
Lemma consumeSpace_within d fuel : forall f f',
  within d f -> consumeSpace fuel f = Some f' ->
  within d f' /\ (d <> [] -> (pos f' < length d)%nat).
Proof.
  induction fuel as [|n IH]; intros f f' Hw H; [discriminate|].
  simpl in H. destruct (fgetc f) as [c f1] eqn:Hc.
  pose proof (fgetc_within _ _ _ _ Hw Hc) as Hw1.
  destruct (isspace c); simpl in H; [eauto|].
  injection H as <-. split; [apply pushback_within; exact Hw1|].
  intros Hne. destruct (within_inv _ _ Hw) as (q & -> & Hq).
  destruct (c =? EOF) eqn:He.
  - destruct (fgetc_eof_inv _ _ _ _ Hc He) as [-> Hle].
    unfold pushback. cbn [pos data].
    assert (0 < length d)%nat by (destruct d; [congruence | simpl; lia]).
    destruct (1 <=? q)%nat eqn:E1; cbn [pos]; [|apply Nat.leb_gt in E1]; lia.
  - destruct (fgetc_inv _ _ _ _ Hc He) as (a & r & Hs & _ & ->).
    rewrite pushback_S. simpl.
    pose proof (length_skipn q d) as Hl. rewrite Hs in Hl. simpl in Hl. lia.
Qed.

Lemma ParseString_loop_within d fuel : forall f len f' len',
  within d f -> ParseString_loop fuel f len = Some (f', len') -> within d f'.
Proof.
  induction fuel as [|n IH]; intros f len f' len' Hw H; [discriminate|].
  simpl in H. destruct (fgetc f) as [c f1] eqn:Hc.
  pose proof (fgetc_within _ _ _ _ Hw Hc) as Hw1.
  destruct (negb (isalnum c) && negb (IsSpecialSymbol c)); [|eauto].
  injection H as <- <-. apply pushback_within. exact Hw1.
Qed.

Lemma ParseString_within d fuel f f' key :
  within d f -> ParseString fuel f = Some (f', key) -> within d f'.
Proof.
  intros Hw. unfold ParseString, consumeLetter.
  destruct (fgetc f) as [c f1] eqn:Hc.
  pose proof (fgetc_within _ _ _ _ Hw Hc) as Hw1.
  destruct (negb (isalpha c)); cbn.
  - intros H. injection H as <- <-. exact Hw1.
  - destruct (ParseString_loop fuel f1 1) as [[f2 len]|] eqn:E; [|discriminate].
    pose proof (ParseString_loop_within _ _ _ _ _ _ Hw1 E) as Hw2.
    destruct (fgets (len + 1) (pushback f2 len)) as [b f3] eqn:Eg.
    intros H. injection H as <- <-.
    eapply fgets_within; [|exact Eg]. apply pushback_within. exact Hw2.
Qed.

Lemma ParseQuotedString_loop_within d fuel : forall f len f' r,
  within d f -> ParseQuotedString_loop fuel f len = Some (f', r) -> within d f'.
Proof.
  induction fuel as [|n IH]; intros f len f' r Hw H; [discriminate|].
  simpl in H. destruct (fgetc f) as [c f1] eqn:Hc.
  pose proof (fgetc_within _ _ _ _ Hw Hc) as Hw1.
  destruct (c =? EOF); [injection H as <- <-; exact Hw1|].
  destruct (c =? 39); [injection H as <- <-; exact Hw1 | eauto].
Qed.

Lemma ParseQuotedString_within d fuel f f' r :
  within d f -> ParseQuotedString fuel f = Some (f', r) -> within d f'.
Proof.
  intros Hw. unfold ParseQuotedString.
  destruct (ParseQuotedString_loop fuel f 0) as [[f1 [len|s]]|] eqn:E; [| |discriminate].
  - pose proof (ParseQuotedString_loop_within _ _ _ _ _ _ Hw E) as Hw1.
    destruct (fgets (len + 1) (pushback f1 (len + 1))) as [b f2] eqn:Eg.
    destruct (fgetc f2) as [c f3] eqn:Ec.
    intros H. injection H as <- <-.
    eapply fgetc_within; [|exact Ec].
    eapply fgets_within; [|exact Eg]. apply pushback_within. exact Hw1.
  - intros H. injection H as <- <-.
    eapply ParseQuotedString_loop_within; eauto.
Qed.

Lemma ParseGenericNumber_loop_within d fuel : forall f len fd fl f' r,
  within d f -> ParseGenericNumber_loop fuel f len fd fl = Some (f', r) ->
  within d f'.
Proof.
  induction fuel as [|n IH]; intros f len fd fl f' r Hw H; [discriminate|].
  simpl in H. destruct (fgetc f) as [c f1] eqn:Hc.
  pose proof (fgetc_within _ _ _ _ Hw Hc) as Hw1.
  destruct (c =? EOF); [injection H as <- <-; exact Hw1|].
  destruct (isdigit c || IsHexDigit c || (c =? 120) || (c =? 88)); [eauto|].
  destruct ((c =? 46) && fd); [eauto|].
  injection H as <- <-. apply pushback_within. exact Hw1.
Qed.

Lemma ParseGenericNumber_within d fuel f f' r :
  within d f -> ParseGenericNumber fuel f = Some (f', r) -> within d f'.
Proof.
  intros Hw. unfold ParseGenericNumber.
  destruct (ParseGenericNumber_loop fuel f 0 true false) as [[f1 [[len fl]|s]]|] eqn:E;
    [| |discriminate].
  - pose proof (ParseGenericNumber_loop_within _ _ _ _ _ _ _ _ Hw E) as Hw1.
    destruct (fgets (len + 1) (pushback f1 len)) as [b f2] eqn:Eg.
    assert (Hw2 : within d f2).
    { eapply fgets_within; [|exact Eg]. apply pushback_within. exact Hw1. }
    destruct fl.
    + destruct (strtod (cstring b)) as [x e]. destruct (negb (is_nil e));
        intros H; injection H as <- <-; exact Hw2.
    + destruct (strtol (cstring b)) as [x e]. destruct (negb (is_nil e));
        intros H; injection H as <- <-; exact Hw2.
  - intros H. injection H as <- <-.
    eapply ParseGenericNumber_loop_within; eauto.
Qed.

Lemma ParseValue_within d fuel f f' r :
  within d f -> ParseValue fuel f = Some (f', r) -> within d f'.
Proof.
  intros Hw. unfold ParseValue. destruct (fgetc f) as [c f1] eqn:Hc.
  pose proof (fgetc_within _ _ _ _ Hw Hc) as Hw1.
  destruct (c =? EOF); [intros H; injection H as <- <-; exact Hw1|].
  destruct (c =? 39).
  - destruct (ParseQuotedString fuel f1) as [[f2 q]|] eqn:E; [|discriminate].
    intros H. injection H as <- <-. eapply ParseQuotedString_within; eauto.
  - destruct (isdigit c).
    + apply ParseGenericNumber_within. apply pushback_within. exact Hw1.
    + intros H. injection H as <- <-. exact Hw1.
Qed.

(** The loop of [ParseVector] keeps the stream inside the file and never
    returns [UNEXPECTED_EOF]: after [consumeSpace] there is always a byte
    to read. *)
Lemma ParseVector_loop_within d fuel : forall f vec more f' r,
  within d f -> d <> [] ->
  ParseVector_loop fuel f vec more = Some (f', r) ->
  within d f' /\ r <> Err UNEXPECTED_EOF.
Proof.
  induction fuel as [|n IH]; intros f vec more f' r Hw Hne H; [discriminate|].
  simpl in H. destruct (consumeSpace n f) as [f1|] eqn:Es; [|discriminate].
  destruct (consumeSpace_within _ _ _ _ Hw Es) as [Hw1 Hlt].
  specialize (Hlt Hne).
  destruct (fgetc f1) as [c f2] eqn:Hc.
  pose proof (fgetc_within _ _ _ _ Hw1 Hc) as Hw2.
  destruct (c =? EOF) eqn:He.
  - exfalso. destruct (within_inv _ _ Hw1) as (q & -> & Hq). simpl in Hlt.
    destruct (fgetc_eof_inv _ _ _ _ Hc He) as [_ Hle]. lia.
  - destruct (c =? 93); [injection H as <- <-; split; [exact Hw2 | discriminate]|].
    destruct (c =? 44); [eauto|].
    destruct (negb more); [injection H as <- <-; split; [exact Hw2 | discriminate]|].
    destruct (ParseValue n (pushback f2 1)) as [[f3 [pv|s]]|] eqn:Ev; [| |discriminate].
    + eapply IH; [|exact Hne|exact H].
      eapply ParseValue_within; [|exact Ev]. apply pushback_within. exact Hw2.
    + injection H as <- <-. split; [|discriminate].
      eapply ParseValue_within; [|exact Ev]. apply pushback_within. exact Hw2.
Qed.

Lemma expect_within d f c r f1 : within d f -> expect f c = (r, f1) -> within d f1.
Proof.
  intros Hw. unfold expect. destruct (fgetc f) as [ch f2] eqn:Hc.
  pose proof (fgetc_within _ _ _ _ Hw Hc) as Hw2.
  destruct (negb (c =? ch)); intros H; injection H as <- <-; exact Hw2.
Qed.

Lemma ParseConfigLine_within d fuel f f' r :
  within d f -> d <> [] -> ParseConfigLine fuel f = Some (f', r) -> within d f'.
Proof.
  intros Hw Hne. unfold ParseConfigLine.
  destruct (ParseString fuel f) as [[f1 [key|]]|] eqn:E1; [| |discriminate].
  2:{ intros H. injection H as <- <-. eapply ParseString_within; eauto. }
  pose proof (ParseString_within _ _ _ _ _ Hw E1) as Hw1.
  destruct (consumeSpace fuel f1) as [f4|] eqn:E2; [|discriminate].
  destruct (consumeSpace_within _ _ _ _ Hw1 E2) as [Hw4 _].
  destruct (expect f4 61) as [r1 f5] eqn:E3.
  pose proof (expect_within _ _ _ _ _ Hw4 E3) as Hw5.
  destruct (r1 <? 0); [intros H; injection H as <- <-; exact Hw5|].
  destruct (consumeSpace fuel f5) as [f6|] eqn:E4; [|discriminate].
  destruct (consumeSpace_within _ _ _ _ Hw5 E4) as [Hw6 _].
  destruct (fgetc f6) as [ch f7] eqn:E5.
  pose proof (fgetc_within _ _ _ _ Hw6 E5) as Hw7.
  destruct (ch =? EOF); [intros H; injection H as <- <-; exact Hw7|].
  assert (Hend : forall f8 (status : result ConfigEntry),
             within d f8 ->
             match consumeSpace fuel f8 with
             | Some file =>
                 let (r2, file0) := expect file 59 in
                 if r2 <? 0 then Some (file0, Err UNEXPECTED_TOKEN)
                 else Some (file0, status)
             | None => None
             end = Some (f', r) -> within d f').
  { intros f8 status Hw8.
    destruct (consumeSpace fuel f8) as [f9|] eqn:E7; [|discriminate].
    destruct (consumeSpace_within _ _ _ _ Hw8 E7) as [Hw9 _].
    destruct (expect f9 59) as [r2 f10] eqn:E8.
    pose proof (expect_within _ _ _ _ _ Hw9 E8) as Hw10.
    destruct (r2 <? 0); intros H; injection H as <- <-; exact Hw10. }
  destruct (ch =? 91).
  - destruct (ParseVector fuel f7) as [[f8 q]|] eqn:E6; [|discriminate].
    apply Hend. eapply ParseVector_loop_within; [exact Hw7 | exact Hne | exact E6].
  - destruct (ParseValue fuel (pushback f7 1)) as [[f8 q]|] eqn:E6; [|discriminate].
    apply Hend. eapply ParseValue_within; [|exact E6].
    apply pushback_within. exact Hw7.
Qed.

Lemma ParseCfg_within d fuel : forall f f' r,
  within d f -> d <> [] -> ParseCfg fuel f = Some (f', r) -> within d f'.
Proof.
  induction fuel as [|n IH]; intros f f' r Hw Hne H; [discriminate|].
  simpl in H. destruct (fgetc f) as [c f1] eqn:Hc.
  pose proof (fgetc_within _ _ _ _ Hw Hc) as Hw1.
  destruct (c =? EOF); [injection H as <- <-; exact Hw1|].
  destruct (c =? 10); [injection H as <- <-; exact Hw1|].
  destruct (isspace c); [eauto|].
  destruct (c =? 35).
  - destruct (ParseComment n f1) as [f2|] eqn:E; [|discriminate].
    injection H as <- <-. eapply ParseComment_within; eauto.
  - destruct (isalpha c); [|injection H as <- <-; exact Hw1].
    destruct (ParseConfigLine n (pushback f1 1)) as [[f2 q]|] eqn:E; [|discriminate].
    injection H as <- <-.
    eapply ParseConfigLine_within; [|exact Hne|exact E].
    apply pushback_within. exact Hw1.
Qed.

Lemma turns_within d f es f' :
  turns f es f' -> within d f -> d <> [] -> within d f'.
Proof.
  induction 1 as [f | f c f1 es f' Hc Hsp _ IH
                  | f c f1 fuel f2 es f' Hc He Hsp Hcfg _ IH
                  | f c f1 fuel f2 e es f' Hc He Hsp Hcfg _ IH];
    intros Hw Hne.
  - exact Hw.
  - apply IH; [|exact Hne]. eapply fgetc_within; eauto.
  - apply IH; [|exact Hne].
    eapply ParseCfg_within; [|exact Hne|exact Hcfg].
    apply pushback_within. eapply fgetc_within; eauto.
  - apply IH; [|exact Hne].
    eapply ParseCfg_within; [|exact Hne|exact Hcfg].
    apply pushback_within. eapply fgetc_within; eauto.
Qed.

(** *** Where [UNEXPECTED_EOF] comes from *)

Lemma ParseQuotedString_loop_eof_inv fuel : forall d p len f' s,
  ParseQuotedString_loop fuel (mkFILE d p) len = Some (f', Err s) ->
  (p <= length d)%nat ->
  f' = mkFILE d (length d)
  /\ forallb (fun a => negb (is_char 39 a)) (skipn p d) = true.
Proof.
  induction fuel as [|n IH]; intros d p len f' s H Hp; [discriminate|].
  simpl in H. destruct (fgetc (mkFILE d p)) as [c f1] eqn:Hc.
  destruct (c =? EOF) eqn:He.
  - injection H as <- _.
    destruct (fgetc_eof_inv _ _ _ _ Hc He) as [-> Hle].
    replace p with (length d) by lia. split; [reflexivity|].
    rewrite skipn_all. reflexivity.
  - destruct (fgetc_inv _ _ _ _ Hc He) as (a & r & Hs & -> & ->).
    destruct (int_of_char a =? 39) eqn:Hq; [discriminate|].
    assert (Hp' : (S p <= length d)%nat).
    { pose proof (length_skipn p d) as Hl. rewrite Hs in Hl. simpl in Hl. lia. }
    destruct (IH _ _ _ _ _ H Hp') as [-> Hall]. split; [reflexivity|].
    rewrite Hs. simpl. unfold is_char at 1. rewrite Hq.
    pose proof (skipn_cons_S _ _ _ _ Hs) as Hs'. rewrite <- Hs'. exact Hall.
Qed.

Lemma ParseValue_eof_inv fuel d q a r f8 :
  skipn q d = a :: r ->
  ParseValue fuel (mkFILE d q) = Some (f8, Err UNEXPECTED_EOF) ->
  a = "'"%char /\ forallb (fun b => negb (is_char 39 b)) r = true
  /\ f8 = mkFILE d (length d).
Proof.
  intros Hs. unfold ParseValue.
  rewrite (fgetc_cons _ _ _ _ Hs), int_of_char_not_EOF.
  destruct (int_of_char a =? 39) eqn:Hq.
  - unfold ParseQuotedString.
    destruct (ParseQuotedString_loop fuel (mkFILE d (S q)) 0) as [[f1 [len|s]]|] eqn:E;
      [| |discriminate].
    + destruct (fgets (len + 1) (pushback f1 (len + 1))) as [b f2].
      destruct (fgetc f2). discriminate.
    + intros H. injection H as <- _.
      assert (Hp' : (S q <= length d)%nat).
      { pose proof (length_skipn q d) as Hl. rewrite Hs in Hl. simpl in Hl. lia. }
      destruct (ParseQuotedString_loop_eof_inv _ _ _ _ _ _ E Hp') as [-> Hall].
      pose proof (skipn_cons_S _ _ _ _ Hs) as Hs'. rewrite Hs' in Hall.
      splits; [|exact Hall|reflexivity].
      apply Z.eqb_eq in Hq. unfold int_of_char in Hq.
      change 39 with (Z.of_N (N_of_ascii "'"%char)) in Hq.
      apply N2Z.inj in Hq.
      rewrite <- (ascii_N_embedding a), Hq. reflexivity.
  - destruct (isdigit (int_of_char a)).
    + rewrite pushback_S. intros H. apply ParseGenericNumber_status in H.
      destruct H as [H | [H | H]]; discriminate.
    + discriminate.
Qed.

Lemma last_byte_at {A} (d d' : list A) z :
  d = d' ++ [z] -> skipn (length d - 1) d = [z].
Proof.
  intros ->. rewrite length_app. simpl.
  replace (length d' + 1 - 1)%nat with (0 + length d')%nat by lia.
  apply skipn_app_length. reflexivity.
Qed.

(** The end of a line when the parser of the value stopped at the end of
    the file: the line returns the status of the value only when the last
    byte of the file is [;]. *)
Lemma line_end_at_eof d fuel f' (status r : result ConfigEntry) :
  d <> [] ->
  match consumeSpace fuel (mkFILE d (length d)) with
  | Some file =>
      let (r2, file0) := expect file 59 in
      if r2 <? 0 then Some (file0, Err UNEXPECTED_TOKEN)
      else Some (file0, status)
  | None => None
  end = Some (f', r) ->
  r <> Err UNEXPECTED_TOKEN ->
  exists d', d = d' ++ [";"%char].
Proof.
  intros Hne H Hr.
  destruct (exists_last Hne) as (d' & z & Hd).
  destruct fuel as [|n]; [discriminate|].
  rewrite (consumeSpace_eof d [] (length d) (S n)) in H;
    [|apply skipn_all|reflexivity|simpl; lia].
  simpl length in H. rewrite Nat.add_0_r in H.
  assert (Hl : length d = S (length d')).
  { rewrite Hd, length_app. simpl. lia. }
  rewrite Hl, pushback_S in H.
  pose proof (last_byte_at _ _ _ Hd) as Hz.
  rewrite Hl in Hz. simpl in Hz. rewrite Nat.sub_0_r in Hz.
  unfold expect in H. rewrite (fgetc_cons _ _ _ _ Hz) in H.
  destruct (59 =? int_of_char z) eqn:E; simpl in H.
  - exists d'. rewrite Hd. do 2 f_equal.
    apply Z.eqb_eq in E. unfold int_of_char in E.
    change 59 with (Z.of_N (N_of_ascii ";"%char)) in E.
    apply N2Z.inj in E.
    rewrite <- (ascii_N_embedding z), <- E. reflexivity.
  - injection H as _ <-. congruence.
Qed.

Lemma ParseConfigLine_eof_inv d fuel f f' :
  within d f -> d <> [] ->
  ParseConfigLine fuel f = Some (f', Err UNEXPECTED_EOF) ->
  exists q s d',
    skipn q d = "'"%char :: s
    /\ forallb (fun a => negb (is_char 39 a)) s = true
    /\ d = d' ++ [";"%char].
Proof.
  intros Hw Hne. unfold ParseConfigLine.
  destruct (ParseString fuel f) as [[f1 [key|]]|] eqn:E1; [|discriminate|discriminate].
  pose proof (ParseString_within _ _ _ _ _ Hw E1) as Hw1.
  destruct (consumeSpace fuel f1) as [f4|] eqn:E2; [|discriminate].
  destruct (consumeSpace_within _ _ _ _ Hw1 E2) as [Hw4 _].
  destruct (expect f4 61) as [r1 f5] eqn:E3.
  pose proof (expect_within _ _ _ _ _ Hw4 E3) as Hw5.
  destruct (r1 <? 0); [discriminate|].
  destruct (consumeSpace fuel f5) as [f6|] eqn:E4; [|discriminate].
  destruct (consumeSpace_within _ _ _ _ Hw5 E4) as [Hw6 Hlt]. specialize (Hlt Hne).
  destruct (within_inv _ _ Hw6) as (q & -> & Hq). simpl in Hlt.
  destruct (fgetc (mkFILE d q)) as [ch f7] eqn:E5.
  pose proof (fgetc_within _ _ _ _ Hw6 E5) as Hw7.
  destruct (ch =? EOF) eqn:He.
  { exfalso. destruct (fgetc_eof_inv _ _ _ _ E5 He) as [_ Hle]. lia. }
  destruct (fgetc_inv _ _ _ _ E5 He) as (a & r & Hs & -> & ->).
  destruct (int_of_char a =? 91).
  - destruct (ParseVector fuel (mkFILE d (S q))) as [[f8 qv]|] eqn:E6; [|discriminate].
    destruct (ParseVector_loop_within _ _ _ _ _ _ _ Hw7 Hne E6) as [Hw8 Hqv].
    destruct (consumeSpace fuel f8) as [f9|]; [|discriminate].
    destruct (expect f9 59) as [r2 f10].
    destruct (r2 <? 0); [discriminate|].
    intros H. exfalso. destruct qv as [vec|s]; [discriminate|].
    simpl in H. injection H as _ ->. apply Hqv. reflexivity.
  - rewrite pushback_S.
    destruct (ParseValue fuel (mkFILE d q)) as [[f8 qv]|] eqn:E6; [|discriminate].
    intros H.
    assert (Hqv : qv = Err UNEXPECTED_EOF).
    { destruct (consumeSpace fuel f8) as [f9|]; [|discriminate].
      destruct (expect f9 59) as [r2 f10].
      destruct (r2 <? 0); [discriminate|].
      destruct qv as [pv|s]; [discriminate|].
      simpl in H. injection H as _ ->. reflexivity. }
    subst qv.
    destruct (ParseValue_eof_inv _ _ _ _ _ _ Hs E6) as (-> & Hall & ->).
    destruct (line_end_at_eof d fuel _ _ _ Hne H) as [d' Hd]; [discriminate|].
    exists q, r, d'. splits; auto.
Qed.

Lemma ParseCfg_eof_inv d fuel f c f1 f' :
  within d f -> d <> [] ->
  fgetc f = (c, f1) -> (c =? EOF) = false -> isspace c = false ->
  ParseCfg fuel f = Some (f', Err UNEXPECTED_EOF) ->
  exists q s d',
    skipn q d = "'"%char :: s
    /\ forallb (fun a => negb (is_char 39 a)) s = true
    /\ d = d' ++ [";"%char].
Proof.
  intros Hw Hne Hc He Hsp H.
  destruct fuel as [|n]; [discriminate|].
  simpl in H. rewrite Hc, He, Hsp in H.
  destruct (c =? 10); [discriminate|].
  destruct (c =? 35).
  - destruct (ParseComment n f1); discriminate.
  - destruct (isalpha c); [|discriminate].
    rewrite (fgetc_pushback _ _ _ Hc He) in H.
    destruct (ParseConfigLine n f) as [[f2 [e|s]]|] eqn:E; [discriminate| |discriminate].
    simpl in H. injection H as _ ->.
    eapply ParseConfigLine_eof_inv; eauto.
Qed.

Lemma parses_empty r : parses [] r -> r = Ok (mkConfig 0 []).
Proof.
  intros H. apply (parses_functional [] _ _ H).
  exists 1%nat. reflexivity.
Qed.

(** X16: every source whose parse fails with [UNEXPECTED_EOF] holds a
    quote after which no further quote stands, and its last byte is [;].
    So a source that ends otherwise, after a key, after [=], inside a
    number, or with any last byte other than [;], never fails with
    [UNEXPECTED_EOF]. *)
Theorem unexpected_eof_only_from_open_string src :
  parses src (Err UNEXPECTED_EOF) ->
  exists pre s,
    src = pre ++ "'"%char :: s ++ [";"%char]
    /\ forallb (fun a => negb (is_char 39 a)) s = true.
Proof.
  intros H.
  assert (Hne : src <> []).
  { intros ->. apply parses_empty in H. discriminate. }
  apply parses_turns in H. destruct H as (es & f' & o & Ht & Hl & Hr).
  destruct Hl as [f0 _ | f0 c f1 fuel f2 s0 Hc He Hsp Hcfg]; [discriminate|].
  simpl in Hr. injection Hr as <-.
  assert (Hw : within src f0).
  { eapply turns_within; [exact Ht | | exact Hne]. apply within_mk. lia. }
  rewrite (fgetc_pushback _ _ _ Hc He) in Hcfg.
  destruct (ParseCfg_eof_inv _ _ _ _ _ _ Hw Hne Hc He Hsp Hcfg)
    as (q & s & d' & Hs & Hall & Hd).
  assert (Hsplit : src = firstn q src ++ "'"%char :: s).
  { rewrite <- Hs. symmetry. apply firstn_skipn. }
  destruct s as [|b s'] using rev_ind.
  - exfalso. rewrite Hd in Hsplit at 1.
    change (firstn q src ++ ["'"%char]) with (firstn q src ++ ["'"%char]) in Hsplit.
    apply app_inj_tail in Hsplit. destruct Hsplit as [_ Hq]. discriminate.
  - clear IHs'. rewrite forallb_app in Hall. apply andb_true_iff in Hall.
    destruct Hall as [Hall _].
    assert (Hb : b = ";"%char).
    { rewrite Hd in Hsplit at 1.
      change (firstn q src ++ "'"%char :: s' ++ [b])
        with (firstn q src ++ ("'"%char :: s') ++ [b]) in Hsplit.
      rewrite app_assoc in Hsplit.
      apply app_inj_tail in Hsplit. destruct Hsplit as [_ Hq]. congruence. }
    subst b. exists (firstn q src), s'. split; [exact Hsplit | exact Hall].
Qed.

Lemma unexpected_eof_only_from_open_string_witness :
  exists pre s,
    src_open_string_semicolon = pre ++ "'"%char :: s ++ [";"%char]
    /\ forallb (fun a => negb (is_char 39 a)) s = true.
Proof.
  apply (unexpected_eof_only_from_open_string src_open_string_semicolon).
  exists 30%nat. vm_compute. reflexivity.
Defined.

(** X17: the loop of [ParseVector] never returns [UNEXPECTED_EOF].  It is
    entered after [[] was read, inside the file; [consumeSpace] un-reads
    the last byte when it runs into the end of the input, so the byte that
    the loop reads next is never the end of the input.  An array that is
    not closed fails with [UNEXPECTED_TOKEN] or [INVALID_ARRAY_ELEMENT], or
    the loop does not return. *)
Theorem ParseVector_never_unexpected_eof d p fuel vec more f' r :
  (0 < p <= length d)%nat ->
  ParseVector_loop fuel (mkFILE d p) vec more = Some (f', r) ->
  r <> Err UNEXPECTED_EOF
  /\ (forall s, r = Err s -> s = UNEXPECTED_TOKEN \/ s = INVALID_ARRAY_ELEMENT)
  /\ within d f'.
Proof.
  intros Hp H.
  assert (Hne : d <> []) by (intros ->; simpl in Hp; lia).
  destruct (ParseVector_loop_within d fuel _ _ _ _ _ (within_mk d p ltac:(lia)) Hne H)
    as [Hw Hr].
  splits; [exact Hr | | exact Hw].
  intros s ->. apply ParseVector_loop_status in H.
  destruct H as [-> | [-> | ->]]; auto. contradiction Hr. reflexivity.
Qed.

Lemma ParseVector_never_unexpected_eof_witness :
  @Err Vector INVALID_ARRAY_ELEMENT <> Err UNEXPECTED_EOF
  /\ (forall s, @Err Vector INVALID_ARRAY_ELEMENT = Err s ->
                s = UNEXPECTED_TOKEN \/ s = INVALID_ARRAY_ELEMENT)
  /\ within src_open_number (mkFILE src_open_number 7).
Proof.
  apply (ParseVector_never_unexpected_eof src_open_number 5 10 (mkVector 0 []) true).
  - simpl. lia.
  - vm_compute. reflexivity.
Defined.

(** ** The program of [test.c] *)

Lemma parse_failures_negative s : In s parse_failures -> s < 0.
Proof.
  unfold parse_failures. simpl.
  intros [<- | [<- | [<- | [<- | [<- | []]]]]]; reflexivity.
Qed.

Lemma ParseConfig_status fuel contents r :
  ParseConfig fuel contents = Some r ->
  match r with
  | Ok config => exists src, contents = Some src /\ parses src (Ok config)
  | Err s => s < 0 /\ In (ErrToString s) failure_messages
             /\ (contents = None \/ exists src, contents = Some src
                                                /\ parses src (Err s))
  end.
Proof.
  destruct contents as [src|]; intros H.
  - destruct r as [config|s].
    + exists src. split; [reflexivity | exists fuel; exact H].
    + assert (Hp : parses src (Err s)) by (exists fuel; exact H).
      pose proof (parses_failures _ _ Hp) as Hin. splits.
      * apply parse_failures_negative. exact Hin.
      * unfold failure_messages. apply in_map. right. exact Hin.
      * right. exists src. auto.
  - simpl in H. injection H as <-. splits; [reflexivity | left; reflexivity | auto].
Qed.

Lemma main_outcome fuel fs argv0 args out code :
  main fuel fs argv0 args = Some (out, code) ->
  (code = 0
   /\ exists name src config,
        args = [name] /\ fs name = Some src /\ parses src (Ok config)
        /\ out = DumpConfig config)
  \/ (code = 1
      /\ ((length args <> 1%nat
           /\ out = bytes "Usage: " ++ argv0 ++ bytes " [CONFIGURATION_FILE]" ++ [LF])
          \/ exists name s,
               args = [name] /\ s < 0 /\ out = bytes (ErrToString s)
               /\ In (ErrToString s) failure_messages
               /\ (fs name = None
                   \/ exists src, fs name = Some src /\ parses src (Err s)))).
Proof.
  unfold main. destruct args as [|name [|name2 args]].
  - intros H. injection H as <- <-. right. split; [reflexivity|]. left.
    split; [discriminate | reflexivity].
  - destruct (ParseConfig fuel (fs name)) as [r|] eqn:E; [|discriminate].
    pose proof (ParseConfig_status _ _ _ E) as Hr.
    destruct r as [config|s]; simpl.
    + intros H. injection H as <- <-. left. split; [reflexivity|].
      destruct Hr as (src & Hfs & Hp). exists name, src, config. auto.
    + destruct Hr as (Hneg & Hmsg & Hsrc).
      replace (s <? 0) with true by (symmetry; apply Z.ltb_lt; exact Hneg).
      intros H. injection H as <- <-. right. split; [reflexivity|]. right.
      exists name, s. splits; auto.
  - intros H. injection H as <- <-. right. split; [reflexivity|]. left.
    split; [simpl; lia | reflexivity].
Qed.

(** X18: what [main] does.  It exits with 0 or with 1.  With 0 it was given
    one argument, the file of that name was opened and its parse succeeded,
    and it has written the serialization of the parsed document and
    nothing else.  With 1 it has written the usage line, the number of
    arguments being other than one, or else the message of the negative
    status of the parse, one of six fixed messages and never
    [Unknown error.], without a newline. *)
Theorem main_exit_status_and_output fuel fs argv0 args out code :
  main fuel fs argv0 args = Some (out, code) ->
  (code = 0
   /\ exists name src config,
        args = [name] /\ fs name = Some src /\ parses src (Ok config)
        /\ out = DumpConfig config)
  \/ (code = 1
      /\ ((length args <> 1%nat
           /\ out = bytes "Usage: " ++ argv0 ++ bytes " [CONFIGURATION_FILE]" ++ [LF])
          \/ exists name s,
               args = [name] /\ s < 0 /\ out = bytes (ErrToString s)
               /\ In (ErrToString s) failure_messages
               /\ (fs name = None
                   \/ exists src, fs name = Some src /\ parses src (Err s)))).
Proof. apply main_outcome. Qed.

Lemma main_exit_status_and_output_witness :
  ((0 : Z) = 0
   /\ exists name src config,
        [bytes "a.cfg"] = [name]
        /\ one_file (bytes "a.cfg") src_two_statements name = Some src
        /\ parses src (Ok config)
        /\ bytes "a = 1;" ++ LF :: bytes "k = 42;" ++ [LF] = DumpConfig config)
  \/ ((0 : Z) = 1
      /\ ((length [bytes "a.cfg"] <> 1%nat
           /\ bytes "a = 1;" ++ LF :: bytes "k = 42;" ++ [LF]
              = bytes "Usage: " ++ bytes "cfg" ++ bytes " [CONFIGURATION_FILE]" ++ [LF])
          \/ exists name s,
               [bytes "a.cfg"] = [name] /\ s < 0
               /\ bytes "a = 1;" ++ LF :: bytes "k = 42;" ++ [LF] = bytes (ErrToString s)
               /\ In (ErrToString s) failure_messages
               /\ (one_file (bytes "a.cfg") src_two_statements name = None
                   \/ exists src,
                        one_file (bytes "a.cfg") src_two_statements name = Some src
                        /\ parses src (Err s)))).
Proof.
  apply (main_exit_status_and_output 30 (one_file (bytes "a.cfg") src_two_statements)
           (bytes "cfg") [bytes "a.cfg"]).
  vm_compute. reflexivity.
Defined.

(** X19: [main] reprints its own output.  When [main] exits with 0 on a
    file, and the floats of the parsed document are printed by [%lf]
    without loss, then [main] run on a file that holds the output exits
    with 0 and writes the same output again. *)
Theorem main_reprints_its_output fuel fs fs' argv0 name name' src out :
  fs name = Some src ->
  main fuel fs argv0 [name] = Some (out, 0) ->
  (forall config, parses src (Ok config) -> floats_stable config) ->
  fs' name' = Some out ->
  exists fuel', main fuel' fs' argv0 [name'] = Some (out, 0).
Proof.
  intros Hfs Hmain Hst Hfs'.
  destruct (main_outcome _ _ _ _ _ _ Hmain) as [(_ & n & src0 & config & Hn & Hs & Hp & ->)
                                                | [Hc _]]; [|discriminate].
  injection Hn as <-. rewrite Hfs in Hs. injection Hs as <-.
  pose proof (Hst _ Hp) as Hstable.
  destruct (parses_wf _ _ Hp) as [Hlen Hwf].
  assert (Hre : parses (DumpConfig config) (Ok config)).
  { destruct config as [cnt es]. simpl in *. subst cnt.
    apply parses_dumped; assumption. }
  destruct Hre as [fuel' Hre]. exists fuel'.
  unfold main. rewrite Hfs', Hre. reflexivity.
Qed.

Lemma main_reprints_its_output_witness :
  exists fuel',
    main fuel' (one_file (bytes "b.cfg") (bytes "a = 1;" ++ LF :: bytes "k = 42;" ++ [LF]))
         (bytes "cfg") [bytes "b.cfg"]
    = Some (bytes "a = 1;" ++ LF :: bytes "k = 42;" ++ [LF], 0).
Proof.
  apply (main_reprints_its_output 30 (one_file (bytes "a.cfg") src_two_statements)
           (one_file (bytes "b.cfg") (bytes "a = 1;" ++ LF :: bytes "k = 42;" ++ [LF]))
           (bytes "cfg") (bytes "a.cfg") (bytes "b.cfg") src_two_statements).
  - reflexivity.
  - vm_compute. reflexivity.
  - intros config Hp.
    assert (Hc : config = mkConfig 2 [integer_entry (bytes "a") 1;
                                      integer_entry (bytes "k") 42]).
    { assert (H2 : parses src_two_statements
                     (Ok (mkConfig 2 [integer_entry (bytes "a") 1;
                                      integer_entry (bytes "k") 42])))
        by (exists 30%nat; vm_compute; reflexivity).
      pose proof (parses_functional _ _ _ Hp H2) as Heq. congruence. }
    subst config. unfold floats_stable. simpl.
    constructor; [exact I|]. constructor; [exact I|]. constructor.
  - reflexivity.
Defined.

(** ** Malformed numbers *)

Lemma ends_number_after_spaces ws post :
  forallb space_char ws = true ->
  exists c r, ws ++ ";"%char :: post = c :: r
              /\ number_char c = false /\ is_char 46 c = false.
Proof.
  intros Hws. destruct ws as [|b ws].
  - exists ";"%char, post. splits; reflexivity.
  - apply forallb_cons_inv in Hws. destruct Hws as [Hb _].
    exists b, (ws ++ ";"%char :: post). split; [reflexivity|].
    apply ends_number_inv. apply space_ends_number. exact Hb.
Qed.

Lemma ParseValue_number_failure d p N s ws post fuel :
  number_failure N s ->
  skipn p d = N ++ ws ++ ";"%char :: post ->
  forallb space_char ws = true ->
  (length N < fuel)%nat ->
  ParseValue fuel (mkFILE d p) = Some (mkFILE d (p + length N), Err s).
Proof.
  intros HN H Hws Hfuel.
  destruct (ends_number_after_spaces ws post Hws) as (c & r & Hcr & Hc1 & Hc2).
  destruct HN as [a t Ha Ht Hrest | a ip fp Ha Hip Hfp Hrest].
  - unfold ParseValue. simpl in H. rewrite (fgetc_cons _ _ _ _ H), int_of_char_not_EOF.
    replace (int_of_char a =? 39) with false by (unfold isdigit in Ha; lia).
    rewrite Ha, pushback_S.
    rewrite (ParseGenericNumber_run_integer d p (a :: t) _ fuel H).
    + destruct (strtol (a :: t)) as [n e]. simpl in Hrest.
      destruct e; [congruence | reflexivity].
    + simpl. unfold number_char at 1. rewrite Ha. exact Ht.
    + exists c, r. auto.
    + exact Hfuel.
  - assert (H' : skipn p d = (a :: ip) ++ "."%char :: fp ++ ws ++ ";"%char :: post).
    { rewrite H, <- app_assoc. reflexivity. }
    unfold ParseValue. rewrite (fgetc_cons d p a _ H'), int_of_char_not_EOF.
    replace (int_of_char a =? 39) with false by (unfold isdigit in Ha; lia).
    rewrite Ha, pushback_S.
    rewrite (ParseGenericNumber_run_decimal d p (a :: ip) fp _ fuel H').
    + destruct (strtod ((a :: ip) ++ "."%char :: fp)) as [x e]. simpl in Hrest.
      destruct e; [congruence | reflexivity].
    + simpl. unfold number_char at 1. rewrite Ha. exact Hip.
    + exact Hfp.
    + exists c, r. auto.
    + rewrite length_app in Hfuel. simpl in *. lia.
Qed.

Lemma ParseConfigLine_number_failure d p k ws1 ws2 N s ws3 post :
  is_key k = true ->
  forallb space_char ws1 = true ->
  forallb space_char ws2 = true ->
  forallb space_char ws3 = true ->
  number_failure N s ->
  skipn p d = statement_head k ws1 ws2 N ++ ws3 ++ ";"%char :: post ->
  exists fuel f', ParseConfigLine fuel (mkFILE d p) = Some (f', Err s).
Proof.
  intros Hk H1 H2 H3 HN H.
  assert (Hhead : exists a v, N = a :: v /\ isdigit (int_of_char a) = true).
  { destruct HN as [a t Ha _ _ | a ip fp Ha _ _ _];
      [exists a, t | exists a, (ip ++ "."%char :: fp)]; split; auto. }
  destruct Hhead as (a & v & HV & Ha).
  destruct (isdigit_head _ Ha) as (Hasp & Hab & _).
  rewrite statement_head_app in H.
  pose proof (skipn_statement_head _ _ _ _ _ _ H) as Hv.
  set (fuel := S (length k + length ws1 + length ws2 + length N + length ws3)).
  pose proof (ParseValue_number_failure d _ N s ws3 post fuel HN Hv H3) as Hval.
  rewrite HV in H. simpl app in H.
  destruct (ParseConfigLine_end d p k ws1 ws2 a _ fuel _ _ ws3 H Hk H1 H2 Hasp Hab
              (Hval ltac:(unfold fuel; lia)) H3) as (Hend & _); [unfold fuel; lia|].
  exists fuel. eexists. apply (Hend post).
  apply skipn_app_length in Hv. exact Hv.
Qed.

(** X20: a number that its conversion does not read to the end.  The scan
    captures digits, the letters [a]-[f], [A]-[F], [x], [X] and the first
    point; when [strtol] (no point, base 0) or [strtod] (with a point)
    stops before the end of the captured bytes, the statement fails with
    [INVALID_INTEGER_LITERAL] resp. [INVALID_DECIMAL_LITERAL], although it
    is complete up to its [;]. *)
Theorem malformed_number_is_reported src p es k ws1 ws2 N s ws3 post :
  turns (fopen src) es (mkFILE src p) ->
  is_key k = true ->
  forallb space_char ws1 = true ->
  forallb space_char ws2 = true ->
  forallb space_char ws3 = true ->
  number_failure N s ->
  skipn p src = statement_head k ws1 ws2 N ++ ws3 ++ ";"%char :: post ->
  parses src (Err s).
Proof.
  intros Ht Hk H1 H2 H3 HN H.
  destruct (ParseConfigLine_number_failure _ _ _ _ _ _ _ _ _ Hk H1 H2 H3 HN H)
    as (fuel & f' & Hline).
  apply (parses_fails_at src es _ _ Ht).
  eapply (leaves_line src p k); [|exact Hk|exact Hline].
  unfold statement_head in H. rewrite <- app_assoc in H. exact H.
Qed.

Lemma malformed_number_is_reported_witness :
  parses src_leading_zero (Err INVALID_INTEGER_LITERAL).
Proof.
  apply (malformed_number_is_reported src_leading_zero 0 [] (bytes "k") (bytes " ")
           (bytes " ") (bytes "09") INVALID_INTEGER_LITERAL [] []).
  - apply turns_done.
  - reflexivity.
  - reflexivity.
  - reflexivity.
  - reflexivity.
  - apply (bad_integer "0"%char (bytes "9")); [reflexivity | reflexivity |].
    vm_compute. discriminate.
  - reflexivity.
Defined.

(** ** Arrays as they are printed *)

(** X21: [ParseVector] reads back what [PrintVector] prints.  For an array
    whose [Length] is the number of its elements, with well-formed
    elements and floats that [%lf] prints without loss, the text of
    [PrintVector], read from behind its opening bracket, gives the same
    array, and the stream is left behind the closing bracket. *)
Theorem PrintVector_is_read_back d p vec rest fuel :
  Length vec = length (Data vec) ->
  Forall wf_primitive (Data vec) -> Forall stable_primitive (Data vec) ->
  skipn p d = PrintVector vec ++ rest ->
  (length (PrintVector vec) < fuel)%nat ->
  ParseVector fuel (mkFILE d (S p))
  = Some (mkFILE d (p + length (PrintVector vec)), Ok vec).
Proof.
  intros Hlen Hwf Hst H Hfuel. destruct vec as [n els]. simpl in Hlen, Hwf, Hst.
  subst n. unfold PrintVector in *. cbn [Length Data] in *.
  rewrite firstn_all in *.
  simpl in H. apply skipn_cons_S in H. rewrite <- app_assoc in H. simpl in H.
  simpl length in Hfuel. rewrite length_app in Hfuel. simpl in Hfuel.
  rewrite (ParseVector_run d (S p) els rest fuel H Hwf Hst) by lia.
  do 3 f_equal. simpl. rewrite length_app. simpl. lia.
Qed.

Lemma PrintVector_is_read_back_witness :
  let vec := mkVector 3 [Number 7; String (bytes "x y"); Number 0] in
  ParseVector 30 (mkFILE (PrintVector vec ++ bytes ";") (S 0))
  = Some (mkFILE (PrintVector vec ++ bytes ";") (0 + length (PrintVector vec)), Ok vec).
Proof.
  apply (PrintVector_is_read_back
           (PrintVector (mkVector 3 [Number 7; String (bytes "x y"); Number 0])
              ++ bytes ";")
           0 (mkVector 3 [Number 7; String (bytes "x y"); Number 0]) (bytes ";") 30).
  - reflexivity.
  - simpl. constructor; [simpl; unfold LONG_MAX; lia|].
    constructor; [unfold wf_primitive, wf_string; splits; reflexivity|].
    constructor; [simpl; unfold LONG_MAX; lia|]. constructor.
  - simpl. repeat (constructor; [exact I|]). constructor.
  - reflexivity.
  - vm_compute. lia.
Defined.

(** ** The messages of [ErrToString] *)

(** X22: [ErrToString] has one message for each of the eight statuses -1
    to -8, no two of them equal, and [Unknown error.] for every other
    value, also for the status 1 of a success. *)
Theorem ErrToString_messages s t :
  (ErrToString s = "Unknown error."%string <-> ~ (-8 <= s <= -1))
  /\ (-8 <= s <= -1 -> -8 <= t <= -1 -> ErrToString s = ErrToString t -> s = t).
Proof.
  split; [split|].
  - intros H Hr.
    assert (Hs : s = -1 \/ s = -2 \/ s = -3 \/ s = -4 \/ s = -5 \/ s = -6
                 \/ s = -7 \/ s = -8) by lia.
    destruct Hs as [-> | [-> | [-> | [-> | [-> | [-> | [-> | ->]]]]]]];
      vm_compute in H; discriminate.
  - intros Hr. unfold ErrToString, FILE_NO_ACCESS, OUT_OF_MEMORY, UNEXPECTED_EOF,
      UNEXPECTED_TOKEN, INVALID_CONFIG_KEY, INVALID_ARRAY_ELEMENT,
      INVALID_INTEGER_LITERAL, INVALID_DECIMAL_LITERAL.
    repeat match goal with
           | |- context [s =? ?c] =>
               replace (s =? c) with false by (symmetry; apply Z.eqb_neq; lia)
           end.
    reflexivity.
  - intros Hs Ht H.
    assert (Hs' : s = -1 \/ s = -2 \/ s = -3 \/ s = -4 \/ s = -5 \/ s = -6
                  \/ s = -7 \/ s = -8) by lia.
    assert (Ht' : t = -1 \/ t = -2 \/ t = -3 \/ t = -4 \/ t = -5 \/ t = -6
                  \/ t = -7 \/ t = -8) by lia.
    destruct Hs' as [-> | [-> | [-> | [-> | [-> | [-> | [-> | ->]]]]]]];
      destruct Ht' as [-> | [-> | [-> | [-> | [-> | [-> | [-> | ->]]]]]]];
      first [reflexivity | vm_compute in H; discriminate].
Qed.

(** ** Keys and white space *)

(** X23: [ParseString] reads the longest run of key characters.  On a
    letter followed by letters, digits, [$], [.] and [_] and then by a byte
    that is none of these, it returns exactly these bytes and leaves the
    stream on the byte after them.  On a first byte that is no letter, or
    at the end of the input, it returns [NULL]. *)
Theorem key_is_longest_run fuel d p k c rest :
  skipn p d = k ++ c :: rest ->
  is_key k = true -> key_char c = false ->
  (length k <= fuel)%nat ->
  ParseString fuel (mkFILE d p) = Some (mkFILE d (p + length k), Some k)
  /\ (forall f, isalpha (fst (fgetc f)) = false ->
                ParseString fuel f = Some (snd (fgetc f), None)).
Proof.
  intros H Hk Hc Hfuel. split.
  - apply (ParseString_run d p k (c :: rest) fuel H Hk); [eauto | exact Hfuel].
  - intros f Hf. unfold ParseString, consumeLetter.
    destruct (fgetc f) as [x f1]. simpl in *. rewrite Hf. reflexivity.
Qed.

Lemma key_is_longest_run_witness :
  ParseString 10 (mkFILE (bytes "a.b$c_1-x = 2;") 0)
  = Some (mkFILE (bytes "a.b$c_1-x = 2;") (0 + length (bytes "a.b$c_1")),
          Some (bytes "a.b$c_1"))
  /\ (forall f, isalpha (fst (fgetc f)) = false ->
                ParseString 10 f = Some (snd (fgetc f), None)).
Proof.
  apply (key_is_longest_run 10 (bytes "a.b$c_1-x = 2;") 0 (bytes "a.b$c_1") "-"%char
           (bytes "x = 2;")).
  - reflexivity.
  - reflexivity.
  - reflexivity.
  - simpl. lia.
Defined.

Lemma consumeSpace_next_byte d p fuel f' :
  (p <= length d)%nat -> d <> [] ->
  consumeSpace fuel (mkFILE d p) = Some f' ->
  (fst (fgetc f') =? EOF) = false.
Proof.
  intros Hp Hne H.
  destruct (consumeSpace_within d fuel _ _ (within_mk d p Hp) H) as [Hw Hlt].
  specialize (Hlt Hne). destruct (within_inv _ _ Hw) as (q & -> & _). simpl in Hlt.
  destruct (fgetc (mkFILE d q)) as [c f1] eqn:Hc. simpl.
  destruct (c =? EOF) eqn:He; [|reflexivity].
  destruct (fgetc_eof_inv _ _ _ _ Hc He) as [_ Hle]. lia.
Qed.

(** X24: where [consumeSpace] leaves the stream.  Before a byte that is no
    white space it stops on that byte.  When the white space runs into the
    end of the input it un-reads the last byte of the file, so the next
    read returns that byte once more: after [consumeSpace] on a stream
    inside a file that is not empty, the next read never returns the end
    of the input. *)
Theorem consumeSpace_stops d p ws rest fuel :
  skipn p d = ws ++ rest ->
  forallb space_char ws = true ->
  head_is (fun c => negb (space_char c)) rest = true ->
  (length ws < fuel)%nat ->
  consumeSpace fuel (mkFILE d p)
  = Some (match rest with
          | [] => pushback (mkFILE d (p + length ws)) 1
          | _ :: _ => mkFILE d (p + length ws)
          end)
  /\ (forall f', (p <= length d)%nat -> d <> [] ->
                 consumeSpace fuel (mkFILE d p) = Some f' ->
                 (fst (fgetc f') =? EOF) = false).
Proof.
  intros H Hws Hh Hfuel. split.
  - destruct rest as [|c r].
    + rewrite app_nil_r in H. apply consumeSpace_eof; assumption.
    + simpl in Hh. apply negb_true_iff in Hh.
      apply (consumeSpace_run d ws p (c :: r) fuel H Hws); [eauto | exact Hfuel].
  - intros f'. apply consumeSpace_next_byte.
Qed.

Lemma consumeSpace_stops_witness :
  consumeSpace 10 (mkFILE (bytes "k =  ") 3)
  = Some (match @nil ascii with
          | [] => pushback (mkFILE (bytes "k =  ") (3 + length (bytes "  "))) 1
          | _ :: _ => mkFILE (bytes "k =  ") (3 + length (bytes "  "))
          end)
  /\ (forall f', (3 <= length (bytes "k =  "))%nat -> bytes "k =  " <> [] ->
                 consumeSpace 10 (mkFILE (bytes "k =  ") 3) = Some f' ->
                 (fst (fgetc f') =? EOF) = false).
Proof.
  apply (consumeSpace_stops (bytes "k =  ") 3 (bytes "  ") [] 10).
  - reflexivity.
  - reflexivity.
  - reflexivity.
  - simpl. lia.
Defined.

(** ** Arrays that fail *)







(** ** The parser returns *)

Lemma fgetc_cases d p :
  (p <= length d)%nat ->
  (fgetc (mkFILE d p) = (EOF, mkFILE d p) /\ p = length d)
  \/ (exists a r, skipn p d = a :: r
                  /\ fgetc (mkFILE d p) = (int_of_char a, mkFILE d (S p))
                  /\ (p < length d)%nat).
Proof.
  intros Hp. pose proof (length_skipn p d) as Hl.
  destruct (skipn p d) as [|a r] eqn:Hs.
  - left. split; [apply fgetc_nil; exact Hs | simpl in Hl; lia].
  - right. exists a, r. splits; [reflexivity | apply (fgetc_cons _ _ _ _ Hs) |].
    simpl in Hl. lia.
Qed.

Lemma span_split (P : ascii -> bool) l :
  exists l1 l2,
    l = l1 ++ l2 /\ forallb P l1 = true
    /\ head_is (fun c => negb (P c)) l2 = true.
Proof.
  induction l as [|a l (l1 & l2 & Hl & H1 & H2)].
  - exists [], []. splits; reflexivity.
  - destruct (P a) eqn:Ha.
    + exists (a :: l1), l2. splits.
      * simpl. f_equal. exact Hl.
      * simpl. rewrite Ha. exact H1.
      * exact H2.
    + exists [], (a :: l). splits; try reflexivity. simpl. rewrite Ha. reflexivity.
Qed.

Lemma ParseComment_total d : forall fuel p,
  (p <= length d)%nat -> (length d - p < fuel)%nat ->
  exists q, ParseComment fuel (mkFILE d p) = Some (mkFILE d q)
            /\ (p <= q <= length d)%nat.
Proof.
  induction fuel as [|n IH]; intros p Hp Hf; [lia|].
  cbn [ParseComment].
  destruct (fgetc_cases d p Hp) as [[Hc _] | (a & r & Hs & Hc & Hlt)]; rewrite Hc.
  - exists p. split; [reflexivity | lia].
  - destruct ((int_of_char a =? 10) || (int_of_char a =? EOF)).
    + exists (S p). split; [reflexivity | lia].
    + destruct (IH (S p)) as (q & Hq & Hb); [lia | lia |].
      exists q. split; [exact Hq | lia].
Qed.

(** [consumeSpace] returns, before the end of a file that is not empty,
    and not before the byte it started on, unless it started at the end
    of the file. *)
Lemma consumeSpace_bounds d : forall fuel p,
  (p <= length d)%nat -> (length d - p < fuel)%nat ->
  exists q, consumeSpace fuel (mkFILE d p) = Some (mkFILE d q)
            /\ (Nat.min p (length d - 1) <= q <= length d - 1)%nat.
Proof.
  induction fuel as [|n IH]; intros p Hp Hf; [lia|].
  cbn [consumeSpace].
  destruct (fgetc_cases d p Hp) as [[Hc Hl] | (a & r & Hs & Hc & Hlt)]; rewrite Hc.
  - change (negb (isspace EOF)) with true. cbv iota.
    exists (length d - 1)%nat. split; [|lia].
    unfold pushback. cbn [pos data]. rewrite Hl.
    destruct (1 <=? length d)%nat eqn:E; [reflexivity|].
    apply Nat.leb_gt in E. do 2 f_equal. lia.
  - destruct (isspace (int_of_char a)); simpl negb; cbv iota.
    + destruct (IH (S p)) as (q & Hq & Hb); [lia | lia |].
      exists q. split; [exact Hq | lia].
    + rewrite pushback_S. exists p. split; [reflexivity | lia].
Qed.

Lemma ParseString_total d p fuel :
  (p <= length d)%nat -> (length d - p < fuel)%nat ->
  exists q key, ParseString fuel (mkFILE d p) = Some (mkFILE d q, key)
                /\ (p <= q <= length d)%nat.
Proof.
  intros Hp Hf.
  destruct (fgetc_cases d p Hp) as [[Hc _] | (a & r & Hs & Hc & Hlt)].
  - exists p, None. split; [|lia].
    unfold ParseString, consumeLetter. rewrite Hc. reflexivity.
  - destruct (isalpha (int_of_char a)) eqn:Ha.
    + destruct (span_split key_char r) as (ks & rest & Hr & Hks & Hrest).
      pose proof (length_skipn p d) as Hl. rewrite Hs, Hr in Hl.
      simpl in Hl. rewrite length_app in Hl.
      destruct rest as [|c rest].
      * rewrite app_nil_r in Hr. subst r.
        destruct (ParseString_at_end fuel d p a ks Hs Ha Hks) as (q & key & H & Hq);
          [lia|].
        exists q, (Some key). auto.
      * simpl in Hrest. apply negb_true_iff in Hrest.
        exists (p + length (a :: ks))%nat, (Some (a :: ks)). split.
        -- apply (ParseString_run d p (a :: ks) (c :: rest) fuel).
           ++ rewrite Hs, Hr. reflexivity.
           ++ simpl. rewrite Ha. exact Hks.
           ++ eauto.
           ++ simpl in *. lia.
        -- simpl in *. lia.
    + exists (S p), None. split; [|lia].
      unfold ParseString, consumeLetter. rewrite Hc, Ha. reflexivity.
Qed.

Lemma fgetc_pos_le f c f1 : fgetc f = (c, f1) -> (pos f <= pos f1)%nat.
Proof.
  unfold fgetc. destruct (nth_error (data f) (pos f)); intros H;
    injection H as <- <-; simpl; lia.
Qed.

Lemma ParseQuotedString_total d p fuel :
  (p <= length d)%nat -> (length d - p < fuel)%nat ->
  exists q r, ParseQuotedString fuel (mkFILE d p) = Some (mkFILE d q, r)
              /\ (p <= q <= length d)%nat.
Proof.
  intros Hp Hf.
  destruct (span_split (fun a => negb (is_char 39 a)) (skipn p d))
    as (s & rest & Hs & Hq & Hrest).
  pose proof (length_skipn p d) as Hl. rewrite Hs, length_app in Hl.
  destruct rest as [|c rest].
  - rewrite app_nil_r in Hs.
    exists (p + length (skipn p d))%nat, (Err UNEXPECTED_EOF). split.
    + apply ParseQuotedString_unterminated; rewrite Hs; [exact Hq | lia].
    + rewrite length_skipn. lia.
  - simpl in Hrest. rewrite negb_involutive in Hrest.
    assert (Hc : c = "'"%char).
    { unfold is_char in Hrest. apply Z.eqb_eq in Hrest. unfold int_of_char in Hrest.
      change 39 with (Z.of_N (N_of_ascii "'"%char)) in Hrest.
      apply N2Z.inj in Hrest.
      rewrite <- (ascii_N_embedding c), Hrest. reflexivity. }
    subst c. simpl in Hl.
    destruct (ParseQuotedString fuel (mkFILE d p)) as [[f' r]|] eqn:E.
    + pose proof (ParseQuotedString_within d _ _ _ _ (within_mk d p Hp) E) as Hw.
      destruct (within_inv _ _ Hw) as (q & -> & Hle).
      exists q, r. split; [reflexivity|]. split; [|exact Hle].
      revert E. unfold ParseQuotedString.
      rewrite (ParseQuotedString_loop_run d s p rest 0 fuel Hs Hq) by lia.
      replace (p + length s + 1)%nat with (p + (0 + length s + 1))%nat by lia.
      rewrite pushback_add. unfold fgets. cbn [data pos].
      destruct (fgetc _) as [x f2] eqn:Ec. intros H. injection H as Hf2 _.
      subst f2. apply fgetc_pos_le in Ec. simpl in Ec. lia.
    + exfalso. revert E. unfold ParseQuotedString.
      rewrite (ParseQuotedString_loop_run d s p rest 0 fuel Hs Hq) by lia.
      destruct (fgets _ _) as [b f2]. destruct (fgetc f2). discriminate.
Qed.

Lemma ParseGenericNumber_loop_total d : forall fuel p len fd fl,
  (p <= length d)%nat -> (length d - p < fuel)%nat ->
  exists q r,
    ParseGenericNumber_loop fuel (mkFILE d p) len fd fl = Some (mkFILE d q, r)
    /\ (p <= q <= length d)%nat.
Proof.
  induction fuel as [|n IH]; intros p len fd fl Hp Hf; [lia|].
  cbn [ParseGenericNumber_loop].
  destruct (fgetc_cases d p Hp) as [[Hc _] | (a & r & Hs & Hc & Hlt)]; rewrite Hc.
  - change (EOF =? EOF) with true. cbv iota.
    exists p; eexists; split; [reflexivity | lia].
  - rewrite int_of_char_not_EOF.
    destruct (isdigit (int_of_char a) || IsHexDigit (int_of_char a)
              || (int_of_char a =? 120) || (int_of_char a =? 88)).
    + destruct (IH (S p) (S len) fd fl) as (q & r0 & Hq & Hb); [lia | lia |].
      exists q, r0. split; [exact Hq | lia].
    + destruct ((int_of_char a =? 46) && fd).
      * destruct (IH (S p) (S len) false true) as (q & r0 & Hq & Hb); [lia | lia |].
        exists q, r0. split; [exact Hq | lia].
      * rewrite pushback_S. exists p; eexists; split; [reflexivity | lia].
Qed.

(** [ParseGenericNumber] on a digit returns and has read at least that
    digit. *)
Lemma ParseGenericNumber_total d p a r fuel :
  skipn p d = a :: r ->
  isdigit (int_of_char a) = true ->
  (length d - p < fuel)%nat ->
  exists q res,
    ParseGenericNumber fuel (mkFILE d p) = Some (mkFILE d q, res)
    /\ (p < q <= length d)%nat.
Proof.
  intros Hs Ha Hf.
  pose proof (length_skipn p d) as Hl. rewrite Hs in Hl. simpl in Hl.
  destruct fuel as [|n]; [lia|].
  unfold ParseGenericNumber. cbn [ParseGenericNumber_loop].
  rewrite (fgetc_cons _ _ _ _ Hs), int_of_char_not_EOF, Ha. cbn [orb]. cbv iota.
  destruct (ParseGenericNumber_loop_total d n (S p) 1 true false)
    as (q1 & r1 & Hloop & Hb); [lia | lia |].
  rewrite Hloop. destruct r1 as [[len fl]|s].
  - destruct (ParseGenericNumber_loop_inv _ _ _ _ _ _ _ _ _ Hloop) as (k & Hq1 & ->).
    injection Hq1 as ->.
    replace (S (p + k)) with (p + (1 + k))%nat by lia.
    rewrite pushback_add. unfold fgets. cbn [data pos]. rewrite Hs.
    replace (1 + k + 1 - 1)%nat with (S k) by lia.
    pose proof (fgets_read_nonempty k a r) as Hne.
    pose proof (fgets_read_length (S k) (a :: r)) as Hle.
    change (length (a :: r)) with (S (length r)) in Hle.
    set (buf := fgets_read (S k) (a :: r)) in *.
    destruct fl.
    + destruct (strtod (cstring buf)) as [x e]. destruct (negb (is_nil e));
        eexists; eexists; (split; [reflexivity | lia]).
    + destruct (strtol (cstring buf)) as [x e]. destruct (negb (is_nil e));
        eexists; eexists; (split; [reflexivity | lia]).
  - exists q1, (Err s). split; [reflexivity | lia].
Qed.

(** [ParseValue] returns, and has read at least one byte unless it
    started at the end of the file. *)
Lemma ParseValue_total d p fuel :
  (p <= length d)%nat -> (length d - p < fuel)%nat ->
  exists q r,
    ParseValue fuel (mkFILE d p) = Some (mkFILE d q, r)
    /\ (q <= length d)%nat /\ ((p < length d)%nat -> (p < q)%nat).
Proof.
  intros Hp Hf. unfold ParseValue.
  destruct (fgetc_cases d p Hp) as [[Hc Hl] | (a & r & Hs & Hc & Hlt)]; rewrite Hc.
  - change (EOF =? EOF) with true. cbv iota.
    exists p; eexists; split; [reflexivity | lia].
  - rewrite int_of_char_not_EOF.
    destruct (int_of_char a =? 39).
    + destruct (ParseQuotedString_total d (S p) fuel) as (q & r0 & Hq & Hb);
        [lia | lia |].
      rewrite Hq. exists q; eexists; split; [reflexivity | lia].
    + destruct (isdigit (int_of_char a)) eqn:Ha.
      * rewrite pushback_S.
        destruct (ParseGenericNumber_total d p a r fuel Hs Ha Hf) as (q & r0 & Hq & Hb).
        exists q, r0. split; [exact Hq | lia].
      * exists (S p); eexists; split; [reflexivity | lia].
Qed.

Lemma int_of_char_inj a b : int_of_char a = int_of_char b -> a = b.
Proof.
  unfold int_of_char. intros H. apply N2Z.inj in H.
  rewrite <- (ascii_N_embedding a), <- (ascii_N_embedding b), H. reflexivity.
Qed.

(** The loop of [ParseVector] returns on a file whose last byte is no
    comma. *)
Lemma ParseVector_loop_total d :
  (forall d', d <> d' ++ [","%char]) ->
  forall fuel p vec (more : bool),
    (p <= length d)%nat -> d <> [] ->
    (length d + 2 * (length d - p) + (if more then 1 else 0) + 2 <= fuel)%nat ->
    exists q r,
      ParseVector_loop fuel (mkFILE d p) vec more = Some (mkFILE d q, r)
      /\ (Nat.min p (length d - 1) <= q <= length d)%nat.
Proof.
  intros Hlast. induction fuel as [|n IH]; intros p vec more Hp Hne Hf; [lia|].
  assert (HL : (0 < length d)%nat) by (destruct d; [congruence | simpl; lia]).
  cbn [ParseVector_loop].
  destruct (consumeSpace_bounds d n p Hp) as (q1 & Hcs & Hq1); [destruct more; lia|].
  rewrite Hcs.
  destruct (fgetc_cases d q1) as [[Hc Hl] | (a & r & Hs & Hc & Hlt)]; [lia | lia |].
  rewrite Hc, int_of_char_not_EOF.
  destruct (int_of_char a =? 93).
  { exists (S q1); eexists; split; [reflexivity | lia]. }
  destruct (int_of_char a =? 44) eqn:Ecomma.
  { assert (Hpl : (p < length d)%nat).
    { destruct (Nat.eq_dec p (length d)) as [Heq|]; [|lia]. exfalso.
      destruct (exists_last Hne) as (d' & z & Hd).
      pose proof (last_byte_at _ _ _ Hd) as Hz.
      replace q1 with (length d - 1)%nat in Hs by lia.
      rewrite Hs in Hz. injection Hz as Ha _.
      apply Z.eqb_eq in Ecomma.
      apply (Hlast d'). rewrite Hd. do 2 f_equal. rewrite <- Ha.
      apply int_of_char_inj. exact Ecomma. }
    destruct (IH (S q1) vec true) as (q & r0 & Hq & Hb); [lia | exact Hne | lia |].
    exists q, r0. split; [exact Hq | lia]. }
  destruct more; cbn [negb]; cbv iota.
  - rewrite pushback_S.
    destruct (ParseValue_total d q1 n) as (q2 & rv & Hv & Hq2 & Hadv); [lia | lia |].
    rewrite Hv. specialize (Hadv Hlt).
    destruct rv as [pv|s].
    + destruct (IH q2 (mkVector (S (Length vec)) (Data vec ++ [pv])) false)
        as (q & r0 & Hq & Hb); [lia | exact Hne | lia |].
      exists q, r0. split; [exact Hq | lia].
    + exists q2; eexists; split; [reflexivity | lia].
  - exists (S q1); eexists; split; [reflexivity | lia].
Qed.

Lemma expect_cases d p c :
  (p <= length d)%nat ->
  exists r q, expect (mkFILE d p) c = (r, mkFILE d q)
              /\ (p <= q <= length d)%nat /\ ((p < length d)%nat -> q = S p).
Proof.
  intros Hp. unfold expect.
  destruct (fgetc_cases d p Hp) as [[Hc Hl] | (a & r & Hs & Hc & Hlt)]; rewrite Hc.
  - destruct (negb (c =? EOF)); eexists; exists p; (split; [reflexivity | lia]).
  - destruct (negb (c =? int_of_char a)); eexists; exists (S p);
      (split; [reflexivity | lia]).
Qed.

(** The end of a line: the white space after the value and the check for
    [;] return, and the check has read a byte. *)
Lemma line_tail_total d q5 fuel (status : result ConfigEntry) :
  (q5 <= length d)%nat -> (0 < length d)%nat -> (length d < fuel)%nat ->
  exists q r,
    match consumeSpace fuel (mkFILE d q5) with
    | Some file =>
        let (r2, file) := expect file 59 in
        if r2 <? 0 then Some (file, Err UNEXPECTED_TOKEN)
        else Some (file, status)
    | None => None
    end = Some (mkFILE d q, r)
    /\ (Nat.min q5 (length d - 1) < q <= length d)%nat.
Proof.
  intros Hq5 HL Hf.
  destruct (consumeSpace_bounds d fuel q5 Hq5) as (q6 & -> & Hq6); [lia|].
  destruct (expect_cases d q6 59) as (r2 & q7 & -> & Hq7 & Hadv); [lia|].
  destruct (r2 <? 0); exists q7; eexists; (split; [reflexivity | lia]).
Qed.

(** [ParseConfigLine] returns on a file whose last byte is no comma: a
    budget of three times the length of the file and three is enough.  A
    line that succeeds has read at least one byte. *)
Lemma ParseConfigLine_total d p a r fuel :
  (forall d', d <> d' ++ [","%char]) ->
  skipn p d = a :: r ->
  (3 * length d + 3 <= fuel)%nat ->
  exists q res,
    ParseConfigLine fuel (mkFILE d p) = Some (mkFILE d q, res)
    /\ (q <= length d)%nat /\ (forall e, res = Ok e -> (p < q)%nat).
Proof.
  intros Hlast Hs Hf.
  pose proof (length_skipn p d) as Hl. rewrite Hs in Hl. simpl in Hl.
  assert (Hne : d <> []) by (intros ->; simpl in Hl; lia).
  unfold ParseConfigLine.
  destruct (ParseString_total d p fuel) as (q1 & key & -> & Hq1); [lia | lia |].
  destruct key as [key|].
  2:{ exists q1; eexists; split; [reflexivity|]. split; [lia | discriminate]. }
  destruct (consumeSpace_bounds d fuel q1) as (q2 & -> & Hq2); [lia | lia |].
  destruct (expect_cases d q2 61) as (r1 & q3 & -> & Hq3 & _); [lia|].
  destruct (r1 <? 0).
  { exists q3; eexists; split; [reflexivity|]. split; [lia | discriminate]. }
  destruct (consumeSpace_bounds d fuel q3) as (q4 & -> & Hq4); [lia | lia |].
  destruct (fgetc_cases d q4) as [[Hc Hl4] | (b & r4 & Hs4 & Hc & Hlt)]; [lia | lia |].
  rewrite Hc, int_of_char_not_EOF.
  destruct (int_of_char b =? 91).
  - unfold ParseVector.
    destruct (ParseVector_loop_total d Hlast fuel (S q4) (mkVector 0 []) true)
      as (q5 & r5 & -> & Hq5); [lia | exact Hne | lia |].
    destruct (line_tail_total d q5 fuel
                (map_result (fun vec => mkConfigEntry key (Array vec) ARRAY_TYPE) r5))
      as (q & res & -> & Hq); [lia | lia | lia |].
    exists q, res. split; [reflexivity|]. split; [lia|]. intros _ _. lia.
  - rewrite pushback_S.
    destruct (ParseValue_total d q4 fuel) as (q5 & r5 & -> & Hq5 & Hadv);
      [lia | lia |].
    specialize (Hadv Hlt).
    destruct (line_tail_total d q5 fuel
                (map_result (fun pv => mkConfigEntry key (Primitive pv) PRIMITIVE_TYPE)
                            r5))
      as (q & res & -> & Hq); [lia | lia | lia |].
    exists q, res. split; [reflexivity|]. split; [lia|]. intros _ _. lia.
Qed.

Lemma ParseCfg_total d p a r fuel :
  (forall d', d <> d' ++ [","%char]) ->
  skipn p d = a :: r ->
  isspace (int_of_char a) = false ->
  (3 * length d + 4 <= fuel)%nat ->
  exists q res,
    ParseCfg fuel (mkFILE d p) = Some (mkFILE d q, res)
    /\ (q <= length d)%nat /\ (forall x, res = Ok x -> (p < q)%nat).
Proof.
  intros Hlast Hs Hsp Hf.
  pose proof (length_skipn p d) as Hl. rewrite Hs in Hl. simpl in Hl.
  destruct fuel as [|n]; [lia|]. cbn [ParseCfg].
  rewrite (fgetc_cons _ _ _ _ Hs), int_of_char_not_EOF, Hsp.
  destruct (int_of_char a =? 10).
  { exists (S p); eexists; split; [reflexivity|]. split; [lia|]. intros; lia. }
  destruct (int_of_char a =? 35).
  { destruct (ParseComment_total d n (S p)) as (q & -> & Hq); [lia | lia |].
    exists q; eexists; split; [reflexivity|]. split; [lia|]. intros; lia. }
  destruct (isalpha (int_of_char a)).
  - rewrite pushback_S.
    destruct (ParseConfigLine_total d p a r n Hlast Hs) as (q & res & -> & Hq & Hadv);
      [lia|].
    exists q; eexists; split; [reflexivity|]. split; [exact Hq|].
    intros x Hx. destruct res as [e|s]; [|discriminate].
    apply (Hadv e). reflexivity.
  - exists (S p); eexists; split; [reflexivity|]. split; [lia | discriminate].
Qed.

Lemma ParseConfig_loop_total d :
  (forall d', d <> d' ++ [","%char]) ->
  forall fuel p config,
    (p <= length d)%nat ->
    (length d - p + 3 * length d + 6 <= fuel)%nat ->
    exists r, ParseConfig_loop fuel (mkFILE d p) config = Some r.
Proof.
  intros Hlast. induction fuel as [|n IH]; intros p config Hp Hf; [lia|].
  cbn [ParseConfig_loop].
  destruct (fgetc_cases d p Hp) as [[Hc _] | (a & r & Hs & Hc & Hlt)]; rewrite Hc.
  - eexists. reflexivity.
  - rewrite int_of_char_not_EOF.
    destruct (isspace (int_of_char a)) eqn:Hsp.
    + apply IH; lia.
    + rewrite pushback_S.
      destruct (ParseCfg_total d p a r n Hlast Hs Hsp) as (q & res & -> & Hq & Hadv);
        [lia|].
      destruct res as [[e|]|s].
      * apply IH; [lia|]. specialize (Hadv _ eq_refl). lia.
      * apply IH; [lia|]. specialize (Hadv _ eq_refl). lia.
      * eexists. reflexivity.
Qed.

(** X26: [ParseConfig] returns on every source whose last byte is no
    comma: a budget of four times the length of the source and six steps
    for the loops is enough.  Sources that end in a comma are the only
    ones on which a loop, the one of [ParseVector], can go on for ever. *)
Theorem ParseConfig_returns_unless_comma_last src :
  (forall pre, src <> pre ++ [","%char]) ->
  exists r, ParseConfig (4 * length src + 6) (Some src) = Some r.
Proof.
  intros Hlast. unfold ParseConfig, fopen.
  apply (ParseConfig_loop_total src Hlast); lia.
Qed.

Lemma ParseConfig_returns_unless_comma_last_witness :
  exists r, ParseConfig (4 * length src_open_number + 6) (Some src_open_number) = Some r.
Proof.
  apply (ParseConfig_returns_unless_comma_last src_open_number).
  intros pre H. apply (f_equal (fun l => last l " "%char)) in H.
  rewrite last_last in H. vm_compute in H. discriminate.
Defined.
